(** * Team-creation wizard (Bot/Teams/create_team.py) and label
      autocomplete (Bot/Teams/archive_team.py): a shallow embedding.

    The wizard is asynchronous Python over discord.py.  It is embedded as
    a state-and-exception monad over a [World] that holds the still
    undelivered gateway events and the messages sent so far.  The guild
    directory and the remote calls (fetch, create, grant) are read from
    an [Interaction] record.  The database is an explicit table state. *)

From Stdlib Require Import String Ascii List ZArith Bool Lia Permutation.
From Stdlib Require Import DecimalString.
Import ListNotations.
Local Open Scope string_scope.
Local Open Scope Z_scope.

(** ** Python [str] operations

    A [string] is read as a sequence of code points below 256; the
    predicates are the ones CPython uses on that range. *)
Module PyStr.

Definition code (c : ascii) : N := N_of_ascii c.

Definition between (lo hi : N) (c : ascii) : bool :=
  (N.leb lo (code c) && N.leb (code c) hi)%bool.

(** [str.isspace] on one character: TAB..CR, FS..US, SPACE, NEL, NBSP. *)
Definition isspace (c : ascii) : bool :=
  (between 9 13 c || between 28 32 c
   || N.eqb (code c) 133 || N.eqb (code c) 160)%bool.

(** Decimal digits (category Nd): what [int] reads. *)
Definition isdecimal_char (c : ascii) : bool := between 48 57 c.

(** [str.isdigit] on one character: the decimal digits and also the
    superscripts U+00B2, U+00B3 and U+00B9. *)
Definition isdigit_char (c : ascii) : bool :=
  (isdecimal_char c || N.eqb (code c) 178 || N.eqb (code c) 179
   || N.eqb (code c) 185)%bool.

(** [str.lower] on one character: A..Z and the accented capitals
    U+00C0..U+00DE (U+00D7, the multiplication sign, has no case). *)
Definition lower_char (c : ascii) : ascii :=
  if (between 65 90 c
      || (between 192 222 c && negb (N.eqb (code c) 215)))%bool
  then ascii_of_N (code c + 32) else c.

Fixpoint lower (s : string) : string :=
  match s with
  | EmptyString => EmptyString
  | String c s' => String (lower_char c) (lower s')
  end.

Fixpoint lstrip (s : string) : string :=
  match s with
  | EmptyString => EmptyString
  | String c s' => if isspace c then lstrip s' else s
  end.

Fixpoint rstrip (s : string) : string :=
  match s with
  | EmptyString => EmptyString
  | String c s' =>
      match rstrip s' with
      | EmptyString => if isspace c then EmptyString else String c EmptyString
      | r => String c r
      end
  end.

(** [str.strip()] *)
Definition strip (s : string) : string := lstrip (rstrip s).

Fixpoint all_chars (p : ascii -> bool) (s : string) : bool :=
  match s with
  | EmptyString => true
  | String c s' => (p c && all_chars p s')%bool
  end.

(** Truthiness of a [str]: non-empty. *)
Definition nonempty (s : string) : bool :=
  match s with EmptyString => false | _ => true end.

(** [str.isdigit()]: at least one character and all of them digits. *)
Definition isdigit (s : string) : bool :=
  (nonempty s && all_chars isdigit_char s)%bool.

Definition isdecimal (s : string) : bool :=
  (nonempty s && all_chars isdecimal_char s)%bool.

Fixpoint digits_value (acc : Z) (s : string) : Z :=
  match s with
  | EmptyString => acc
  | String c s' => digits_value (10 * acc + (Z.of_N (code c) - 48)) s'
  end.

(** [int(s)] on the strings the wizard passes to it, which have all
    passed [isdigit]: the value when every character is a decimal digit,
    and [None] for the [ValueError] that a superscript digit causes. *)
Definition int (s : string) : option Z :=
  if isdecimal s then Some (digits_value 0 s) else None.

(** [str(n)] for an integer. *)
Definition of_Z (n : Z) : string := NilZero.string_of_int (Z.to_int n).

(** [re.split(r"[\s,]+", s)] followed by dropping the empty pieces:
    the maximal runs of characters that are neither space nor comma. *)
Definition is_sep (c : ascii) : bool :=
  (isspace c || N.eqb (code c) 44)%bool.

Fixpoint tokens_aux (cur : string) (s : string) : list string :=
  match s with
  | EmptyString => if nonempty cur then [cur] else []
  | String c s' =>
      if is_sep c
      then ((if nonempty cur then [cur] else []) ++ tokens_aux EmptyString s')%list
      else tokens_aux (cur ++ String c EmptyString) s'
  end.

Definition tokens (s : string) : list string := tokens_aux EmptyString s.

(** [", ".join(xs)] *)
Fixpoint join (sep : string) (xs : list string) : string :=
  match xs with
  | [] => EmptyString
  | [x] => x
  | x :: rest => x ++ sep ++ join sep rest
  end.

End PyStr.

(** ** Data model (discord.py objects, as far as the wizard reads them) *)

Record Role := { role_id : Z; role_name : string }.

Record CategoryChannel := { category_id : Z; category_name : string }.

(** A guild channel of any type; [channel_is_text] is
    [isinstance(ch, discord.TextChannel)]. *)
Record Channel := {
  channel_id : Z;
  channel_name : string;
  channel_is_text : bool
}.

Record Member := { member_id : Z; display_name : string }.

Definition role_mention (r : Role) : string :=
  "<@&" ++ PyStr.of_Z (role_id r) ++ ">".
Definition channel_mention (c : Channel) : string :=
  "<#" ++ PyStr.of_Z (channel_id c) ++ ">".
Definition member_mention (m : Member) : string :=
  "<@" ++ PyStr.of_Z (member_id m) ++ ">".

(** A message as the wizard reads it.  [mentions] holds the mentioned
    accounts that are members of the guild.  An account outside the
    guild, which discord.py lists as a [discord.User], is outside this
    model: on such an account the [isinstance] assertion of
    [_prompt_member] fails and [add_roles] does not exist. *)
Record Message := {
  author_id : Z;
  message_channel_id : Z;
  content : string;
  mentions : list Member;
  role_mentions : list Role;
  channel_mentions : list Channel
}.

(** The options of [SemesterSelect]. *)
Inductive SemesterOption := Fall | Summer | Spring.

Definition option_label (o : SemesterOption) : string :=
  match o with Fall => "Fall" | Summer => "Summer" | Spring => "Spring" end.

(** discord.py's HTTP failures: [Forbidden] and [NotFound] are
    subclasses of [HTTPException]; the payload is [str(exc)]. *)
Inductive HTTPError :=
| Forbidden (text : string)
| NotFound (text : string)
| HTTPException (text : string).

Definition http_text (e : HTTPError) : string :=
  match e with Forbidden t | NotFound t | HTTPException t => t end.

(** The guild as the wizard sees it: the cached directory and the
    remote calls.  The lists are in the order discord.py yields them.
    The directory is the one cached when the command starts: what the
    wizard creates reaches the cache through gateway events, which are
    outside the conversation. *)
Record Guild := {
  roles : list Role;
  categories : list CategoryChannel;
  channels : list Channel;
  members : list Member;
  fetch_member : Z -> Member + HTTPError;
  create_role : string -> Role + HTTPError;
  create_category : string -> CategoryChannel + HTTPError;
  create_text_channel : string -> option CategoryChannel -> Channel + HTTPError;
  add_roles : Member -> Role -> unit + HTTPError
}.

Record Interaction := {
  user_id : Z;
  interaction_channel_id : Z;
  guild : Guild
}.

(** [TeamCreationData] *)
Record TeamCreationData := {
  team_nick : option string;
  role : option Role;
  category : option CategoryChannel;
  channel : option Channel;
  captain : option Member;
  starters : list Member;
  substitutes : list Member;
  year : option Z;
  semester : option string;
  seniority : option Z
}.

Definition empty_draft : TeamCreationData :=
  {| team_nick := None; role := None; category := None; channel := None;
     captain := None; starters := []; substitutes := []; year := None;
     semester := None; seniority := None |}.

Inductive Exn :=
| ValidationError (msg : string)
| ConversationCancelled (msg : string)
| TeamCreationError (msg : string)
| ValueError (msg : string)
| AssertionError.

(** ** The world and the wizard monad *)

(** What the gateway delivers while the wizard waits.  [ETimeout] says
    that the timeout of the wait in progress elapses before anything
    else arrives; so does the end of the list. *)
Inductive Event :=
| EMessage (m : Message)
| ESelect (user : Z) (choice : SemesterOption)
| ETimeout.

Record World := {
  events : list Event;
  outbox : list string
}.

Inductive Result (A : Type) :=
| Ok (a : A)
| Raise (e : Exn)
| OutOfFuel.
Arguments Ok {A} a.
Arguments Raise {A} e.
Arguments OutOfFuel {A}.

Definition M (A : Type) : Type := World -> Result A * World.

Definition ret {A} (a : A) : M A := fun w => (Ok a, w).

Definition bind {A B} (c : M A) (k : A -> M B) : M B :=
  fun w =>
    match c w with
    | (Ok a, w') => k a w'
    | (Raise e, w') => (Raise e, w')
    | (OutOfFuel, w') => (OutOfFuel, w')
    end.

Definition raise {A} (e : Exn) : M A := fun w => (Raise e, w).

Definition out_of_fuel {A} : M A := fun w => (OutOfFuel, w).

(** [try: c except ValidationError as exc: h(str(exc))] *)
Definition catch_validation {A} (c : M A) (h : string -> M A) : M A :=
  fun w =>
    match c w with
    | (Raise (ValidationError msg), w') => h msg w'
    | r => r
    end.

(** [await interaction.followup.send(text, ephemeral=True)]; [outbox]
    holds the follow-up messages of the command, oldest first. *)
Definition send (text : string) : M unit :=
  fun w => (Ok tt, {| events := events w; outbox := (outbox w ++ [text])%list |}).

Declare Scope wizard_scope.
Delimit Scope wizard_scope with wizard.
Notation "x <- c ;; k" := (bind c (fun x => k))
  (at level 61, c at next level, right associativity) : wizard_scope.
Notation "c ;;; k" := (bind c (fun _ => k))
  (at level 61, right associativity) : wizard_scope.
Local Open Scope wizard_scope.

(** [await bot.wait_for("message", timeout=..., check=check)]: the first
    delivered message that passes [check], or [None] for
    [asyncio.TimeoutError].  Select-menu interactions are not messages. *)
Fixpoint wait_for_message (check : Message -> bool) (evs : list Event)
  : option Message * list Event :=
  match evs with
  | [] => (None, [])
  | ETimeout :: rest => (None, rest)
  | EMessage m :: rest =>
      if check m then (Some m, rest) else wait_for_message check rest
  | ESelect _ _ :: rest => wait_for_message check rest
  end.

Definition in_strings (s : string) (l : list string) : bool :=
  existsb (String.eqb s) l.

Definition EXIT_KEYWORDS : list string := ["exit"; "(exit)"].

(** What [_ask_question] hands back: [None] for a skip token, the reply
    text when no parser is given, the parser's value otherwise. *)
Inductive Answer (A : Type) :=
| NA
| Text (s : string)
| Parsed (a : A).
Arguments NA {A}.
Arguments Text {A} s.
Arguments Parsed {A} a.

(** [int(s)] inside the wizard: a [ValueError] propagates as it is. *)
Definition py_int (s : string) : M Z :=
  match PyStr.int s with
  | Some n => ret n
  | None =>
      raise (ValueError ("invalid literal for int() with base 10: '" ++ s ++ "'"))
  end.

Definition nl : string := String (ascii_of_nat 10) EmptyString.

(** A task handed to [asyncio.wait]: finished with a result, still
    pending, or cancelled. *)
Inductive TaskState (A : Type) :=
| Done (result : A)
| Pending
| Cancelled.
Arguments Done {A} result.
Arguments Pending {A}.
Arguments Cancelled {A}.


(** [task.cancel()] for the tasks of the pending set. *)
Definition cancel_if_pending {A} (t : TaskState A) : TaskState A :=
  match t with Pending => Cancelled | other => other end.

(** The two tasks of the semester prompt and the view's [value]:
    [exit_task] yields [_wait_for_exit_signal]'s boolean, [view_task]
    yields [view.wait()]'s (true when the view timed out). *)
Record Race := {
  exit_task : TaskState bool;
  view_task : TaskState bool;
  view_value : option string
}.

(** The value a review handler returns, by the field it is for. *)
Inductive FieldValue :=
| VNick (v : option string)
| VRole (v : Role)
| VCategory (v : CategoryChannel)
| VChannel (v : Channel)
| VMember (v : Member)
| VMembers (v : list Member)
| VInt (v : Z)
| VStr (v : string).

Definition set_team_nick v (d : TeamCreationData) : TeamCreationData :=
  {| team_nick := v; role := role d; category := category d; channel := channel d;
     captain := captain d; starters := starters d; substitutes := substitutes d;
     year := year d; semester := semester d; seniority := seniority d |}.
Definition set_role v (d : TeamCreationData) : TeamCreationData :=
  {| team_nick := team_nick d; role := v; category := category d; channel := channel d;
     captain := captain d; starters := starters d; substitutes := substitutes d;
     year := year d; semester := semester d; seniority := seniority d |}.
Definition set_category v (d : TeamCreationData) : TeamCreationData :=
  {| team_nick := team_nick d; role := role d; category := v; channel := channel d;
     captain := captain d; starters := starters d; substitutes := substitutes d;
     year := year d; semester := semester d; seniority := seniority d |}.
Definition set_channel v (d : TeamCreationData) : TeamCreationData :=
  {| team_nick := team_nick d; role := role d; category := category d; channel := v;
     captain := captain d; starters := starters d; substitutes := substitutes d;
     year := year d; semester := semester d; seniority := seniority d |}.
Definition set_captain v (d : TeamCreationData) : TeamCreationData :=
  {| team_nick := team_nick d; role := role d; category := category d; channel := channel d;
     captain := v; starters := starters d; substitutes := substitutes d;
     year := year d; semester := semester d; seniority := seniority d |}.
Definition set_starters v (d : TeamCreationData) : TeamCreationData :=
  {| team_nick := team_nick d; role := role d; category := category d; channel := channel d;
     captain := captain d; starters := v; substitutes := substitutes d;
     year := year d; semester := semester d; seniority := seniority d |}.
Definition set_substitutes v (d : TeamCreationData) : TeamCreationData :=
  {| team_nick := team_nick d; role := role d; category := category d; channel := channel d;
     captain := captain d; starters := starters d; substitutes := v;
     year := year d; semester := semester d; seniority := seniority d |}.
Definition set_year v (d : TeamCreationData) : TeamCreationData :=
  {| team_nick := team_nick d; role := role d; category := category d; channel := channel d;
     captain := captain d; starters := starters d; substitutes := substitutes d;
     year := v; semester := semester d; seniority := seniority d |}.
Definition set_semester v (d : TeamCreationData) : TeamCreationData :=
  {| team_nick := team_nick d; role := role d; category := category d; channel := channel d;
     captain := captain d; starters := starters d; substitutes := substitutes d;
     year := year d; semester := v; seniority := seniority d |}.
Definition set_seniority v (d : TeamCreationData) : TeamCreationData :=
  {| team_nick := team_nick d; role := role d; category := category d; channel := channel d;
     captain := captain d; starters := starters d; substitutes := substitutes d;
     year := year d; semester := semester d; seniority := v |}.

(** ** The store (tables [teams], [players], [team_members]) *)
Module Db.

(** A row of [teams]; SQL NULL is [None]. *)
Record TeamRow := {
  team_id : Z;
  team_nick : option string;
  role_id : Z;
  channel_id : Z;
  category_id : Z;
  captain_discord_id : Z;
  year : Z;
  semester : string;
  seniority : Z;
  archived : option bool
}.

Record TeamMemberRow := {
  tm_team_id : Z;
  player_discord_id : Z;
  member_status : string
}.

(** [next_team_id] is the sequence behind [RETURNING team_id]. *)
Record Tables := {
  teams : list TeamRow;
  players : list Z;
  team_members : list TeamMemberRow;
  next_team_id : Z
}.

(** Modelled from the spec: the schema is not part of the sources; the
    committed team record has [archived: bool (default false)], which is
    what an INSERT that does not name the column stores. *)
Definition archived_default : option bool := Some false.

(** [archived IS NOT TRUE] *)
Definition is_not_true (a : option bool) : bool :=
  match a with Some true => false | _ => true end.

(** [archived = FALSE] in a WHERE clause (NULL does not qualify). *)
Definition is_false (a : option bool) : bool :=
  match a with Some false => true | _ => false end.

(** [SELECT team_id FROM teams WHERE role_id = $1 AND category_id = $2
     AND channel_id = $3 AND archived IS NOT TRUE] *)
Definition select_conflict (r cat ch : Z) (db : Tables) : list Z :=
  map team_id
    (filter (fun t => ((role_id t =? r) && (category_id t =? cat)
                       && (channel_id t =? ch) && is_not_true (archived t))%bool)
            (teams db)).

(** [INSERT INTO teams (...) VALUES (...) RETURNING team_id] *)
Definition insert_team (nick : option string) (r ch cat cap y : Z)
    (sem : string) (sen : Z) (db : Tables) : list Z * Tables :=
  let row :=
    {| team_id := next_team_id db; team_nick := nick; role_id := r;
       channel_id := ch; category_id := cat; captain_discord_id := cap;
       year := y; semester := sem; seniority := sen;
       archived := archived_default |} in
  ([next_team_id db],
   {| teams := teams db ++ [row]; players := players db;
      team_members := team_members db;
      next_team_id := next_team_id db + 1 |}).

(** [INSERT INTO players (player_discord_id) VALUES ($1)
     ON CONFLICT (player_discord_id) DO NOTHING] *)
Definition upsert_player (discord_id : Z) (db : Tables) : Tables :=
  if existsb (Z.eqb discord_id) (players db) then db
  else {| teams := teams db; players := players db ++ [discord_id];
          team_members := team_members db; next_team_id := next_team_id db |}.

Definition same_key (team discord_id : Z) (row : TeamMemberRow) : bool :=
  ((tm_team_id row =? team) && (player_discord_id row =? discord_id))%bool.

(** [INSERT INTO team_members (...) VALUES ($1, $2, $3)
     ON CONFLICT (team_id, player_discord_id)
     DO UPDATE SET member_status = EXCLUDED.member_status] on the rows. *)
Definition upsert_row (team discord_id : Z) (status : string)
    (rows : list TeamMemberRow) : list TeamMemberRow :=
  if existsb (same_key team discord_id) rows
  then map (fun row =>
              if same_key team discord_id row
              then {| tm_team_id := team; player_discord_id := discord_id;
                      member_status := status |}
              else row) rows
  else rows ++ [{| tm_team_id := team; player_discord_id := discord_id;
                   member_status := status |}].

(** The columns of the unique index that [ON CONFLICT] names. *)
Definition key (row : TeamMemberRow) : Z * Z :=
  (tm_team_id row, player_discord_id row).

(** The membership upserts of one group, on the rows. *)
Definition upsert_group (team : Z) (status : string) (group : list Member)
    (rows : list TeamMemberRow) : list TeamMemberRow :=
  fold_left (fun rows member => upsert_row team (member_id member) status rows)
            group rows.

Definition the_row (team discord_id : Z) (status : string) : TeamMemberRow :=
  {| tm_team_id := team; player_discord_id := discord_id;
     member_status := status |}.

Definition upsert_member (team discord_id : Z) (status : string) (db : Tables)
  : Tables :=
  {| teams := teams db; players := players db;
     team_members := upsert_row team discord_id status (team_members db);
     next_team_id := next_team_id db |}.

(** Modelled from the spec: [utils.db] is not part of the sources; its
    [run_in_transaction] runs the callback inside one atomic transaction,
    and a callback that raises has the entire transaction rolled back. *)
Definition run_in_transaction {A E}
    (callback : Tables -> (A + E) * Tables) (db : Tables) : (A + E) * Tables :=
  match callback db with
  | (inl a, db') => (inl a, db')
  | (inr e, _) => (inr e, db)
  end.

End Db.

Definition conflict_message : string :=
  "Another active team already uses this role, category, and channel. Archive it before creating a new one.".

Definition NICK_PROMPT : string :=
  "Provide a team nickname (short label players recognize). Type `N/A` to skip.".

(** ** The cog [create_team]: conversation primitives *)
Module create_team.

Section Wizard.

(** [fuel] bounds the iterations of each [while True] loop; every
    iteration first consumes an event, so one more than the number of
    pending events is always enough (what the command [create_team]
    below supplies). *)
Variable fuel : nat.
Variable interaction : Interaction.

Definition _should_exit (content : string) : bool :=
  in_strings (PyStr.lower (PyStr.strip content)) EXIT_KEYWORDS.

Definition reply_check (message : Message) : bool :=
  ((author_id message =? user_id interaction)
   && (message_channel_id message =? interaction_channel_id interaction))%bool.

Definition exit_check (message : Message) : bool :=
  (reply_check message && _should_exit (content message))%bool.

Definition _wait_for_reply : M Message :=
  fun w =>
    match wait_for_message reply_check (events w) with
    | (Some message, rest) =>
        (Ok message, {| events := rest; outbox := outbox w |})
    | (None, rest) =>
        (Raise (ConversationCancelled "Timed out waiting for a response."),
         {| events := rest; outbox := outbox w |})
    end.

Fixpoint confirm_loop (n : nat) : M bool :=
  match n with
  | O => out_of_fuel
  | S n' =>
      message <- _wait_for_reply ;;
      let content := PyStr.lower (PyStr.strip (content message)) in
      if _should_exit content
      then raise (ConversationCancelled "Process cancelled by user.")
      else if in_strings content ["yes"; "y"] then ret true
      else if in_strings content ["no"; "n"] then ret false
      else
        send "Reply with yes or no (or type `(Exit)` to cancel)." ;;;
        confirm_loop n'
  end.

Definition _confirm (prompt : string) : M bool :=
  send prompt ;;; confirm_loop fuel.

Fixpoint ask_loop {A} (n : nat) (allow_na : bool)
    (parser : option (string -> Message -> M A)) : M (Answer A) :=
  match n with
  | O => out_of_fuel
  | S n' =>
      message <- _wait_for_reply ;;
      let content := PyStr.strip (content message) in
      if _should_exit content
      then raise (ConversationCancelled "Process cancelled by user.")
      else if (allow_na && in_strings (PyStr.lower content) ["n/a"; "na"])%bool
      then ret NA
      else
        match parser with
        | None =>
            if PyStr.nonempty content then ret (Text content)
            else
              send "Please provide a response or type N/A." ;;;
              ask_loop n' allow_na parser
        | Some parse =>
            catch_validation
              (a <- parse content message ;; ret (Parsed a))
              (fun exc => send exc ;;; ask_loop n' allow_na parser)
        end
  end.

Definition _ask_question {A} (prompt : string) (allow_na : bool)
    (parser : option (string -> Message -> M A)) : M (Answer A) :=
  send prompt ;;; ask_loop fuel allow_na parser.

(** [assert isinstance(value, T)] after a parsed question. *)
Definition assert_parsed {A} (answer : Answer A) : M A :=
  match answer with
  | Parsed a => ret a
  | _ => raise AssertionError
  end.

(** *** Field resolvers *)

Definition normalize (value : option string) : option string :=
  match value with
  | None => None
  | Some v =>
      let cleaned := PyStr.strip v in
      if PyStr.nonempty cleaned then Some cleaned else None
  end.

(** [normalize(nick)] on what the question returned. *)
Definition nick_of_answer (nick : Answer Empty_set) : M (option string) :=
  match nick with
  | NA => ret (normalize None)
  | Text s => ret (normalize (Some s))
  | Parsed a => match a with end
  end.

Definition _prompt_team_nick : M (option string) :=
  nick <- _ask_question NICK_PROMPT true None ;;
  nick_of_answer nick.

Definition role_parser (content : string) (message : Message) : M Role :=
  match role_mentions message with
  | role :: _ =>
      ok <- _confirm ("Use existing role " ++ role_mention role ++ "? (yes/no)") ;;
      if ok then ret role
      else raise (ValidationError "Role selection cancelled. Provide another role.")
  | [] =>
      let name := PyStr.strip content in
      if negb (PyStr.nonempty name)
      then raise (ValidationError "Please provide a role name or mention.")
      else
        match find (fun r => PyStr.lower (role_name r) =? PyStr.lower name)%string
                   (roles (guild interaction)) with
        | Some existing =>
            ok <- _confirm ("Assign existing role " ++ role_mention existing ++ "? (yes/no)") ;;
            if ok then ret existing
            else raise (ValidationError "Role selection cancelled. Provide another role.")
        | None =>
            ok <- _confirm ("No role named `" ++ name ++ "` exists. Create it now? (yes/no)") ;;
            if negb ok
            then raise (ValidationError "Role creation aborted. Provide another role.")
            else
              match create_role (guild interaction) name with
              | inl created => ret created
              | inr (Forbidden exc) =>
                  raise (ValidationError
                    ("Missing permissions to create the `" ++ name ++ "` role: " ++ exc))
              | inr exc =>
                  raise (ValidationError
                    ("Discord rejected the role creation: " ++ http_text exc))
              end
        end
  end.

Definition _prompt_role : M Role :=
  answer <- _ask_question "Mention the role to use or type a new role name."
              false (Some role_parser) ;;
  assert_parsed answer.

Definition category_parser (content : string) (_ : Message) : M CategoryChannel :=
  let cleaned := PyStr.strip content in
  target <- (if PyStr.isdigit cleaned
             then
               wanted <- py_int cleaned ;;
               ret (find (fun c => category_id c =? wanted)
                         (categories (guild interaction)))
             else ret None) ;;
  let target :=
    match target with
    | Some c => Some c
    | None =>
        find (fun c => PyStr.lower (category_name c) =? PyStr.lower cleaned)%string
             (categories (guild interaction))
    end in
  match target with
  | Some found =>
      ok <- _confirm ("Use existing category `" ++ category_name found ++ "`? (yes/no)") ;;
      if ok then ret found
      else raise (ValidationError "Category selection cancelled. Provide another category.")
  | None =>
      ok <- _confirm ("Create a new category named `" ++ cleaned ++ "`? (yes/no)") ;;
      if negb ok
      then raise (ValidationError "Category creation aborted. Provide another category.")
      else
        match create_category (guild interaction) cleaned with
        | inl created => ret created
        | inr (Forbidden exc) =>
            raise (ValidationError
              ("Missing permissions to create category `" ++ cleaned ++ "`: " ++ exc))
        | inr exc =>
            raise (ValidationError
              ("Discord rejected the category creation: " ++ http_text exc))
        end
  end.

Definition _prompt_category : M CategoryChannel :=
  answer <- _ask_question "Provide the category name or ID to house the team channel."
              false (Some category_parser) ;;
  assert_parsed answer.

Definition channel_parser (category : option CategoryChannel)
    (content : string) (message : Message) : M Channel :=
  match channel_mentions message with
  | channel :: _ =>
      if channel_is_text channel
      then
        ok <- _confirm ("Use existing channel " ++ channel_mention channel ++ "? (yes/no)") ;;
        if ok then ret channel
        else raise (ValidationError "Channel selection cancelled. Provide another channel.")
      else
        raise (ValidationError
          "Only text channels are supported. Mention a text channel or provide a name.")
  | [] =>
      let cleaned := PyStr.strip content in
      target <- (if PyStr.isdigit cleaned
                 then
                   wanted <- py_int cleaned ;;
                   match find (fun ch => channel_id ch =? wanted)
                              (channels (guild interaction)) with
                   | Some maybe_channel =>
                       ret (if channel_is_text maybe_channel
                            then Some maybe_channel else None)
                   | None => ret None
                   end
                 else ret None) ;;
      let target :=
        match target with
        | Some ch => Some ch
        | None =>
            find (fun ch =>
                    (channel_is_text ch
                     && (PyStr.lower (channel_name ch) =? PyStr.lower cleaned)%string)%bool)
                 (filter channel_is_text (channels (guild interaction)))
        end in
      match target with
      | Some found =>
          ok <- _confirm ("Use existing channel " ++ channel_mention found ++ "? (yes/no)") ;;
          if ok then ret found
          else raise (ValidationError "Channel selection cancelled. Provide another channel.")
      | None =>
          ok <- _confirm ("Create a new text channel named `" ++ cleaned ++ "`? (yes/no)") ;;
          if negb ok
          then raise (ValidationError "Channel creation aborted. Provide another channel.")
          else
            match create_text_channel (guild interaction) cleaned category with
            | inl created => ret created
            | inr (Forbidden exc) =>
                raise (ValidationError
                  ("Missing permissions to create channel `" ++ cleaned ++ "`: " ++ exc))
            | inr exc =>
                raise (ValidationError
                  ("Discord rejected the channel creation: " ++ http_text exc))
            end
      end
  end.

Definition _prompt_channel (category : option CategoryChannel) : M Channel :=
  answer <- _ask_question
              "Mention the team channel, supply its ID, or type a new channel name."
              false (Some (channel_parser category)) ;;
  assert_parsed answer.

(** [guild.get_member(id)]: the cache. *)
Definition get_member (discord_id : Z) : option Member :=
  find (fun m => member_id m =? discord_id) (members (guild interaction)).

Definition member_parser (label : string) (content : string) (message : Message)
  : M Member :=
  member <-
    match mentions message with
    | first :: _ => ret (Some first)
    | [] =>
        if PyStr.isdigit (PyStr.strip content)
        then
          wanted <- py_int (PyStr.strip content) ;;
          match get_member wanted with
          | Some cached => ret (Some cached)
          | None =>
              match fetch_member (guild interaction) wanted with
              | inl fetched => ret (Some fetched)
              | inr (NotFound _) => ret None
              | inr exc =>
                  raise (ValidationError ("Could not fetch member: " ++ http_text exc))
              end
          end
        else ret None
    end ;;
  match member with
  | None =>
      raise (ValidationError "Could not resolve that user. Mention them or provide their ID.")
  | Some m =>
      ok <- _confirm ("Use " ++ member_mention m ++ " as the " ++ label ++ "? (yes/no)") ;;
      if ok then ret m
      else raise (ValidationError "Selection cancelled. Provide another user.")
  end.

Definition _prompt_member (label : string) : M Member :=
  answer <- _ask_question ("Mention the " ++ label ++ " or provide their user ID.")
              false (Some (member_parser label)) ;;
  assert_parsed answer.

(** The closure [add_member] of the group parser, on its two captured
    variables [entries] and [seen]. *)
Definition add_member (member : option Member) (acc : list Member * list Z)
  : list Member * list Z :=
  match member with
  | Some m =>
      if existsb (Z.eqb (member_id m)) (snd acc) then acc
      else ((fst acc ++ [m])%list, (snd acc ++ [member_id m])%list)
  | None => acc
  end.

Fixpoint add_tokens (toks : list string) (acc : list Member * list Z)
  : M (list Member * list Z) :=
  match toks with
  | [] => ret acc
  | token :: rest =>
      if PyStr.isdigit token
      then
        discord_id <- py_int token ;;
        member <-
          match get_member discord_id with
          | Some cached => ret (Some cached)
          | None =>
              match fetch_member (guild interaction) discord_id with
              | inl fetched => ret (Some fetched)
              | inr (NotFound _) => ret None
              | inr exc =>
                  raise (ValidationError
                    ("Failed to fetch member " ++ PyStr.of_Z discord_id ++ ": "
                     ++ http_text exc))
              end
          end ;;
        add_tokens rest (add_member member acc)
      else add_tokens rest acc
  end.

Definition group_parser (label : string) (content : string) (message : Message)
  : M (list Member) :=
  let mentioned :=
    fold_left (fun acc m => add_member (Some m) acc) (mentions message) ([], []) in
  acc <- add_tokens (PyStr.tokens (PyStr.strip content)) mentioned ;;
  let entries := fst acc in
  match entries with
  | [] => raise (ValidationError "No valid members were provided.")
  | _ =>
      let names := PyStr.join ", " (map display_name entries) in
      ok <- _confirm ("Use [" ++ names ++ "] as " ++ label ++ "s? (yes/no)") ;;
      if ok then ret entries
      else raise (ValidationError "Selection cancelled. Provide the list again.")
  end.

Definition _prompt_member_group (label : string) (require_entry : bool)
  : M (list Member) :=
  let prompt :=
    "Mention every " ++ label ++ " or provide a list of IDs separated by spaces/commas."
    ++ (if negb require_entry then " Type `N/A` if there are no substitutes." else EmptyString) in
  result <- _ask_question prompt (negb require_entry) (Some (group_parser label)) ;;
  match result with
  | NA => ret []
  | Parsed entries => ret entries
  | Text _ => raise AssertionError
  end.

Definition year_parser (content : string) (_ : Message) : M Z :=
  if negb (PyStr.isdigit content)
  then raise (ValidationError "Please provide a numeric year (e.g., 2025).")
  else
    year <- py_int content ;;
    if ((year <? 2000) || (year >? 2100))%bool
    then raise (ValidationError "Year must be between 2000 and 2100.")
    else ret year.

Definition _prompt_year : M Z :=
  answer <- _ask_question "Enter the competition year (e.g., 2025)."
              false (Some year_parser) ;;
  assert_parsed answer.

Definition seniority_parser (content : string) (_ : Message) : M Z :=
  if negb (PyStr.isdigit content)
  then raise (ValidationError "Please provide a numeric seniority level (e.g., 1).")
  else py_int content.

Definition _prompt_seniority : M Z :=
  answer <- _ask_question
              "Enter the team seniority level (integer). Higher number means higher seniority."
              false (Some seniority_parser) ;;
  assert_parsed answer.

(** *** The semester selector *)

(** [asyncio.wait({exit_task, view_task}, return_when=FIRST_COMPLETED)]
    over the delivered events.  [exit_task] finishes on a cancellation
    message of the operator in the channel; [view_task] finishes when the
    operator picks an option (the callback sets [value] and stops the
    view) or when the view's own, shorter timeout elapses. *)
Fixpoint first_completed (evs : list Event) : Race * list Event :=
  match evs with
  | [] =>
      ({| exit_task := Pending; view_task := Done true; view_value := None |}, [])
  | ETimeout :: rest =>
      ({| exit_task := Pending; view_task := Done true; view_value := None |}, rest)
  | EMessage m :: rest =>
      if exit_check m
      then ({| exit_task := Done true; view_task := Pending; view_value := None |}, rest)
      else first_completed rest
  | ESelect user choice :: rest =>
      if user =? user_id interaction
      then ({| exit_task := Pending; view_task := Done false;
               view_value := Some (option_label choice) |}, rest)
      else first_completed rest
  end.

Definition wait_semester_tasks : M Race :=
  fun w =>
    let (race, rest) := first_completed (events w) in
    (Ok race, {| events := rest; outbox := outbox w |}).

(** [for task in pending: task.cancel()] *)
Definition cancel_pending (race : Race) : Race :=
  {| exit_task := cancel_if_pending (exit_task race);
     view_task := cancel_if_pending (view_task race);
     view_value := view_value race |}.

(** The tail of [_prompt_semester], after the race is settled. *)
Definition semester_result (race : Race) : M string :=
  match exit_task race with
  | Done true => raise (ConversationCancelled "Process cancelled by user.")
  | _ =>
      match view_value race with
      | None => raise (ConversationCancelled "Semester selection timed out.")
      | Some value => ret value
      end
  end.

(** Detaching the view ([message.edit(view=None)], failures ignored)
    leaves nothing the wizard reads. *)
Definition _prompt_semester : M string :=
  send "Select the semester." ;;;
  race <- wait_semester_tasks ;;
  semester_result (cancel_pending race).

(** *** Summary, post-collect fixups and review *)

Definition or_else (s : option string) (default : string) : string :=
  match s with
  | Some v => if PyStr.nonempty v then v else default
  | None => default
  end.

Definition _format_summary (draft : TeamCreationData) : string :=
  let starters_text :=
    or_else (Some (PyStr.join ", " (map display_name (starters draft)))) "None" in
  let substitutes_text :=
    or_else (Some (PyStr.join ", " (map display_name (substitutes draft)))) "None" in
  "**Team Creation Summary**" ++ nl
  ++ "- Team Nick: " ++ or_else (team_nick draft) "N/A" ++ nl
  ++ "- Role: "
  ++ match role draft with Some r => role_mention r | None => "Not set" end ++ nl
  ++ "- Category: "
  ++ match category draft with Some c => category_name c | None => "Not set" end ++ nl
  ++ "- Channel: "
  ++ match channel draft with Some c => channel_mention c | None => "Not set" end ++ nl
  ++ "- Captain: "
  ++ match captain draft with Some c => member_mention c | None => "Not set" end ++ nl
  ++ "- Starters: " ++ starters_text ++ nl
  ++ "- Substitutes: " ++ substitutes_text ++ nl
  ++ "- Year: "
  ++ match year draft with
     | Some y => if y =? 0 then "Not set" else PyStr.of_Z y
     | None => "Not set"
     end ++ nl
  ++ "- Semester: " ++ or_else (semester draft) "Not set" ++ nl
  ++ "- Seniority: "
  ++ match seniority draft with Some n => PyStr.of_Z n | None => "Not set" end.

Fixpoint dedupe_from (seen : list Z) (members : list Member) : list Member :=
  match members with
  | [] => []
  | member :: rest =>
      if existsb (Z.eqb (member_id member)) seen
      then dedupe_from seen rest
      else member :: dedupe_from (member_id member :: seen) rest
  end.

Definition _dedupe_members (members : list Member) : list Member :=
  dedupe_from [] members.

(** [any(member.id == captain_id for member in group)] *)
Definition has_id (captain_id : Z) (group : list Member) : bool :=
  existsb (fun member => member_id member =? captain_id) group.

Definition _ensure_captain_assignment (draft : TeamCreationData)
  : M TeamCreationData :=
  match captain draft with
  | None => ret draft
  | Some cap =>
      let captain_id := member_id cap in
      if has_id captain_id (substitutes draft) then ret draft
      else if has_id captain_id (starters draft) then ret draft
      else
        let draft := set_starters (starters draft ++ [cap])%list draft in
        send (display_name cap
              ++ " is the captain and has been added to starters by default."
              ++ " Use the review step if they should be a substitute instead.") ;;;
        ret draft
  end.

(** [field_map.get(key)], with the handler's result tagged by type. *)
Definition field_map (draft : TeamCreationData) (key : string)
  : option (M FieldValue) :=
  if (key =? "team_nick")%string
  then Some (v <- _prompt_team_nick ;; ret (VNick v))
  else if (key =? "role")%string
  then Some (v <- _prompt_role ;; ret (VRole v))
  else if (key =? "category")%string
  then Some (v <- _prompt_category ;; ret (VCategory v))
  else if (key =? "channel")%string
  then Some (v <- _prompt_channel (category draft) ;; ret (VChannel v))
  else if (key =? "captain")%string
  then Some (v <- _prompt_member "captain" ;; ret (VMember v))
  else if (key =? "starters")%string
  then Some (v <- _prompt_member_group "starter" true ;; ret (VMembers v))
  else if (key =? "substitutes")%string
  then Some (v <- _prompt_member_group "substitute" false ;; ret (VMembers v))
  else if (key =? "year")%string
  then Some (v <- _prompt_year ;; ret (VInt v))
  else if (key =? "semester")%string
  then Some (v <- _prompt_semester ;; ret (VStr v))
  else if (key =? "seniority")%string
  then Some (v <- _prompt_seniority ;; ret (VInt v))
  else None.

(** The [if]/[elif] chain that stores the handler's result. *)
Definition assign (key : string) (result : FieldValue) (draft : TeamCreationData)
  : TeamCreationData :=
  if (key =? "team_nick")%string
  then match result with VNick v => set_team_nick v draft | _ => draft end
  else if (key =? "role")%string
  then match result with VRole v => set_role (Some v) draft | _ => draft end
  else if (key =? "category")%string
  then match result with VCategory v => set_category (Some v) draft | _ => draft end
  else if (key =? "channel")%string
  then match result with VChannel v => set_channel (Some v) draft | _ => draft end
  else if (key =? "captain")%string
  then match result with VMember v => set_captain (Some v) draft | _ => draft end
  else if (key =? "starters")%string
  then match result with VMembers v => set_starters v draft | _ => draft end
  else if (key =? "substitutes")%string
  then match result with VMembers v => set_substitutes v draft | _ => draft end
  else if (key =? "year")%string
  then match result with VInt v => set_year (Some v) draft | _ => draft end
  else if (key =? "semester")%string
  then match result with VStr v => set_semester (Some v) draft | _ => draft end
  else if (key =? "seniority")%string
  then match result with VInt v => set_seniority (Some v) draft | _ => draft end
  else draft.

Definition review_instructions : string :=
  "Type the field name to edit (team_nick, role, category, channel, captain, starters, substitutes, year, semester, seniority)"
  ++ " or `confirm` to continue.".

(** The loop of [_review_answers]; the draft it mutates is returned. *)
Fixpoint review_loop (n : nat) (draft : TeamCreationData) : M TeamCreationData :=
  match n with
  | O => out_of_fuel
  | S n' =>
      send (_format_summary draft ++ nl ++ nl ++ review_instructions) ;;;
      message <- _wait_for_reply ;;
      let content := PyStr.strip (content message) in
      if _should_exit content
      then raise (ConversationCancelled "Process cancelled by user.")
      else if (PyStr.lower content =? "confirm")%string then ret draft
      else
        match field_map draft (PyStr.lower content) with
        | None =>
            send "Unknown field. Please try again." ;;;
            review_loop n' draft
        | Some handler =>
            result <- handler ;;
            review_loop n' (assign (PyStr.lower content) result draft)
        end
  end.

Definition _review_answers (draft : TeamCreationData) : M TeamCreationData :=
  review_loop fuel draft.

Definition _collect_team_data : M TeamCreationData :=
  let draft := empty_draft in
  nick <- _prompt_team_nick ;;
  let draft := set_team_nick nick draft in
  r <- _prompt_role ;;
  let draft := set_role (Some r) draft in
  cat <- _prompt_category ;;
  let draft := set_category (Some cat) draft in
  ch <- _prompt_channel (category draft) ;;
  let draft := set_channel (Some ch) draft in
  cap <- _prompt_member "captain" ;;
  let draft := set_captain (Some cap) draft in
  group <- _prompt_member_group "starter" true ;;
  let draft := set_starters group draft in
  group <- _prompt_member_group "substitute" false ;;
  let draft := set_substitutes group draft in
  let draft := set_starters (_dedupe_members (starters draft)) draft in
  let draft := set_substitutes (_dedupe_members (substitutes draft)) draft in
  draft <- _ensure_captain_assignment draft ;;
  y <- _prompt_year ;;
  let draft := set_year (Some y) draft in
  sem <- _prompt_semester ;;
  let draft := set_semester (Some sem) draft in
  sen <- _prompt_seniority ;;
  let draft := set_seniority (Some sen) draft in
  _review_answers draft.

(** *** The finalizer *)

(** The order in which Python iterates the set of involved members. *)
Variable set_iteration : list Member -> list Member.

(** [{draft.captain, *draft.starters, *draft.substitutes}]: members are
    equal and hash alike when their ids agree, and a set keeps the
    element inserted first. *)
Definition involved_members (cap : Member) (draft : TeamCreationData)
  : list Member :=
  set_iteration (dedupe_from [] (cap :: starters draft ++ substitutes draft)%list).

(** The closure [db_transaction]; [connection] is the table state. *)
Definition db_transaction (draft : TeamCreationData) (r : Role)
    (cat : CategoryChannel) (ch : Channel) (cap : Member)
    (y : Z) (sem : string) (sen : Z) (connection : Db.Tables)
  : (unit + Exn) * Db.Tables :=
  match Db.select_conflict (role_id r) (category_id cat) (channel_id ch) connection with
  | _ :: _ => (inr (TeamCreationError conflict_message), connection)
  | [] =>
      let (team_rows, connection) :=
        Db.insert_team (team_nick draft) (role_id r) (channel_id ch) (category_id cat)
          (member_id cap) y sem sen connection in
      match team_rows with
      | [] => (inr (TeamCreationError "Failed to insert the team record."), connection)
      | team_id :: _ =>
          let connection :=
            fold_left (fun c member => Db.upsert_player (member_id member) c)
                      (starters draft ++ substitutes draft)%list connection in
          let connection := Db.upsert_player (member_id cap) connection in
          let connection :=
            fold_left (fun c member => Db.upsert_member team_id (member_id member) "starter" c)
                      (starters draft) connection in
          let connection :=
            fold_left (fun c member => Db.upsert_member team_id (member_id member) "sub" c)
                      (substitutes draft) connection in
          (inl tt, connection)
      end
  end.

(** One turn of the role-grant loop: the warnings it appends. *)
Definition grant_warning (r : Role) (member : Member) : list string :=
  match add_roles (guild interaction) member r with
  | inl _ => []
  | inr (Forbidden _) =>
      ["Missing permission to assign role to " ++ display_name member ++ "."]
  | inr exc =>
      ["Failed to assign role to " ++ display_name member ++ ": " ++ http_text exc]
  end.

(** [_finalize_team]: the result, the tables afterwards and the members
    on whom [add_roles] was called, in call order.  The leading [assert]
    makes the loop's [if member is None] test always false. *)
Definition _finalize_team (draft : TeamCreationData) (db : Db.Tables)
  : Result (list string) * Db.Tables * list Member :=
  match role draft, channel draft, category draft, captain draft,
        year draft, semester draft, seniority draft with
  | Some r, Some ch, Some cat, Some cap, Some y, Some sem, Some sen =>
      if ((y =? 0) || negb (PyStr.nonempty sem))%bool
      then (Raise AssertionError, db, [])
      else
        match Db.run_in_transaction (db_transaction draft r cat ch cap y sem sen) db with
        | (inr exc, db') => (Raise exc, db', [])
        | (inl _, db') =>
            let involved := involved_members cap draft in
            (Ok (flat_map (grant_warning r) involved), db', involved)
        end
  | _, _, _, _, _, _, _ => (Raise AssertionError, db, [])
  end.

End Wizard.

(** The leading assertion of [_finalize_team], with the values it
    finds: every field but the label is set, and [year] and [semester]
    are truthy. *)
Definition ready (draft : TeamCreationData) (r : Role) (cat : CategoryChannel)
    (ch : Channel) (cap : Member) (y : Z) (sem : string) (sen : Z) : Prop :=
  role draft = Some r /\ category draft = Some cat /\ channel draft = Some ch
  /\ captain draft = Some cap /\ year draft = Some y /\ y <> 0
  /\ semester draft = Some sem /\ sem <> EmptyString /\ seniority draft = Some sen.

(** Every field of [d'] other than the one named [key] is as in [d]. *)
Definition same_except (key : string) (d d' : TeamCreationData) : Prop :=
  (key <> "team_nick" -> team_nick d' = team_nick d)
  /\ (key <> "role" -> role d' = role d)
  /\ (key <> "category" -> category d' = category d)
  /\ (key <> "channel" -> channel d' = channel d)
  /\ (key <> "captain" -> captain d' = captain d)
  /\ (key <> "starters" -> starters d' = starters d)
  /\ (key <> "substitutes" -> substitutes d' = substitutes d)
  /\ (key <> "year" -> year d' = year d)
  /\ (key <> "semester" -> semester d' = semester d)
  /\ (key <> "seniority" -> seniority d' = seniority d).

(** The field named [key] of [d'] holds the handler's value as it was
    returned. *)
Definition stored (key : string) (result : FieldValue) (d' : TeamCreationData)
  : Prop :=
  match result with
  | VNick v => key = "team_nick" /\ team_nick d' = v
  | VRole v => key = "role" /\ role d' = Some v
  | VCategory v => key = "category" /\ category d' = Some v
  | VChannel v => key = "channel" /\ channel d' = Some v
  | VMember v => key = "captain" /\ captain d' = Some v
  | VMembers v =>
      (key = "starters" /\ starters d' = v)
      \/ (key = "substitutes" /\ substitutes d' = v)
  | VInt v =>
      (key = "year" /\ year d' = Some v)
      \/ (key = "seniority" /\ seniority d' = Some v)
  | VStr v => key = "semester" /\ semester d' = Some v
  end.

(** How many members of [group] have the id [discord_id]. *)
Definition count_id (discord_id : Z) (group : list Member) : nat :=
  length (filter (fun member => member_id member =? discord_id) group).

(** An event that stops the run when the wizard takes it: a
    cancellation message of the operator in the channel, or a timeout. *)
Definition ends_run (interaction : Interaction) (e : Event) : bool :=
  match e with
  | EMessage message => exit_check interaction message
  | ESelect _ _ => false
  | ETimeout => true
  end.

(** The two ways a reply prompt cancels the run. *)
Definition timed_out {A} : Result A :=
  Raise (ConversationCancelled "Timed out waiting for a response.").

Definition cancelled_by_user {A} : Result A :=
  Raise (ConversationCancelled "Process cancelled by user.").

Definition is_cancelled {A} (r : Result A) : Prop :=
  exists reason, r = Raise (ConversationCancelled reason).

(** [f] takes its events from the front of the pending ones; it raises
    [ConversationCancelled] whenever one of the events it took stops the
    run; and it does not run out of fuel when fewer than [k] events are
    pending. *)
Definition Cancellable (interaction : Interaction) (k : nat) {A} (f : M A)
  : Prop :=
  forall w,
    exists taken,
      events w = (taken ++ events (snd (f w)))%list
      /\ (existsb (ends_run interaction) taken = false \/ is_cancelled (fst (f w)))
      /\ ((length (events w) < k)%nat -> fst (f w) <> OutOfFuel).

(** *** The slash command *)

Inductive Outcome :=
| NotInServer
| NotPermitted
| CollectCancelled (reason : string)
| CollectFailed (exc : option Exn)
| CreationBlocked (reason : string)
| CreationFailed (exc : Exn)
| Created (draft : TeamCreationData) (warnings : list string).

(** [str(exc)] *)
Definition exn_text (e : Exn) : string :=
  match e with
  | ValidationError m | ConversationCancelled m | TeamCreationError m
  | ValueError m => m
  | AssertionError => EmptyString
  end.

Definition initial_world (script : list Event) : World :=
  {| events := script; outbox := [] |}.

Definition say (text : string) (w : World) : World :=
  {| events := events w; outbox := (outbox w ++ [text])%list |}.

(** The command [create_team] run against the events [script] that
    follow it.  [in_guild] is [interaction.guild is not None] and
    [is_admin] the verdict of the Admin cog, which is not part of the
    sources.  The result carries what was sent, the tables afterwards
    and the members on whom [add_roles] was called. *)
Definition create_team (set_iteration : list Member -> list Member)
    (interaction : Interaction) (in_guild is_admin : bool)
    (script : list Event) (db : Db.Tables)
  : Outcome * World * Db.Tables * list Member :=
  let w := initial_world script in
  if negb in_guild
  then (NotInServer, say "This command can only be used in a server." w, db, [])
  else if negb is_admin
  then (NotPermitted, say "You do not have permission to use this command." w, db, [])
  else
    let w :=
      say "Starting team creation. Reply in this channel. Type `(Exit)` at any time to cancel." w in
    match _collect_team_data (S (length script)) interaction w with
    | (Raise (ConversationCancelled reason), w) =>
        (CollectCancelled reason, say reason w, db, [])
    | (Raise exc, w) =>
        (CollectFailed (Some exc),
         say ("An unexpected error occurred while collecting data: " ++ exn_text exc) w,
         db, [])
    | (OutOfFuel, w) => (CollectFailed None, w, db, [])
    | (Ok draft, w) =>
        match _finalize_team interaction set_iteration draft db with
        | (Raise (TeamCreationError reason), db', granted) =>
            (CreationBlocked reason, say ("Team creation blocked: " ++ reason) w,
             db', granted)
        | (Raise exc, db', granted) =>
            (CreationFailed exc, say ("Team creation failed: " ++ exn_text exc) w,
             db', granted)
        | (OutOfFuel, db', granted) => (CollectFailed None, w, db', granted)
        | (Ok warnings, db', granted) =>
            let summary := _format_summary draft in
            let summary :=
              match warnings with
              | [] => summary
              | _ =>
                  summary ++ nl ++ nl ++ "Warnings:" ++ nl
                  ++ PyStr.join nl (map (fun msg => "- " ++ msg) warnings)
              end in
            (Created draft warnings, say summary w, db', granted)
        end
    end.

End create_team.

(** ** The cog [ArchiveTeam]: label autocomplete *)
Module ArchiveTeam.

(** SQL [LIKE]: [%] matches any run of characters, [_] any one
    character, and a backslash takes the next pattern character
    literally.  A pattern that ends in a lone backslash is an error in
    the store; the patterns built below always end in [%]. *)
Fixpoint like (pattern : string) : string -> bool :=
  match pattern with
  | EmptyString => fun s => negb (PyStr.nonempty s)
  | String c rest =>
      if Ascii.eqb c "%"
      then
        fix star (s : string) : bool :=
          (like rest s
           || match s with
              | EmptyString => false
              | String _ s' => star s'
              end)%bool
      else if Ascii.eqb c "_"
      then fun s =>
             match s with
             | EmptyString => false
             | String _ s' => like rest s'
             end
      else if Ascii.eqb c "\"
      then
        match rest with
        | EmptyString => fun _ => false
        | String literal rest' =>
            fun s =>
              match s with
              | EmptyString => false
              | String x s' => (Ascii.eqb x literal && like rest' s')%bool
              end
        end
      else fun s =>
             match s with
             | EmptyString => false
             | String x s' => (Ascii.eqb x c && like rest s')%bool
             end
  end.

(** [ILIKE]: [LIKE] with both sides case-folded. *)
Definition ilike (pattern s : string) : bool :=
  like (PyStr.lower pattern) (PyStr.lower s).

(** A search text without [LIKE] metacharacters. *)
Definition plain_char (c : ascii) : bool :=
  negb (Ascii.eqb c "%" || Ascii.eqb c "_" || Ascii.eqb c "\")%bool.

Definition plain (s : string) : bool := PyStr.all_chars plain_char s.

(** [needle] occurs in [hay] as a contiguous piece. *)
Definition contains (needle hay : string) : Prop :=
  exists before after, hay = before ++ needle ++ after.

Record Choice := { name : string; value : string }.

(** [SELECT team_nick FROM teams WHERE team_nick ILIKE $1
     AND archived = FALSE LIMIT 25], the rows taken in table order. *)
Definition select_labels (pattern : string) (db : Db.Tables) : list string :=
  firstn 25
    (flat_map
       (fun t =>
          match Db.team_nick t with
          | Some nick =>
              if (ilike pattern nick && Db.is_false (Db.archived t))%bool
              then [nick] else []
          | None => []
          end)
       (Db.teams db)).

Definition archive_team_autocomplete (current : string) (db : Db.Tables)
  : list Choice :=
  let records := select_labels ("%" ++ current ++ "%") db in
  map (fun r => {| name := r; value := r |}) records.

End ArchiveTeam.

(** ** A small guild and store for concrete runs *)
Module Demo.

Definition ann : Member := {| member_id := 11; display_name := "Ann" |}.
Definition bob : Member := {| member_id := 12; display_name := "Bob" |}.
Definition cy : Member := {| member_id := 13; display_name := "Cy" |}.

Definition falcons : Role := {| role_id := 500; role_name := "Falcons" |}.
Definition main_category : CategoryChannel :=
  {| category_id := 901; category_name := "Main" |}.
Definition falcons_chat : Channel :=
  {| channel_id := 902; channel_name := "falcons-chat"; channel_is_text := true |}.

(** Every grant succeeds except the one for [cy]. *)
Definition demo_guild : Guild :=
  {| roles := [falcons]; categories := []; channels := [];
     members := [ann; bob; cy];
     fetch_member := fun _ => inr (NotFound "Unknown Member");
     create_role := fun n => inl {| role_id := 900; role_name := n |};
     create_category := fun n => inl {| category_id := 901; category_name := n |};
     create_text_channel :=
       fun n _ => inl {| channel_id := 902; channel_name := n; channel_is_text := true |};
     add_roles :=
       fun m _ => if member_id m =? 13 then inr (Forbidden "Missing Permissions")
                  else inl tt |}.

Definition operator : Interaction :=
  {| user_id := 1; interaction_channel_id := 2; guild := demo_guild |}.

Definition reply_with (text : string) (ms : list Member) (rs : list Role) : Event :=
  EMessage {| author_id := 1; message_channel_id := 2; content := text;
              mentions := ms; role_mentions := rs; channel_mentions := [] |}.

Definition reply (text : string) : Event := reply_with text [] [].

Definition world_of (evs : list Event) : World := {| events := evs; outbox := [] |}.

Definition empty_db : Db.Tables :=
  {| Db.teams := []; Db.players := []; Db.team_members := []; Db.next_team_id := 1 |}.

Definition in_order (l : list Member) : list Member := l.

Definition complete_draft : TeamCreationData :=
  {| team_nick := Some "Falcons"; role := Some falcons;
     category := Some main_category; channel := Some falcons_chat;
     captain := Some ann; starters := [ann; bob; cy]; substitutes := [];
     year := Some 2025; semester := Some "Fall"; seniority := Some 3 |}.

Definition falcons_row : Db.TeamRow :=
  {| Db.team_id := 1; Db.team_nick := Some "Falcons"; Db.role_id := 500;
     Db.channel_id := 902; Db.category_id := 901; Db.captain_discord_id := 11;
     Db.year := 2025; Db.semester := "Fall"; Db.seniority := 3;
     Db.archived := Some false |}.

Definition db_with_falcons : Db.Tables :=
  {| Db.teams := [falcons_row]; Db.players := [11; 12; 13];
     Db.team_members :=
       [{| Db.tm_team_id := 1; Db.player_discord_id := 11; Db.member_status := "starter" |}];
     Db.next_team_id := 2 |}.

(** Bob is listed as a starter and as a substitute. *)
Definition overlap_draft : TeamCreationData :=
  {| team_nick := None; role := Some falcons;
     category := Some main_category; channel := Some falcons_chat;
     captain := Some ann; starters := [ann; bob]; substitutes := [bob];
     year := Some 2025; semester := Some "Fall"; seniority := Some 3 |}.

(** The one-character text U+00B2, superscript two. *)
Definition superscript_two : string := String "178"%char EmptyString.

(** The scenario of the specification: label, role by mention, new
    category and channel, captain, three starters, no substitutes. *)
Definition scenario : list Event :=
  [reply "Falcons"; reply_with "<@&500>" [] [falcons]; reply "yes";
   reply "Main"; reply "yes"; reply "falcons-chat"; reply "yes";
   reply_with "<@11>" [ann] []; reply "yes";
   reply "11 12 13"; reply "yes"; reply "N/A";
   reply "2025"; ESelect 1 Fall; reply "3"; reply "confirm"].

(** Ann is the captain and is listed under the starters and under the
    substitutes. *)
Definition scenario_captain_twice : list Event :=
  [reply "Falcons"; reply_with "<@&500>" [] [falcons]; reply "yes";
   reply "Main"; reply "yes"; reply "falcons-chat"; reply "yes";
   reply_with "<@11>" [ann] []; reply "yes";
   reply "11 12"; reply "yes"; reply "11"; reply "yes";
   reply "2025"; ESelect 1 Fall; reply "3"; reply "confirm"].

(** The captain is changed to Cy during review; the groups are not. *)
Definition scenario_captain_edited : list Event :=
  [reply "Falcons"; reply_with "<@&500>" [] [falcons]; reply "yes";
   reply "Main"; reply "yes"; reply "falcons-chat"; reply "yes";
   reply_with "<@11>" [ann] []; reply "yes";
   reply "11 12"; reply "yes"; reply "N/A";
   reply "2025"; ESelect 1 Fall; reply "3";
   reply "Captain"; reply_with "<@13>" [cy] []; reply "y"; reply "confirm"].

(** The same conversation up to the year question, where the operator
    first sends a superscript two and then the year. *)
Definition scenario_superscript_year : list Event :=
  [reply "Falcons"; reply_with "<@&500>" [] [falcons]; reply "yes";
   reply "Main"; reply "yes"; reply "falcons-chat"; reply "yes";
   reply_with "<@11>" [ann] []; reply "yes";
   reply "11 12 13"; reply "yes"; reply "N/A";
   reply superscript_two; reply "2025"; ESelect 1 Fall; reply "3"; reply "confirm"].

End Demo.

(** ** Vocabulary for the further properties *)
Module Contracts.

(** Whatever world [f] starts from, what it returns satisfies [Q] and
    what it raises satisfies [E]. *)
Definition Post {A} (Q : A -> Prop) (E : Exn -> Prop) (f : M A) : Prop :=
  forall w,
    match fst (f w) with
    | Ok a => Q a
    | Raise e => E e
    | OutOfFuel => True
    end.

(** The exceptions a parser may raise, and the ones that may leave a
    question. *)
Definition parser_exception (e : Exn) : Prop :=
  match e with
  | ValidationError _ | ConversationCancelled _ | ValueError _ => True
  | _ => False
  end.

Definition question_exception (e : Exn) : Prop :=
  match e with
  | ConversationCancelled _ | ValueError _ => True
  | _ => False
  end.

Definition ids (group : list Member) : list Z := map member_id group.

(** [sub] is [l] with some elements left out, the rest in order. *)
Inductive subsequence {A} : list A -> list A -> Prop :=
| subsequence_nil : subsequence [] []
| subsequence_keep x sub l : subsequence sub l -> subsequence (x :: sub) (x :: l)
| subsequence_skip x sub l : subsequence sub l -> subsequence sub (x :: l).

(** The members one token of a group reply stands for: the member the
    cache, or else the directory, has under a numeric token; nothing for
    any other token or an unknown id. *)
Definition resolve (interaction : Interaction) (token : string) : list Member :=
  if PyStr.isdigit token
  then
    match PyStr.int token with
    | Some discord_id =>
        match create_team.get_member interaction discord_id with
        | Some cached => [cached]
        | None =>
            match fetch_member (guild interaction) discord_id with
            | inl fetched => [fetched]
            | inr _ => []
            end
        end
    | None => []
    end
  else [].

End Contracts.

(** ** What the questions hand back *)
Module Answers.

(** What [_ask_question] may hand back: the skip value only when skips
    are allowed, the reply text only without a parser (and then
    non-empty and trimmed), a parsed value only with a parser. *)
Definition answer_ok {A} (allow_na has_parser : bool) (Qp : A -> Prop)
    (answer : Answer A) : Prop :=
  match answer with
  | NA => allow_na = true
  | Text s => has_parser = false /\ s <> EmptyString /\ PyStr.strip s = s
  | Parsed a => has_parser = true /\ Qp a
  end.

Definition has_parser {A} (parser : option (string -> Message -> M A)) : bool :=
  match parser with Some _ => true | None => false end.

(** A label is absent or a non-empty, trimmed text. *)
Definition label_ok (nick : option string) : Prop :=
  match nick with
  | Some s => s <> EmptyString /\ PyStr.strip s = s
  | None => True
  end.

Definition group_ok (require_entry : bool) (group : list Member) : Prop :=
  NoDup (Contracts.ids group)
  /\ create_team._dedupe_members group = group
  /\ (require_entry = true -> group <> []).

(** What [_collect_team_data] hands to the finalizer: every field the
    finalizer asserts is set, the year lies in 2000..2100, the semester
    is one of the three options, the seniority is not negative, the
    label if any is a non-empty trimmed text, there is a starter, and
    neither group has a repeated id. *)
Definition collected (d : TeamCreationData) : Prop :=
  (exists r cat ch cap y sem sen,
     create_team.ready d r cat ch cap y sem sen
     /\ 2000 <= y <= 2100
     /\ (exists choice, sem = option_label choice)
     /\ 0 <= sen)
  /\ label_ok (team_nick d)
  /\ starters d <> []
  /\ NoDup (Contracts.ids (starters d))
  /\ NoDup (Contracts.ids (substitutes d)).

End Answers.

(** ** Invariants of the store *)
Module Invariants.

Definition triple (t : Db.TeamRow) : Z * Z * Z :=
  (Db.role_id t, Db.category_id t, Db.channel_id t).

(** A team that is not archived ([archived IS NOT TRUE]). *)
Definition active (t : Db.TeamRow) : bool := Db.is_not_true (Db.archived t).

(** No two active teams share role, category and channel. *)
Definition active_triples_unique (db : Db.Tables) : Prop :=
  NoDup (map triple (filter active (Db.teams db))).

(** Team ids are unique and below the next value of the sequence. *)
Definition team_ids_fresh (db : Db.Tables) : Prop :=
  NoDup (map Db.team_id (Db.teams db))
  /\ forall t, In t (Db.teams db) -> Db.team_id t < Db.next_team_id db.

(** The row [_finalize_team] inserts for a draft. *)
Definition new_team_row (db : Db.Tables) (draft : TeamCreationData) (r : Role)
    (cat : CategoryChannel) (ch : Channel) (cap : Member) (y : Z) (sem : string)
    (sen : Z) : Db.TeamRow :=
  {| Db.team_id := Db.next_team_id db; Db.team_nick := team_nick draft;
     Db.role_id := role_id r; Db.channel_id := channel_id ch;
     Db.category_id := category_id cat; Db.captain_discord_id := member_id cap;
     Db.year := y; Db.semester := sem; Db.seniority := sen;
     Db.archived := Db.archived_default |}.

End Invariants.

(** ** The cog [ArchiveTeam]: the command *)
Module ArchiveCommand.

(** What the command uses of discord.py beyond the directory of
    [Guild].  A call that raises yields [str(e)]. *)
Record Platform := {
  role_members : Role -> list Member;
  set_permissions : Channel -> Member -> unit + string;
  remove_roles : Member -> Role -> unit + string;
  delete_role : Role -> unit + string;
  edit_category : Channel -> CategoryChannel -> unit + string
}.

(** The calls the command makes, in order, each with its success. *)
Inductive Call :=
| GrantView (ch : Channel) (m : Member)
| RemoveRole (m : Member) (r : Role)
| DeleteRole (r : Role)
| CreateArchives
| MoveChannel (ch : Channel) (cat : CategoryChannel).

Definition Attempt : Type := Call * bool.

(** [SELECT * FROM teams WHERE team_nick = $1 AND archived = FALSE] *)
Definition select_active (nick : string) (db : Db.Tables) : list Db.TeamRow :=
  filter (fun t =>
            (match Db.team_nick t with
             | Some n => (n =? nick)%string
             | None => false
             end && Db.is_false (Db.archived t))%bool)
         (Db.teams db).

Definition set_archived (t : Db.TeamRow) : Db.TeamRow :=
  {| Db.team_id := Db.team_id t; Db.team_nick := Db.team_nick t;
     Db.role_id := Db.role_id t; Db.channel_id := Db.channel_id t;
     Db.category_id := Db.category_id t;
     Db.captain_discord_id := Db.captain_discord_id t; Db.year := Db.year t;
     Db.semester := Db.semester t; Db.seniority := Db.seniority t;
     Db.archived := Some true |}.

(** [UPDATE teams SET archived = TRUE WHERE team_id = $1] *)
Definition update_archived (team : Z) (db : Db.Tables) : Db.Tables :=
  {| Db.teams :=
       map (fun t => if Db.team_id t =? team then set_archived t else t)
           (Db.teams db);
     Db.players := Db.players db;
     Db.team_members := Db.team_members db;
     Db.next_team_id := Db.next_team_id db |}.

(** The loop over [role.members]: the count of members processed and
    the calls made.  [remove_roles] is only reached when
    [set_permissions] did not raise, and the counter only when neither
    did. *)
Fixpoint process_members (p : Platform) (ch : Channel) (r : Role)
    (members : list Member) : nat * list Attempt :=
  match members with
  | [] => (0%nat, [])
  | m :: rest =>
      let (processed, calls) := process_members p ch r rest in
      match set_permissions p ch m with
      | inr _ => (processed, (GrantView ch m, false) :: calls)
      | inl _ =>
          match remove_roles p m r with
          | inr _ =>
              (processed, (GrantView ch m, true) :: (RemoveRole m r, false) :: calls)
          | inl _ =>
              (S processed,
               (GrantView ch m, true) :: (RemoveRole m r, true) :: calls)
          end
      end
  end.

Definition category_mention (c : CategoryChannel) : string :=
  "<#" ++ PyStr.of_Z (category_id c) ++ ">".

(** The part of the command after the row is archived: the text added
    to the message and the calls made. *)
Definition release_role (p : Platform) (channel : option Channel)
    (r : option Role) : string * list Attempt :=
  match channel, r with
  | Some ch, Some rl =>
      let (processed, calls) := process_members p ch rl (role_members p rl) in
      let text :=
        " Updated permissions and removed role for "
        ++ PyStr.of_Z (Z.of_nat processed) ++ " members." in
      match delete_role p rl with
      | inl _ => (text ++ " Role deleted.", (calls ++ [(DeleteRole rl, true)])%list)
      | inr e =>
          (text ++ " Failed to delete role: " ++ e,
           (calls ++ [(DeleteRole rl, false)])%list)
      end
  | _, _ => (EmptyString, [])
  end.

Definition move_channel (g : Guild) (p : Platform) (channel : option Channel)
  : string * list Attempt :=
  match channel with
  | Some ch =>
      let found :=
        find (fun c => (PyStr.lower (category_name c) =? "archives")%string)
             (categories g) in
      let created :=
        match found with
        | Some c => (inl c, [])
        | None =>
            match create_category g "Archives" with
            | inl c => (inl c, [(CreateArchives, true)])
            | inr e => (inr (http_text e), [(CreateArchives, false)])
            end
        end in
      match created with
      | (inr e, calls) => (" Failed to move channel to Archives: " ++ e, calls)
      | (inl archives_cat, calls) =>
          match edit_category p ch archives_cat with
          | inl _ =>
              (" Channel " ++ channel_mention ch ++ " moved to "
               ++ category_mention archives_cat ++ ".",
               (calls ++ [(MoveChannel ch archives_cat, true)])%list)
          | inr e =>
              (" Failed to move channel to Archives: " ++ e,
               (calls ++ [(MoveChannel ch archives_cat, false)])%list)
          end
      end
  | None => (" Channel not found, could not move.", [])
  end.

(** The command [archive_team]: the tables afterwards, the message sent
    and the calls made.  [g] is [interaction.guild] and [is_admin] the
    verdict of the Admin cog, which is not part of the sources. *)
Definition archive_team (g : option Guild) (is_admin : bool) (p : Platform)
    (team_nick : string) (move_to_archives : bool) (db : Db.Tables)
  : Db.Tables * string * list Attempt :=
  match g with
  | None => (db, "This command can only be used in a server.", [])
  | Some g =>
      if negb is_admin
      then (db, "You do not have permission to use this command.", [])
      else
        match select_active team_nick db with
        | [] =>
            (db, "Active team with nickname `" ++ team_nick ++ "` not found.", [])
        | _ :: _ :: _ =>
            (db,
             "Multiple active teams found with nickname `" ++ team_nick
             ++ "`. Please fix database manually.", [])
        | [team] =>
            let db := update_archived (Db.team_id team) db in
            let msg := "Team `" ++ team_nick ++ "` has been archived." in
            let channel :=
              find (fun ch => channel_id ch =? Db.channel_id team) (channels g) in
            let r := find (fun rl => role_id rl =? Db.role_id team) (roles g) in
            let (text1, calls1) := release_role p channel r in
            let (text2, calls2) :=
              if move_to_archives then move_channel g p channel
              else (EmptyString, []) in
            (db, msg ++ text1 ++ text2, (calls1 ++ calls2)%list)
        end
  end.

End ArchiveCommand.

(** ** Reading the calls of the archive command *)
Module ArchiveLog.
Import ArchiveCommand.




End ArchiveLog.

(** ** More concrete values for the runs *)
Module DemoMore.

(** A reply that mentions Ann and gives two ids, one of them hers. *)
Definition ann_and_ids : Message :=
  {| author_id := 1; message_channel_id := 2; content := "<@11> 11, 12";
     mentions := [Demo.ann]; role_mentions := []; channel_mentions := [] |}.

(** Every call of the archive command succeeds; the role has two
    members. *)
Definition platform : ArchiveCommand.Platform :=
  {| ArchiveCommand.role_members := fun _ => [Demo.ann; Demo.bob];
     ArchiveCommand.set_permissions := fun _ _ => inl tt;
     ArchiveCommand.remove_roles := fun _ _ => inl tt;
     ArchiveCommand.delete_role := fun _ => inl tt;
     ArchiveCommand.edit_category := fun _ _ => inl tt |}.

(** A reply of the operator that reads U+00B2. *)
Definition superscript_reply : Message :=
  {| author_id := 1; message_channel_id := 2; content := Demo.superscript_two;
     mentions := []; role_mentions := []; channel_mentions := [] |}.

(** The tables after the team of [Demo.complete_draft] was created in
    the empty store. *)
Definition db_after_create : Db.Tables :=
  snd (fst (create_team._finalize_team Demo.operator Demo.in_order
              Demo.complete_draft Demo.empty_db)).

End DemoMore.

(** ** Events of bystanders *)
Module Bystanders.

(** An event the wizard of [interaction] does not react to: a message of
    another author or in another channel, or a menu pick of another
    user. *)
Definition foreign (interaction : Interaction) (e : Event) : bool :=
  match e with
  | EMessage message => negb (create_team.reply_check interaction message)
  | ESelect user _ => negb (user =? user_id interaction)
  | ETimeout => false
  end.

Definition without_foreign (interaction : Interaction) (evs : list Event)
  : list Event :=
  filter (fun e => negb (foreign interaction e)) evs.

Definition clean (interaction : Interaction) (w : World) : World :=
  {| events := without_foreign interaction (events w); outbox := outbox w |}.

(** [f] on the events without the foreign ones ends as [g] does on all
    of them, unless [f] runs out of fuel. *)
Definition Unaffected (interaction : Interaction) {A} (f g : M A) : Prop :=
  forall w,
    fst (f (clean interaction w)) <> OutOfFuel ->
    f (clean interaction w) = (fst (g w), clean interaction (snd (g w))).

(** Two parsers of a question that agree in this sense. *)
Definition Unaffected_parsers (interaction : Interaction) {A}
    (parser parser' : option (string -> Message -> M A)) : Prop :=
  match parser, parser' with
  | None, None => True
  | Some parse, Some parse' =>
      forall content message,
        Unaffected interaction (parse content message) (parse' content message)
  | _, _ => False
  end.

End Bystanders.

(** ** Confirmations *)
Module Confirmation.

(** A message of the operator in the channel that reads, trimmed and in
    lower case, "yes" or "y". *)
Definition says_yes (interaction : Interaction) (e : Event) : bool :=
  match e with
  | EMessage message =>
      (create_team.reply_check interaction message
       && in_strings (PyStr.lower (PyStr.strip (content message))) ["yes"; "y"])%bool
  | _ => false
  end.

(** [f] takes its events from the front of the pending ones, and
    whenever it returns a value that [counts], the last event it took is
    a yes of the operator. *)
Definition Confirmed (interaction : Interaction) {A} (counts : A -> Prop)
    (f : M A) : Prop :=
  forall w,
    exists taken,
      events w = (taken ++ events (snd (f w)))%list
      /\ forall a, fst (f w) = Ok a -> counts a ->
           exists before e,
             taken = (before ++ [e])%list /\ says_yes interaction e = true.

(** [f] takes no event. *)
Definition Quiet {A} (f : M A) : Prop :=
  forall w, events (snd (f w)) = events w.

(** The answers of a question that come from its parser. *)
Definition parsed {A} (counts : A -> Prop) (answer : Answer A) : Prop :=
  match answer with
  | Parsed a => counts a
  | _ => False
  end.

End Confirmation.

(** ** What a call of the archive command is about *)
Module ArchiveScope.
Import ArchiveCommand.

(** The call is about the channel and the role of [team], and about the
    Archives category only when the move was asked for: an existing
    category named "archives" in any letter case, or the one created
    because there is none. *)
Definition concerns (g : Guild) (team : Db.TeamRow) (move_to_archives : bool)
    (call : Call) : Prop :=
  match call with
  | GrantView ch _ => channel_id ch = Db.channel_id team
  | RemoveRole _ r => role_id r = Db.role_id team
  | DeleteRole r => role_id r = Db.role_id team
  | CreateArchives =>
      move_to_archives = true
      /\ forall c, In c (categories g) ->
           PyStr.lower (category_name c) <> "archives"
  | MoveChannel ch cat =>
      move_to_archives = true
      /\ channel_id ch = Db.channel_id team
      /\ ((In cat (categories g) /\ PyStr.lower (category_name cat) = "archives")
          \/ create_category g "Archives" = inl cat)
  end.

End ArchiveScope.

(** ** A store with a team whose flag is NULL *)
Module DemoLegacy.

Definition legacy_row : Db.TeamRow :=
  {| Db.team_id := 1; Db.team_nick := Some "Falcons"; Db.role_id := 500;
     Db.channel_id := 902; Db.category_id := 901; Db.captain_discord_id := 11;
     Db.year := 2024; Db.semester := "Fall"; Db.seniority := 3;
     Db.archived := None |}.

Definition db_with_legacy : Db.Tables :=
  {| Db.teams := [legacy_row]; Db.players := [11]; Db.team_members := [];
     Db.next_team_id := 2 |}.

End DemoLegacy.

(** ** The kind of the team channel *)
Module ChannelKind.

(** A text channel, or whatever Discord handed back when the wizard
    asked it to create a text channel. *)
Definition text_or_created (interaction : Interaction) (ch : Channel) : Prop :=
  channel_is_text ch = true
  \/ exists name category,
       create_text_channel (guild interaction) name category = inl ch.

Definition channel_ok (interaction : Interaction) (d : TeamCreationData) : Prop :=
  forall ch, channel d = Some ch -> text_or_created interaction ch.

End ChannelKind.

(** ** What a review may change *)
Module ReviewScope.

(** Among [evs] there is a message of the operator in the channel that
    reads [key], trimmed and in lower case. *)
Definition named (interaction : Interaction) (evs : list Event) (key : string)
  : Prop :=
  exists message,
    In (EMessage message) evs
    /\ create_team.reply_check interaction message = true
    /\ PyStr.lower (PyStr.strip (content message)) = key.

(** The field named [key] holds in [d'] what it holds in [d]. *)
Definition unchanged (key : string) (d d' : TeamCreationData) : Prop :=
  (key = "team_nick" -> team_nick d' = team_nick d)
  /\ (key = "role" -> role d' = role d)
  /\ (key = "category" -> category d' = category d)
  /\ (key = "channel" -> channel d' = channel d)
  /\ (key = "captain" -> captain d' = captain d)
  /\ (key = "starters" -> starters d' = starters d)
  /\ (key = "substitutes" -> substitutes d' = substitutes d)
  /\ (key = "year" -> year d' = year d)
  /\ (key = "semester" -> semester d' = semester d)
  /\ (key = "seniority" -> seniority d' = seniority d).

(** The operator edits the year during the review. *)
Definition year_edit : list Event :=
  [Demo.reply "Year"; Demo.reply "2026"; Demo.reply "confirm"].

End ReviewScope.

(** ** The events that settle the semester prompt *)
Module SemesterRace.



(** What the prompt ends with when [e] is the event that settles. *)
Definition answer (e : Event) : Result string :=
  match e with
  | EMessage _ => Raise (ConversationCancelled "Process cancelled by user.")
  | ESelect _ choice => Ok (option_label choice)
  | ETimeout => Raise (ConversationCancelled "Semester selection timed out.")
  end.


End SemesterRace.

(** * Properties *)

(** ** Facts about the string operations *)
Module PyStrFacts.
Import PyStr.

Lemma isspace_lower_char c : isspace (lower_char c) = isspace c.
Proof. destruct c as [[] [] [] [] [] [] [] []]; reflexivity. Qed.

Lemma lower_char_idem c : lower_char (lower_char c) = lower_char c.
Proof. destruct c as [[] [] [] [] [] [] [] []]; reflexivity. Qed.

Lemma lower_idem s : lower (lower s) = lower s.
Proof.
  induction s as [|c s IH]; simpl; [reflexivity|].
  now rewrite lower_char_idem, IH.
Qed.

Lemma lstrip_lower s : lstrip (lower s) = lower (lstrip s).
Proof.
  induction s as [|c s IH]; simpl; [reflexivity|].
  rewrite isspace_lower_char. destruct (isspace c); [exact IH|reflexivity].
Qed.

Lemma rstrip_lower s : rstrip (lower s) = lower (rstrip s).
Proof.
  induction s as [|c s IH]; simpl; [reflexivity|].
  rewrite IH, isspace_lower_char.
  destruct (rstrip s); simpl; [destruct (isspace c)|]; reflexivity.
Qed.

Lemma strip_lower s : strip (lower s) = lower (strip s).
Proof. unfold strip. now rewrite rstrip_lower, lstrip_lower. Qed.

Lemma lstrip_idem s : lstrip (lstrip s) = lstrip s.
Proof.
  induction s as [|c s IH]; simpl; [reflexivity|].
  destruct (isspace c) eqn:E; [exact IH|]. simpl. now rewrite E.
Qed.

Lemma rstrip_idem s : rstrip (rstrip s) = rstrip s.
Proof.
  induction s as [|c s IH]; simpl; [reflexivity|].
  destruct (rstrip s) as [|d r] eqn:E.
  - destruct (isspace c) eqn:Ec; simpl; [reflexivity|]. now rewrite Ec.
  - simpl in *. now rewrite IH.
Qed.

Lemma rstrip_lstrip s : rstrip (lstrip s) = lstrip (rstrip s).
Proof.
  induction s as [|c s IH]; simpl; [reflexivity|].
  destruct (isspace c) eqn:Ec.
  - rewrite IH. destruct (rstrip s) as [|d r] eqn:E; simpl;
      rewrite ?Ec; reflexivity.
  - simpl. destruct (rstrip s) as [|d r] eqn:E; simpl; rewrite ?Ec; reflexivity.
Qed.

Lemma strip_idem s : strip (strip s) = strip s.
Proof.
  unfold strip. now rewrite rstrip_lstrip, rstrip_idem, lstrip_idem.
Qed.

Lemma nonempty_false s : nonempty s = false -> s = EmptyString.
Proof. destruct s; [reflexivity|discriminate]. Qed.

Lemma nonempty_true s : s <> EmptyString -> nonempty s = true.
Proof. destruct s; [congruence|reflexivity]. Qed.

End PyStrFacts.

(** ** The scenarios of the specification, run *)

(** Label "Falcons", role by mention, new category and channel, captain
    Ann, starters Ann, Bob and Cy, no substitutes, 2025, Fall, seniority
    3, then "confirm": the team is created with those values and three
    starter rows; the grant for Cy is refused, which gives one warning. *)
Example scenario_creates_the_team :
  let '(outcome, w, db, granted) :=
    create_team.create_team Demo.in_order Demo.operator true true
      Demo.scenario Demo.empty_db in
  outcome
  = create_team.Created Demo.complete_draft
      ["Missing permission to assign role to Cy."]
  /\ events w = []
  /\ Db.teams db = [Demo.falcons_row]
  /\ Db.players db = [11; 12; 13]
  /\ Db.team_members db
     = [Db.the_row 1 11 "starter"; Db.the_row 1 12 "starter";
        Db.the_row 1 13 "starter"]
  /\ granted = [Demo.ann; Demo.bob; Demo.cy].
Proof. vm_compute. repeat split. Qed.

(** The same conversation cut short by "(Exit)" at the year question:
    nothing is written. *)
Example scenario_cancelled_at_year :
  let '(outcome, w, db, granted) :=
    create_team.create_team Demo.in_order Demo.operator true true
      (firstn 12 Demo.scenario ++ [Demo.reply " (Exit) "; Demo.reply "2025"])
      Demo.empty_db in
  outcome = create_team.CollectCancelled "Process cancelled by user."
  /\ events w = [Demo.reply "2025"]
  /\ db = Demo.empty_db
  /\ granted = [].
Proof. vm_compute. repeat split. Qed.

(** ** Facts about the store *)
Module DbFacts.
Import Db.

Lemma same_key_spec team discord_id row :
  same_key team discord_id row = true <-> key row = (team, discord_id).
Proof.
  unfold same_key, key. rewrite andb_true_iff, !Z.eqb_eq.
  split; [intros [-> ->]; reflexivity | intros H; inversion H; auto].
Qed.

Lemma same_key_false team discord_id row :
  same_key team discord_id row = false <-> key row <> (team, discord_id).
Proof.
  rewrite <- same_key_spec. destruct (same_key team discord_id row); split;
    congruence.
Qed.

Lemma existsb_same_key team discord_id rows :
  existsb (same_key team discord_id) rows = true
  <-> In (team, discord_id) (map key rows).
Proof.
  rewrite existsb_exists, in_map_iff. split.
  - intros [row [Hin Hk]]. exists row. split; [now apply same_key_spec|exact Hin].
  - intros [row [Hk Hin]]. exists row. split; [exact Hin|now apply same_key_spec].
Qed.

(** An upsert leaves the key column as it was, or adds the new key. *)
Lemma upsert_row_keys team discord_id status rows :
  map key (upsert_row team discord_id status rows)
  = if existsb (same_key team discord_id) rows
    then map key rows else (map key rows ++ [(team, discord_id)])%list.
Proof.
  unfold upsert_row. destruct (existsb (same_key team discord_id) rows).
  - rewrite map_map. apply map_ext. intros row.
    destruct (same_key team discord_id row) eqn:E; [|reflexivity].
    apply same_key_spec in E. now rewrite E.
  - now rewrite map_app.
Qed.

Lemma upsert_row_NoDup team discord_id status rows :
  NoDup (map key rows) ->
  NoDup (map key (upsert_row team discord_id status rows)).
Proof.
  intros H. rewrite upsert_row_keys.
  destruct (existsb (same_key team discord_id) rows) eqn:E; [exact H|].
  apply NoDup_app; [exact H | repeat constructor; intros [] | ].
  intros k Hk [<-|[]].
  apply existsb_same_key in Hk. congruence.
Qed.

(** After an upsert the key has exactly one row, with the new status. *)
Lemma upsert_row_same team discord_id status rows :
  NoDup (map key rows) ->
  filter (same_key team discord_id) (upsert_row team discord_id status rows)
  = [{| tm_team_id := team; player_discord_id := discord_id;
        member_status := status |}].
Proof.
  unfold upsert_row. intros Hnd.
  destruct (existsb (same_key team discord_id) rows) eqn:E.
  - induction rows as [|row rows IH]; [discriminate|].
    simpl in *. inversion Hnd as [|? ? Hnot Hnd']; subst.
    destruct (same_key team discord_id row) eqn:Er.
    + simpl. unfold same_key at 1. simpl. rewrite !Z.eqb_refl. simpl. f_equal.
      apply same_key_spec in Er. rewrite Er in Hnot.
      clear -Hnot. induction rows as [|x rows IH]; [reflexivity|].
      simpl in *. destruct (same_key team discord_id x) eqn:Ex.
      * apply same_key_spec in Ex. tauto.
      * simpl. rewrite Ex. apply IH. tauto.
    + simpl. rewrite Er. simpl in E. apply IH; assumption.
  - rewrite filter_app. simpl. unfold same_key at 2. simpl.
    rewrite !Z.eqb_refl. simpl.
    replace (filter (same_key team discord_id) rows) with (@nil TeamMemberRow);
      [reflexivity|].
    clear Hnd. induction rows as [|x rows IH]; [reflexivity|].
    simpl in *. apply orb_false_iff in E as [Ex E]. rewrite Ex. now apply IH.
Qed.

(** An upsert under another key leaves the rows of this key alone. *)
Lemma upsert_row_other team discord_id other status rows :
  other <> discord_id ->
  filter (same_key team other) (upsert_row team discord_id status rows)
  = filter (same_key team other) rows.
Proof.
  intros Hne. unfold upsert_row.
  assert (Hnew : same_key team other
            {| tm_team_id := team; player_discord_id := discord_id;
               member_status := status |} = false).
  { apply same_key_false. unfold key. simpl. congruence. }
  destruct (existsb (same_key team discord_id) rows).
  - induction rows as [|x rows IH]; [reflexivity|]. simpl.
    destruct (same_key team discord_id x) eqn:Ex.
    + rewrite Hnew. apply same_key_spec in Ex.
      assert (same_key team other x = false) as ->.
      { apply same_key_false. rewrite Ex. congruence. }
      exact IH.
    + destruct (same_key team other x); [f_equal|]; exact IH.
  - rewrite filter_app. simpl. rewrite Hnew. apply app_nil_r.
Qed.

End DbFacts.

(** ** Deduplication by id *)
Module DedupeFacts.
Import create_team.

Lemma seen_spec discord_id seen :
  existsb (Z.eqb discord_id) seen = true <-> In discord_id seen.
Proof.
  rewrite existsb_exists. split.
  - intros [x [Hin Hx]]. apply Z.eqb_eq in Hx. now subst.
  - intros H. exists discord_id. split; [exact H|apply Z.eqb_refl].
Qed.

Lemma has_id_spec discord_id group :
  has_id discord_id group = true <-> In discord_id (map member_id group).
Proof.
  unfold has_id. rewrite existsb_exists, in_map_iff. split.
  - intros [m [Hin Hm]]. apply Z.eqb_eq in Hm. now exists m.
  - intros [m [Hm Hin]]. exists m. split; [exact Hin|now apply Z.eqb_eq].
Qed.

Lemma dedupe_from_subset seen group m :
  In m (dedupe_from seen group) -> In m group.
Proof.
  revert seen. induction group as [|x group IH]; intros seen H; [destruct H|].
  simpl in H. destruct (existsb _ seen).
  - right. eapply IH; eassumption.
  - destruct H as [<-|H]; [now left|right; eapply IH; eassumption].
Qed.

Lemma dedupe_from_ids seen group discord_id :
  In discord_id (map member_id (dedupe_from seen group))
  <-> In discord_id (map member_id group) /\ ~ In discord_id seen.
Proof.
  revert seen. induction group as [|x group IH]; intros seen; simpl; [tauto|].
  destruct (existsb (Z.eqb (member_id x)) seen) eqn:E.
  - apply seen_spec in E. rewrite IH. split.
    + intros [H1 H2]. tauto.
    + intros [[<-|H1] H2]; tauto.
  - assert (Hx : ~ In (member_id x) seen) by (rewrite <- seen_spec; congruence).
    simpl. rewrite IH. simpl. split.
    + intros [<-|[H1 H2]]; [tauto|]. split; [tauto|]. tauto.
    + intros [[<-|H1] H2]; [tauto|].
      destruct (Z.eq_dec (member_id x) discord_id); [tauto|]. right. tauto.
Qed.

Lemma dedupe_from_NoDup seen group :
  NoDup (map member_id (dedupe_from seen group)).
Proof.
  revert seen. induction group as [|x group IH]; intros seen; simpl; [constructor|].
  destruct (existsb _ seen); [apply IH|].
  simpl. constructor; [|apply IH].
  rewrite dedupe_from_ids. simpl. tauto.
Qed.

(** A group without repeated ids is left as it is. *)
Lemma dedupe_from_fixed seen group :
  NoDup (map member_id group) ->
  (forall discord_id, In discord_id (map member_id group) -> ~ In discord_id seen) ->
  dedupe_from seen group = group.
Proof.
  revert seen. induction group as [|x group IH]; intros seen Hnd Hs; [reflexivity|].
  simpl in *. inversion Hnd as [|? ? Hx Hnd']; subst.
  destruct (existsb _ seen) eqn:E.
  - apply seen_spec in E. exfalso. eapply Hs; eauto.
  - f_equal. apply IH; [exact Hnd'|].
    intros i Hi [<-|Hin]; [tauto|]. eapply Hs; eauto.
Qed.

End DedupeFacts.

(** ** The finalizer *)
Module FinalizerFacts.
Import create_team.
Import Db (upsert_group, the_row).

Lemma fold_upsert_player_frame group db :
  let db' := fold_left (fun c member => Db.upsert_player (member_id member) c) group db in
  Db.teams db' = Db.teams db /\ Db.team_members db' = Db.team_members db
  /\ Db.next_team_id db' = Db.next_team_id db.
Proof.
  revert db. induction group as [|m group IH]; intros db; simpl; [auto|].
  destruct (IH (Db.upsert_player (member_id m) db)) as (H1 & H2 & H3).
  rewrite H1, H2, H3. unfold Db.upsert_player.
  destruct (existsb _ _); simpl; auto.
Qed.

Lemma upsert_player_frame discord_id db :
  Db.teams (Db.upsert_player discord_id db) = Db.teams db
  /\ Db.team_members (Db.upsert_player discord_id db) = Db.team_members db.
Proof. unfold Db.upsert_player. destruct (existsb _ _); simpl; auto. Qed.

Lemma fold_upsert_member team status group db :
  let db' :=
    fold_left (fun c member => Db.upsert_member team (member_id member) status c)
              group db in
  Db.teams db' = Db.teams db
  /\ Db.team_members db' = upsert_group team status group (Db.team_members db).
Proof.
  revert db. induction group as [|m group IH]; intros db; simpl; [auto|].
  destruct (IH (Db.upsert_member team (member_id m) status db)) as (H1 & H2).
  rewrite H1, H2. auto.
Qed.

Lemma upsert_group_NoDup team status group rows :
  NoDup (map Db.key rows) -> NoDup (map Db.key (upsert_group team status group rows)).
Proof.
  revert rows. induction group as [|m group IH]; intros rows H; simpl; [exact H|].
  apply IH. now apply DbFacts.upsert_row_NoDup.
Qed.

Lemma upsert_group_absent team status group rows discord_id :
  ~ In discord_id (map member_id group) ->
  filter (Db.same_key team discord_id) (upsert_group team status group rows)
  = filter (Db.same_key team discord_id) rows.
Proof.
  revert rows. induction group as [|m group IH]; intros rows H; simpl; [reflexivity|].
  simpl in H. rewrite IH by tauto.
  apply DbFacts.upsert_row_other. intros ->. tauto.
Qed.

Lemma upsert_group_present team status group rows discord_id :
  NoDup (map Db.key rows) ->
  In discord_id (map member_id group) ->
  filter (Db.same_key team discord_id) (upsert_group team status group rows)
  = [the_row team discord_id status].
Proof.
  revert rows. induction group as [|m group IH]; intros rows Hnd Hin; [destruct Hin|].
  simpl.
  destruct (in_dec Z.eq_dec discord_id (map member_id group)) as [Hlater|Hlater].
  - apply IH; [now apply DbFacts.upsert_row_NoDup|exact Hlater].
  - rewrite upsert_group_absent by exact Hlater.
    destruct Hin as [<-|Hin]; [|contradiction].
    now apply DbFacts.upsert_row_same.
Qed.

(** What a transaction that did not raise has done to the tables. *)
Lemma db_transaction_ok draft r cat ch cap y sem sen db db' :
  db_transaction draft r cat ch cap y sem sen db = (inl tt, db') ->
  Db.select_conflict (role_id r) (category_id cat) (channel_id ch) db = []
  /\ Db.teams db'
     = (Db.teams db ++
        [{| Db.team_id := Db.next_team_id db; Db.team_nick := team_nick draft;
            Db.role_id := role_id r; Db.channel_id := channel_id ch;
            Db.category_id := category_id cat;
            Db.captain_discord_id := member_id cap; Db.year := y;
            Db.semester := sem; Db.seniority := sen;
            Db.archived := Db.archived_default |}])%list
  /\ Db.team_members db'
     = upsert_group (Db.next_team_id db) "sub" (substitutes draft)
         (upsert_group (Db.next_team_id db) "starter" (starters draft)
            (Db.team_members db)).
Proof.
  unfold db_transaction.
  destruct (Db.select_conflict _ _ _ db) eqn:Hc; [|discriminate].
  simpl. intros H. inversion H; subst; clear H. split; [reflexivity|].
  match goal with
  | |- context [fold_left _ (substitutes draft) ?c] =>
      destruct (fold_upsert_member (Db.next_team_id db) "sub" (substitutes draft) c)
        as (T1 & M1)
  end.
  rewrite T1, M1.
  match goal with
  | |- context [fold_left _ (starters draft) ?c] =>
      destruct (fold_upsert_member (Db.next_team_id db) "starter" (starters draft) c)
        as (T2 & M2)
  end.
  rewrite T2, M2.
  match goal with
  | |- context [Db.upsert_player ?i ?c] =>
      destruct (upsert_player_frame i c) as (T3 & M3)
  end.
  rewrite T3, M3.
  match goal with
  | |- context [fold_left _ (starters draft ++ substitutes draft)%list ?c] =>
      destruct (fold_upsert_player_frame (starters draft ++ substitutes draft)%list c)
        as (T4 & M4 & _)
  end.
  rewrite T4, M4. simpl. auto.
Qed.

Lemma db_transaction_runs draft r cat ch cap y sem sen db :
  Db.select_conflict (role_id r) (category_id cat) (channel_id ch) db = [] ->
  exists db', db_transaction draft r cat ch cap y sem sen db = (inl tt, db').
Proof.
  intros Hc. unfold db_transaction. rewrite Hc. simpl. eexists. reflexivity.
Qed.

End FinalizerFacts.

(** ** Claims about the finalizer *)

Lemma finalize_ready set_iteration interaction draft db r cat ch cap y sem sen :
  create_team.ready draft r cat ch cap y sem sen ->
  create_team._finalize_team interaction set_iteration draft db
  = match Db.run_in_transaction
            (create_team.db_transaction draft r cat ch cap y sem sen) db with
    | (inr exc, db') => (Raise exc, db', [])
    | (inl _, db') =>
        let involved := create_team.involved_members set_iteration cap draft in
        (Ok (flat_map (create_team.grant_warning interaction r) involved),
         db', involved)
    end.
Proof.
  intros (Hr & Hcat & Hch & Hcap & Hy & Hy0 & Hsem & Hsem0 & Hsen).
  unfold create_team._finalize_team.
  rewrite Hr, Hcat, Hch, Hcap, Hy, Hsem, Hsen.
  apply Z.eqb_neq in Hy0. rewrite Hy0.
  destruct sem; [congruence|]. reflexivity.
Qed.

Lemma select_conflict_finds r cat ch db t :
  In t (Db.teams db) -> Db.archived t <> Some true ->
  Db.role_id t = r -> Db.category_id t = cat -> Db.channel_id t = ch ->
  Db.select_conflict r cat ch db <> [].
Proof.
  intros Hin Ha Hr Hcat Hch Hnil. unfold Db.select_conflict in Hnil.
  apply map_eq_nil in Hnil.
  assert (Hf : In t (filter
    (fun t => ((Db.role_id t =? r) && (Db.category_id t =? cat)
               && (Db.channel_id t =? ch) && Db.is_not_true (Db.archived t))%bool)
    (Db.teams db))).
  { apply filter_In. split; [exact Hin|].
    subst. rewrite !Z.eqb_refl. simpl.
    destruct (Db.archived t) as [[]|]; [congruence|reflexivity|reflexivity]. }
  rewrite Hnil in Hf. destruct Hf.
Qed.

(** C1.  When a team row that is not archived already has the draft's
    role, category and channel, the transaction body raises
    [TeamCreationError] with the conflict message before it has written
    anything, and [_finalize_team] ends with that error, the tables
    exactly as they were (no team row, no membership row) and no role
    granted. *)
Theorem finalize_conflict_makes_no_write
    set_iteration interaction draft db r cat ch cap y sem sen t :
  create_team.ready draft r cat ch cap y sem sen ->
  In t (Db.teams db) ->
  Db.archived t <> Some true ->
  Db.role_id t = role_id r ->
  Db.category_id t = category_id cat ->
  Db.channel_id t = channel_id ch ->
  create_team.db_transaction draft r cat ch cap y sem sen db
    = (inr (TeamCreationError conflict_message), db)
  /\ create_team._finalize_team interaction set_iteration draft db
    = (Raise (TeamCreationError conflict_message), db, []).
Proof.
  intros Hready Hin Ha Hr Hcat Hch.
  assert (Htx : create_team.db_transaction draft r cat ch cap y sem sen db
                = (inr (TeamCreationError conflict_message), db)).
  { unfold create_team.db_transaction.
    destruct (Db.select_conflict _ _ _ db) eqn:Hc; [|reflexivity].
    exfalso. eapply select_conflict_finds; eauto. }
  split; [exact Htx|].
  rewrite (finalize_ready _ _ _ _ _ _ _ _ _ _ _ Hready).
  unfold Db.run_in_transaction. rewrite Htx. reflexivity.
Qed.

Lemma finalize_conflict_makes_no_write_witness :
  create_team._finalize_team Demo.operator Demo.in_order Demo.complete_draft
    Demo.db_with_falcons
  = (Raise (TeamCreationError conflict_message), Demo.db_with_falcons, []).
Proof.
  apply (finalize_conflict_makes_no_write Demo.in_order Demo.operator
           Demo.complete_draft Demo.db_with_falcons Demo.falcons
           Demo.main_category Demo.falcons_chat Demo.ann 2025 "Fall" 3
           Demo.falcons_row).
  - repeat split; try reflexivity; discriminate.
  - simpl. left. reflexivity.
  - discriminate.
  - reflexivity.
  - reflexivity.
  - reflexivity.
Defined.

(** C5.  In a finalize that succeeds on a table whose
    [(team_id, player_discord_id)] pairs are unique, the pairs are still
    unique afterwards; the membership table is the old one after the
    starters' upserts followed by the substitutes' upserts; and a member
    who is both a starter and a substitute ends with exactly one row for
    the new team, whose status is ["sub"]. *)
Theorem membership_unique_and_substitute_status_wins
    set_iteration interaction draft db warnings db' granted :
  NoDup (map Db.key (Db.team_members db)) ->
  create_team._finalize_team interaction set_iteration draft db
    = (Ok warnings, db', granted) ->
  let team := Db.next_team_id db in
  NoDup (map Db.key (Db.team_members db'))
  /\ Db.team_members db'
     = Db.upsert_group team "sub" (substitutes draft)
         (Db.upsert_group team "starter" (starters draft) (Db.team_members db))
  /\ (forall m s,
        In m (starters draft) -> In s (substitutes draft) ->
        member_id m = member_id s ->
        filter (Db.same_key team (member_id m)) (Db.team_members db')
        = [Db.the_row team (member_id m) "sub"])
  /\ (forall m,
        In m (starters draft) ->
        ~ In (member_id m) (map member_id (substitutes draft)) ->
        filter (Db.same_key team (member_id m)) (Db.team_members db')
        = [Db.the_row team (member_id m) "starter"]).
Proof.
  intros Hnd Hfin team.
  assert (Htx : exists r cat ch cap y sem sen,
             create_team.db_transaction draft r cat ch cap y sem sen db = (inl tt, db')).
  { unfold create_team._finalize_team in Hfin.
    destruct (role draft) as [r|]; [|discriminate].
    destruct (channel draft) as [ch|]; [|discriminate].
    destruct (category draft) as [cat|]; [|discriminate].
    destruct (captain draft) as [cap|]; [|discriminate].
    destruct (year draft) as [y|]; [|discriminate].
    destruct (semester draft) as [sem|]; [|discriminate].
    destruct (seniority draft) as [sen|]; [|discriminate].
    destruct ((y =? 0) || negb (PyStr.nonempty sem))%bool; [discriminate|].
    exists r, cat, ch, cap, y, sem, sen.
    unfold Db.run_in_transaction in Hfin.
    destruct (create_team.db_transaction draft r cat ch cap y sem sen db)
      as [[[]|e] d]; [|discriminate].
    inversion Hfin; subst. reflexivity. }
  destruct Htx as (r & cat & ch & cap & y & sem & sen & Htx).
  apply FinalizerFacts.db_transaction_ok in Htx as (_ & _ & Hrows).
  fold team in Hrows.
  assert (Hmid : NoDup (map Db.key
            (Db.upsert_group team "starter" (starters draft) (Db.team_members db))))
    by now apply FinalizerFacts.upsert_group_NoDup.
  rewrite Hrows. repeat split.
  - now apply FinalizerFacts.upsert_group_NoDup.
  - intros m s Hm Hs Hid. rewrite Hid.
    apply FinalizerFacts.upsert_group_present; [exact Hmid|].
    now apply in_map.
  - intros m Hm Hs.
    rewrite FinalizerFacts.upsert_group_absent by exact Hs.
    apply FinalizerFacts.upsert_group_present; [exact Hnd|now apply in_map].
Qed.

Lemma membership_unique_and_substitute_status_wins_witness :
  filter (Db.same_key 1 12)
    (Db.team_members
       (snd (fst (create_team._finalize_team Demo.operator Demo.in_order
                    Demo.overlap_draft Demo.empty_db))))
  = [Db.the_row 1 12 "sub"].
Proof.
  pose proof (membership_unique_and_substitute_status_wins
                Demo.in_order Demo.operator Demo.overlap_draft Demo.empty_db
                _ _ _ (NoDup_nil _) eq_refl) as H.
  destruct H as (_ & _ & H & _).
  apply (H Demo.bob Demo.bob); simpl; auto.
Defined.

Lemma flat_map_nil {A B} (f : A -> list B) l :
  (forall x, In x l -> f x = []) -> flat_map f l = [].
Proof.
  induction l as [|x l IH]; intros H; simpl; [reflexivity|].
  rewrite (H x) by now left. apply IH. intros y Hy. apply H. now right.
Qed.

Lemma flat_map_single {A B} (f : A -> list B) l c :
  NoDup l -> In c l -> (forall x, In x l -> x <> c -> f x = []) ->
  flat_map f l = f c.
Proof.
  intros Hnd Hin H. apply in_split in Hin as (l1 & l2 & ->).
  apply NoDup_remove_2 in Hnd.
  rewrite flat_map_app. simpl.
  rewrite !flat_map_nil, app_nil_r; [reflexivity| |].
  - intros x Hx. apply H; [apply in_or_app; right; now right|].
    intros ->. apply Hnd. apply in_or_app. now right.
  - intros x Hx. apply H; [apply in_or_app; now left|].
    intros ->. apply Hnd. apply in_or_app. now left.
Qed.

Lemma flat_map_length_le_one {A B} (f : A -> list B) (fails : A -> bool) l :
  (forall x, length (f x) = if fails x then 1%nat else 0%nat) ->
  length (flat_map f l) = length (filter fails l).
Proof.
  intros H. induction l as [|x l IH]; simpl; [reflexivity|].
  rewrite length_app, IH, H. destruct (fails x); reflexivity.
Qed.

(** C4.  When the draft is complete and no active team conflicts, and
    whatever order the set of involved members is iterated in:
    [_finalize_team] returns its warnings (it does not raise); the new
    team row is in the table; [add_roles] is called on a list without
    repeated ids that carries exactly the ids of the captain, the
    starters and the substitutes; each failed call contributes exactly
    one warning, so there is none when every call succeeds; and when
    only the call for [c] fails, with [Forbidden], the one warning is
    the missing-permission message naming [c]. *)
Theorem grants_once_each_and_failures_are_warnings
    set_iteration interaction draft db r cat ch cap y sem sen :
  (forall l, Permutation (set_iteration l) l) ->
  create_team.ready draft r cat ch cap y sem sen ->
  Db.select_conflict (role_id r) (category_id cat) (channel_id ch) db = [] ->
  let grant := fun m => add_roles (guild interaction) m r in
  let failed := fun m => match grant m with inl _ => false | inr _ => true end in
  exists warnings db' granted,
    create_team._finalize_team interaction set_iteration draft db
      = (Ok warnings, db', granted)
    /\ In {| Db.team_id := Db.next_team_id db; Db.team_nick := team_nick draft;
             Db.role_id := role_id r; Db.channel_id := channel_id ch;
             Db.category_id := category_id cat;
             Db.captain_discord_id := member_id cap; Db.year := y;
             Db.semester := sem; Db.seniority := sen;
             Db.archived := Db.archived_default |} (Db.teams db')
    /\ NoDup (map member_id granted)
    /\ (forall discord_id,
          In discord_id (map member_id granted)
          <-> In discord_id
                (map member_id (cap :: starters draft ++ substitutes draft)%list))
    /\ (forall m, In m granted ->
          In m (cap :: starters draft ++ substitutes draft)%list)
    /\ length warnings = length (filter failed granted)
    /\ ((forall m, In m granted -> grant m = inl tt) -> warnings = [])
    /\ (forall c text,
          In c granted -> grant c = inr (Forbidden text) ->
          (forall m, In m granted -> m <> c -> grant m = inl tt) ->
          warnings
          = ["Missing permission to assign role to " ++ display_name c ++ "."]).
Proof.
  intros Hperm Hready Hc grant failed.
  destruct (FinalizerFacts.db_transaction_runs draft r cat ch cap y sem sen db Hc)
    as [db' Htx].
  set (all := (cap :: starters draft ++ substitutes draft)%list).
  set (granted := create_team.involved_members set_iteration cap draft).
  exists (flat_map (create_team.grant_warning interaction r) granted), db', granted.
  assert (Hp : Permutation granted (create_team.dedupe_from [] all))
    by apply Hperm.
  assert (Hids : NoDup (map member_id granted)).
  { eapply Permutation_NoDup;
      [apply Permutation_sym, Permutation_map, Hp|apply DedupeFacts.dedupe_from_NoDup]. }
  assert (Hw : forall m, grant m = inl tt ->
                 create_team.grant_warning interaction r m = []).
  { intros m Hm. unfold create_team.grant_warning. fold (grant m). now rewrite Hm. }
  split; [|split; [|split; [|split; [|split; [|split; [|split]]]]]].
  - rewrite (finalize_ready _ _ _ _ _ _ _ _ _ _ _ Hready).
    unfold Db.run_in_transaction. rewrite Htx. reflexivity.
  - apply FinalizerFacts.db_transaction_ok in Htx as (_ & Ht & _).
    rewrite Ht. apply in_or_app. right. left. reflexivity.
  - exact Hids.
  - intros i.
    assert (Hm := Permutation_map member_id Hp).
    split; intros Hi.
    + apply (DedupeFacts.dedupe_from_ids [] all i).
      eapply Permutation_in; [exact Hm|exact Hi].
    + eapply Permutation_in; [apply Permutation_sym, Hm|].
      apply DedupeFacts.dedupe_from_ids. split; [exact Hi|intros []].
  - intros m Hm. apply (DedupeFacts.dedupe_from_subset [] all).
    eapply Permutation_in; eassumption.
  - apply flat_map_length_le_one. intros m.
    unfold create_team.grant_warning, failed. fold (grant m).
    destruct (grant m) as [|[]]; reflexivity.
  - intros Hall. apply flat_map_nil. intros m Hm. apply Hw, Hall, Hm.
  - intros c text Hin Hfail Hothers.
    rewrite (flat_map_single _ granted c).
    + unfold create_team.grant_warning. fold (grant c). now rewrite Hfail.
    + eapply NoDup_map_inv. exact Hids.
    + exact Hin.
    + intros m Hm Hne. apply Hw, Hothers; assumption.
Qed.

Lemma grants_once_each_and_failures_are_warnings_witness :
  exists warnings db' granted,
    create_team._finalize_team Demo.operator Demo.in_order Demo.complete_draft
      Demo.empty_db = (Ok warnings, db', granted)
    /\ warnings = ["Missing permission to assign role to Cy."].
Proof.
  assert (Hready : create_team.ready Demo.complete_draft Demo.falcons
            Demo.main_category Demo.falcons_chat Demo.ann 2025 "Fall" 3)
    by (repeat split; try reflexivity; discriminate).
  destruct (grants_once_each_and_failures_are_warnings
              Demo.in_order Demo.operator Demo.complete_draft Demo.empty_db
              Demo.falcons Demo.main_category Demo.falcons_chat Demo.ann
              2025 "Fall" 3 (fun l => Permutation_refl l) Hready eq_refl)
    as (ws & db' & g & Hfin & _ & _ & _ & _ & _ & _ & Hone).
  exists ws, db', g. split; [exact Hfin|].
  vm_compute in Hfin. inversion Hfin; subst.
  apply (Hone Demo.cy "Missing Permissions").
  - simpl. auto.
  - reflexivity.
  - intros m [<-|[<-|[<-|[]]]] Hne; try reflexivity.
    exfalso. apply Hne. reflexivity.
Defined.

(** ** Label autocomplete *)
Module LikeFacts.
Import ArchiveTeam.

Lemma like_percent rest s :
  like (String "%" rest) s
  = (like rest s
     || match s with
        | EmptyString => false
        | String _ s' => like (String "%" rest) s'
        end)%bool.
Proof. destruct s; reflexivity. Qed.

Lemma like_percent_splits rest s :
  like (String "%" rest) s = true ->
  exists before after, s = before ++ after /\ like rest after = true.
Proof.
  induction s as [|c s IH]; rewrite like_percent; intros H.
  - rewrite orb_false_r in H. exists EmptyString, EmptyString. auto.
  - apply orb_true_iff in H as [H|H].
    + exists EmptyString, (String c s). auto.
    + destruct (IH H) as (b & a & -> & Ha). exists (String c b), a. auto.
Qed.

Lemma like_plain_char c rest s :
  plain_char c = true ->
  like (String c rest) s
  = match s with
    | EmptyString => false
    | String x s' => (Ascii.eqb x c && like rest s')%bool
    end.
Proof.
  unfold plain_char. intros H. apply negb_true_iff in H.
  apply orb_false_iff in H as [H H3]. apply orb_false_iff in H as [H1 H2].
  simpl. rewrite H1, H2, H3. reflexivity.
Qed.

Lemma like_plain_prefix q rest s :
  plain q = true -> like (q ++ rest) s = true ->
  exists after, s = q ++ after /\ like rest after = true.
Proof.
  revert s. induction q as [|c q IH]; intros s Hq H.
  - exists s. auto.
  - simpl in Hq. apply andb_true_iff in Hq as [Hc Hq].
    change (String c q ++ rest) with (String c (q ++ rest)) in H.
    rewrite (like_plain_char _ _ _ Hc) in H.
    destruct s as [|x s]; [discriminate|].
    apply andb_true_iff in H as [Hx H]. apply Ascii.eqb_eq in Hx. subst x.
    destruct (IH s Hq H) as (a & -> & Ha). exists a. auto.
Qed.

Lemma plain_char_lower c : plain_char (PyStr.lower_char c) = plain_char c.
Proof. destruct c as [[] [] [] [] [] [] [] []]; reflexivity. Qed.

Lemma plain_lower s : plain (PyStr.lower s) = plain s.
Proof.
  induction s as [|c s IH]; simpl; [reflexivity|].
  unfold plain in *. simpl. now rewrite plain_char_lower, IH.
Qed.

Lemma lower_app s t : PyStr.lower (s ++ t) = PyStr.lower s ++ PyStr.lower t.
Proof. induction s as [|c s IH]; simpl; [reflexivity|now rewrite IH]. Qed.

(** For a search text without metacharacters, [ILIKE '%text%'] only
    accepts labels that contain the text, case-folded. *)
Lemma ilike_contains current label :
  plain current = true ->
  ilike ("%" ++ current ++ "%") label = true ->
  contains (PyStr.lower current) (PyStr.lower label).
Proof.
  intros Hp H. unfold ilike in H.
  change ("%" ++ current ++ "%") with (String "%" (current ++ "%")) in H.
  simpl PyStr.lower in H. change (PyStr.lower_char "%") with "%"%char in H.
  rewrite lower_app in H.
  apply like_percent_splits in H as (b & a & Hs & H).
  apply like_plain_prefix in H as (a' & -> & _); [|now rewrite plain_lower].
  exists b, a'. exact Hs.
Qed.

Lemma in_firstn {A} n (l : list A) x : In x (firstn n l) -> In x l.
Proof.
  revert l. induction n as [|n IH]; intros [|y l] H; simpl in *; try tauto.
  destruct H as [H|H]; [now left|right; now apply IH].
Qed.

Lemma select_labels_sound pattern db label :
  In label (select_labels pattern db) ->
  exists t, In t (Db.teams db) /\ Db.team_nick t = Some label
            /\ Db.archived t = Some false /\ ilike pattern label = true.
Proof.
  unfold select_labels. intros H. apply in_firstn in H.
  apply in_flat_map in H as (t & Ht & H). exists t. split; [exact Ht|].
  destruct (Db.team_nick t) as [nick|]; [|destruct H].
  destruct (ilike pattern nick) eqn:Hl; [|destruct H].
  destruct (Db.archived t) as [[]|]; simpl in H; try destruct H as [<-|[]];
    try contradiction.
  auto.
Qed.

End LikeFacts.

(** C9, as the code has it.  The autocomplete returns at most 25
    choices; each is the label of a team whose [archived] is false; and
    each matches [ILIKE '%current%'], which for a search text without
    [%], [_] or backslash means that the label contains the text
    anywhere, case-insensitively (not that it starts with it). *)
Theorem suggestions_at_most_25_active_and_containing current db :
  let choices := ArchiveTeam.archive_team_autocomplete current db in
  (length choices <= 25)%nat
  /\ forall c, In c choices ->
       ArchiveTeam.value c = ArchiveTeam.name c
       /\ (exists t, In t (Db.teams db)
                     /\ Db.team_nick t = Some (ArchiveTeam.name c)
                     /\ Db.archived t = Some false)
       /\ ArchiveTeam.ilike ("%" ++ current ++ "%") (ArchiveTeam.name c) = true
       /\ (ArchiveTeam.plain current = true ->
           ArchiveTeam.contains (PyStr.lower current)
             (PyStr.lower (ArchiveTeam.name c))).
Proof.
  unfold ArchiveTeam.archive_team_autocomplete. split.
  - rewrite length_map. unfold ArchiveTeam.select_labels. apply firstn_le_length.
  - intros c Hc. apply in_map_iff in Hc as (label & <- & Hl). simpl.
    apply LikeFacts.select_labels_sound in Hl as (t & Ht & Hn & Ha & Hm).
    split; [reflexivity|]. split; [now exists t|]. split; [exact Hm|].
    intros Hp. now apply LikeFacts.ilike_contains.
Qed.

(** C9 as stated fails: for the search text "con" the label "Falcons" is
    returned, and it does not start with "con", in any letter case. *)
Lemma suggestion_need_not_start_with_input :
  In {| ArchiveTeam.name := "Falcons"; ArchiveTeam.value := "Falcons" |}
     (ArchiveTeam.archive_team_autocomplete "con" Demo.db_with_falcons)
  /\ String.prefix "con" "Falcons" = false
  /\ String.prefix (PyStr.lower "con") (PyStr.lower "Falcons") = false.
Proof. vm_compute. auto. Qed.

(** ** Claims about the field resolvers *)

(** What the year parser does with each content. *)
Lemma year_parser_cases content message w :
  create_team.year_parser content message w
  = if negb (PyStr.isdigit content)
    then (Raise (ValidationError "Please provide a numeric year (e.g., 2025)."), w)
    else
      match PyStr.int content with
      | None =>
          (Raise (ValueError
             ("invalid literal for int() with base 10: '" ++ content ++ "'")), w)
      | Some y =>
          if ((y <? 2000) || (y >? 2100))%bool
          then (Raise (ValidationError "Year must be between 2000 and 2100."), w)
          else (Ok y, w)
      end.
Proof.
  unfold create_team.year_parser. destruct (negb (PyStr.isdigit content)); [reflexivity|].
  unfold bind, py_int. destruct (PyStr.int content) as [y|]; [|reflexivity].
  unfold ret. destruct ((y <? 2000) || (y >? 2100))%bool; reflexivity.
Qed.

(** On contents made of decimal digits the parser is as C7 says: the
    year is accepted exactly when it lies in 2000..2100, and every other
    such content raises [ValidationError]. *)
Lemma year_parser_decimal content message w :
  PyStr.isdecimal content = true ->
  let y := PyStr.digits_value 0 content in
  (2000 <= y <= 2100 -> create_team.year_parser content message w = (Ok y, w))
  /\ (~ 2000 <= y <= 2100 ->
      create_team.year_parser content message w
      = (Raise (ValidationError "Year must be between 2000 and 2100."), w)).
Proof.
  intros Hd y. rewrite year_parser_cases.
  assert (Hdigit : PyStr.isdigit content = true).
  { unfold PyStr.isdecimal, PyStr.isdigit in *.
    apply andb_true_iff in Hd as [Hn Hall]. rewrite Hn. simpl.
    clear Hn. induction content as [|c s IH]; [reflexivity|].
    simpl in *. apply andb_true_iff in Hall as [Hc Hall].
    unfold PyStr.isdigit_char. rewrite Hc. simpl. now apply IH. }
  rewrite Hdigit. unfold PyStr.int. rewrite Hd. simpl. fold y.
  split; intros H.
  - destruct (Z.ltb_spec y 2000); [lia|]. destruct (Z.gtb_spec y 2100); [lia|].
    reflexivity.
  - destruct (Z.ltb_spec y 2000); [reflexivity|].
    destruct (Z.gtb_spec y 2100); [reflexivity|]. lia.
Qed.

(** C7 at the failing input.  The text U+00B2 passes [isdigit] but is
    not a decimal number: the year parser raises [ValueError], which
    [_ask_question] does not catch, so the question is not asked again
    and the command stops although a valid year follows. *)
Theorem year_superscript_digit_is_not_reasked :
  PyStr.isdigit Demo.superscript_two = true
  /\ (forall message w,
        create_team.year_parser Demo.superscript_two message w
        = (Raise (ValueError
             ("invalid literal for int() with base 10: '"
              ++ Demo.superscript_two ++ "'")), w))
  /\ (let '(outcome, w, db, granted) :=
        create_team.create_team Demo.in_order Demo.operator true true
          Demo.scenario_superscript_year Demo.empty_db in
      outcome
      = create_team.CollectFailed
          (Some (ValueError
             ("invalid literal for int() with base 10: '"
              ++ Demo.superscript_two ++ "'")))
      /\ last (outbox w) EmptyString
         = "An unexpected error occurred while collecting data: invalid literal for int() with base 10: '"
           ++ Demo.superscript_two ++ "'"
      /\ db = Demo.empty_db).
Proof.
  split; [reflexivity|]. split.
  - intros message w. rewrite year_parser_cases. reflexivity.
  - vm_compute. auto.
Qed.

Lemma wait_for_reply_got interaction w message rest :
  wait_for_message (create_team.reply_check interaction) (events w)
    = (Some message, rest) ->
  create_team._wait_for_reply interaction w
  = (Ok message, {| events := rest; outbox := outbox w |}).
Proof. intros H. unfold create_team._wait_for_reply. now rewrite H. Qed.

Lemma wait_for_reply_timeout interaction w rest :
  wait_for_message (create_team.reply_check interaction) (events w) = (None, rest) ->
  create_team._wait_for_reply interaction w
  = (Raise (ConversationCancelled "Timed out waiting for a response."),
     {| events := rest; outbox := outbox w |}).
Proof. intros H. unfold create_team._wait_for_reply. now rewrite H. Qed.

(** C8, as the code has it.  For the reply that answers the label
    question: a skip token ("n/a" or "na", in any letter case) leaves the
    label absent; any other non-empty reply that is not a cancellation
    becomes the label, trimmed; and a reply that is empty after trimming
    is answered with "Please provide a response or type N/A." and the
    question stays open for the next reply. *)
Theorem label_reply_skip_text_or_asked_again n interaction w message rest :
  wait_for_message (create_team.reply_check interaction) (events w)
    = (Some message, rest) ->
  let text := PyStr.strip (content message) in
  let asked := {| events := rest; outbox := (outbox w ++ [NICK_PROMPT])%list |} in
  create_team._should_exit text = false ->
  (in_strings (PyStr.lower text) ["n/a"; "na"] = true ->
   create_team._prompt_team_nick (S n) interaction w = (Ok None, asked))
  /\ (in_strings (PyStr.lower text) ["n/a"; "na"] = false ->
      text <> EmptyString ->
      create_team._prompt_team_nick (S n) interaction w = (Ok (Some text), asked))
  /\ (text = EmptyString ->
      create_team._prompt_team_nick (S n) interaction w
      = bind (create_team.ask_loop interaction n true None)
             create_team.nick_of_answer
             (create_team.say "Please provide a response or type N/A." asked)).
Proof.
  intros Hwait text asked Hexit.
  assert (Hstep : create_team._prompt_team_nick (S n) interaction w
    = bind
        (if in_strings (PyStr.lower text) ["n/a"; "na"]
         then ret NA
         else if PyStr.nonempty text then ret (Text text)
              else bind (send "Please provide a response or type N/A.")
                     (fun _ => create_team.ask_loop interaction n true None))
        create_team.nick_of_answer asked).
  { unfold create_team._prompt_team_nick, create_team._ask_question.
    unfold bind at 1 2. unfold send at 1. simpl create_team.ask_loop.
    unfold bind at 1 2.
    rewrite (wait_for_reply_got interaction _ message rest) by exact Hwait.
    simpl outbox. fold text. rewrite Hexit. reflexivity. }
  rewrite Hstep. repeat split.
  - intros Hna. rewrite Hna. reflexivity.
  - intros Hna Hne. rewrite Hna.
    assert (Hn : PyStr.nonempty text = true) by now apply PyStrFacts.nonempty_true.
    assert (Hs : PyStr.strip text = text) by apply PyStrFacts.strip_idem.
    rewrite Hn.
    cbv [bind ret create_team.nick_of_answer create_team.normalize].
    rewrite Hs, Hn. reflexivity.
  - intros He. rewrite He. reflexivity.
Qed.

Lemma label_reply_skip_text_or_asked_again_witness :
  create_team._prompt_team_nick 3 Demo.operator
    (Demo.world_of [Demo.reply "  Falcons "; Demo.reply "ignored"])
  = (Ok (Some "Falcons"),
     {| events := [Demo.reply "ignored"]; outbox := [NICK_PROMPT] |}).
Proof.
  apply (label_reply_skip_text_or_asked_again 2 Demo.operator
           (Demo.world_of [Demo.reply "  Falcons "; Demo.reply "ignored"])
           {| author_id := 1; message_channel_id := 2; content := "  Falcons ";
              mentions := []; role_mentions := []; channel_mentions := [] |}
           [Demo.reply "ignored"]).
  - reflexivity.
  - reflexivity.
  - reflexivity.
  - discriminate.
Defined.

(** C8 as stated fails: an empty reply to the label question does not
    leave the label absent; the operator is asked again and the next
    reply becomes the label. *)
Lemma empty_label_reply_is_asked_again :
  create_team._prompt_team_nick 3 Demo.operator
    (Demo.world_of [Demo.reply EmptyString; Demo.reply "Falcons"])
  = (Ok (Some "Falcons"),
     {| events := [];
        outbox := [NICK_PROMPT; "Please provide a response or type N/A."] |})
  /\ fst (create_team._prompt_team_nick 3 Demo.operator
            (Demo.world_of [Demo.reply EmptyString; Demo.reply "Falcons"]))
     <> Ok None.
Proof. split; [reflexivity|discriminate]. Qed.

(** ** The semester selector *)

Lemma first_completed_shape interaction evs :
  let race := fst (create_team.first_completed interaction evs) in
  ((exit_task race = Done true /\ view_task race = Pending /\ view_value race = None)
   \/ (exit_task race = Pending /\ view_task race = Done true /\ view_value race = None)
   \/ (exit_task race = Pending /\ view_task race = Done false
       /\ exists choice, view_value race = Some (option_label choice))).
Proof.
  induction evs as [|[m|user choice|] evs IH]; simpl.
  - right. left. auto.
  - destruct (create_team.exit_check interaction m); [left; auto|exact IH].
  - destruct (user =? user_id interaction); [|exact IH].
    right. right. simpl. eauto.
  - right. left. auto.
Qed.






(** ** The captain fixup *)

Lemma filter_has_id_false discord_id group :
  create_team.has_id discord_id group = false ->
  filter (fun member => member_id member =? discord_id) group = [].
Proof.
  unfold create_team.has_id. induction group as [|m group IH]; [reflexivity|].
  simpl. intros H. apply orb_false_iff in H as [Hm H]. rewrite Hm. now apply IH.
Qed.

Lemma has_id_app discord_id g1 g2 :
  create_team.has_id discord_id (g1 ++ g2)
  = (create_team.has_id discord_id g1 || create_team.has_id discord_id g2)%bool.
Proof. unfold create_team.has_id. apply existsb_app. Qed.

(** C2, as the code has it.  With a captain set, the fixup never
    raises, consumes no event and leaves the substitutes and the captain
    as they were.  If the captain's id is in neither group, the captain
    is appended to the starters, is then among the starters exactly once
    and is not among the substitutes.  If the captain's id is already in
    a group (possibly in both), the draft and the world are unchanged.
    Either way the captain is in at least one group afterwards. *)
Theorem captain_fixup_appends_once_when_in_neither draft cap w :
  captain draft = Some cap ->
  exists fixed w',
    create_team._ensure_captain_assignment draft w = (Ok fixed, w')
    /\ events w' = events w
    /\ substitutes fixed = substitutes draft
    /\ captain fixed = Some cap
    /\ (create_team.has_id (member_id cap) (starters draft) = false ->
        create_team.has_id (member_id cap) (substitutes draft) = false ->
        starters fixed = (starters draft ++ [cap])%list
        /\ create_team.count_id (member_id cap) (starters fixed) = 1%nat
        /\ create_team.count_id (member_id cap) (substitutes fixed) = 0%nat)
    /\ (create_team.has_id (member_id cap) (starters draft) = true
        \/ create_team.has_id (member_id cap) (substitutes draft) = true ->
        fixed = draft /\ w' = w)
    /\ (create_team.has_id (member_id cap) (starters fixed)
        || create_team.has_id (member_id cap) (substitutes fixed))%bool = true.
Proof.
  intros Hcap. unfold create_team._ensure_captain_assignment. rewrite Hcap.
  destruct (create_team.has_id (member_id cap) (substitutes draft)) eqn:Hsub.
  - exists draft, w. repeat split; try congruence; auto.
    rewrite Hsub. apply orb_true_r.
  - destruct (create_team.has_id (member_id cap) (starters draft)) eqn:Hst.
    + exists draft, w. repeat split; try congruence; auto.
      rewrite Hst. reflexivity.
    + eexists. eexists. split; [reflexivity|]. simpl.
      split; [reflexivity|]. split; [reflexivity|]. split; [exact Hcap|].
      split; [|split].
      * intros _ _. split; [reflexivity|]. unfold create_team.count_id. split.
        -- rewrite filter_app, (filter_has_id_false _ _ Hst). simpl.
           rewrite Z.eqb_refl. reflexivity.
        -- now rewrite (filter_has_id_false _ _ Hsub).
      * intros [H|H]; discriminate.
      * rewrite has_id_app. unfold create_team.has_id at 2. simpl.
        rewrite Z.eqb_refl. simpl. rewrite orb_true_r. reflexivity.
Qed.

Lemma captain_fixup_appends_once_when_in_neither_witness :
  exists fixed w',
    create_team._ensure_captain_assignment
      {| team_nick := None; role := None; category := None; channel := None;
         captain := Some Demo.ann; starters := [Demo.bob]; substitutes := [Demo.cy];
         year := None; semester := None; seniority := None |}
      (Demo.world_of []) = (Ok fixed, w')
    /\ starters fixed = [Demo.bob; Demo.ann]
    /\ substitutes fixed = [Demo.cy].
Proof.
  destruct (captain_fixup_appends_once_when_in_neither
              {| team_nick := None; role := None; category := None; channel := None;
                 captain := Some Demo.ann; starters := [Demo.bob];
                 substitutes := [Demo.cy];
                 year := None; semester := None; seniority := None |}
              Demo.ann (Demo.world_of []) eq_refl)
    as (fixed & w' & Hrun & _ & Hsub & _ & Hneither & _).
  exists fixed, w'. split; [exact Hrun|].
  destruct (Hneither eq_refl eq_refl) as (Hst & _).
  split; [exact Hst|exact Hsub].
Defined.

(** C2 as stated fails.  A conversation in which the captain is listed
    under the starters and under the substitutes reaches the finalizer
    with the captain in both groups; and one in which the captain is
    replaced during review reaches it with the captain in neither. *)
Lemma captain_may_be_in_both_groups_or_in_none :
  (exists d warnings w db granted,
     create_team.create_team Demo.in_order Demo.operator true true
       Demo.scenario_captain_twice Demo.empty_db
     = (create_team.Created d warnings, w, db, granted)
     /\ captain d = Some Demo.ann
     /\ In Demo.ann (starters d) /\ In Demo.ann (substitutes d))
  /\ (exists d warnings w db granted,
        create_team.create_team Demo.in_order Demo.operator true true
          Demo.scenario_captain_edited Demo.empty_db
        = (create_team.Created d warnings, w, db, granted)
        /\ captain d = Some Demo.cy
        /\ create_team.has_id 13 (starters d) = false
        /\ create_team.has_id 13 (substitutes d) = false).
Proof.
  split.
  - eexists. eexists. eexists. eexists. eexists.
    split; [vm_compute; reflexivity|]. simpl. auto.
  - eexists. eexists. eexists. eexists. eexists.
    split; [vm_compute; reflexivity|]. simpl. auto.
Qed.

(** ** The review loop *)

Lemma assign_same_except key result draft :
  create_team.same_except key draft (create_team.assign key result draft).
Proof.
  unfold create_team.assign.
  repeat match goal with
  | |- context [(key =? ?lit)%string] =>
      destruct (String.eqb_spec key lit);
        [subst key; destruct result; unfold create_team.same_except; simpl;
         repeat split; intros; solve [reflexivity|congruence] | ]
  end.
  unfold create_team.same_except. repeat split; reflexivity.
Qed.

Lemma bind_ok_inv {A B} (c : M A) (k : A -> M B) w b w' :
  bind c k w = (Ok b, w') ->
  exists a w1, c w = (Ok a, w1) /\ k a w1 = (Ok b, w').
Proof.
  unfold bind. destruct (c w) as [[a|e|] w1]; intros H; try discriminate.
  exists a, w1. auto.
Qed.

Lemma handler_result_stored fuel interaction draft key handler result w1 w2 :
  create_team.field_map fuel interaction draft key = Some handler ->
  handler w1 = (Ok result, w2) ->
  create_team.stored key result (create_team.assign key result draft).
Proof.
  unfold create_team.field_map, create_team.assign.
  repeat match goal with
  | |- context [(key =? ?lit)%string] =>
      destruct (String.eqb_spec key lit);
        [subst key; intros Hmap Hrun; inversion Hmap; subst handler;
         apply bind_ok_inv in Hrun as (v & w' & _ & Hret);
         inversion Hret; subst; simpl; auto | ]
  end.
  discriminate.
Qed.

Lemma confirm_is_not_exit text :
  PyStr.lower (PyStr.strip text) = "confirm" ->
  create_team._should_exit (PyStr.strip text) = false.
Proof.
  intros H. unfold create_team._should_exit.
  rewrite PyStrFacts.strip_idem, H. reflexivity.
Qed.

Lemma review_loop_step fuel interaction n draft :
  create_team.review_loop fuel interaction (S n) draft
  = bind (send (create_team._format_summary draft ++ nl ++ nl
                ++ create_team.review_instructions))
      (fun _ =>
         bind (create_team._wait_for_reply interaction)
           (fun message =>
              let content := PyStr.strip (content message) in
              if create_team._should_exit content
              then raise (ConversationCancelled "Process cancelled by user.")
              else if (PyStr.lower content =? "confirm")%string then ret draft
              else
                match create_team.field_map fuel interaction draft
                        (PyStr.lower content) with
                | None =>
                    bind (send "Unknown field. Please try again.")
                      (fun _ => create_team.review_loop fuel interaction n draft)
                | Some handler =>
                    bind handler
                      (fun result =>
                         create_team.review_loop fuel interaction n
                           (create_team.assign (PyStr.lower content) result draft))
                end)).
Proof. reflexivity. Qed.

(** C10.  When the reply to the review summary names a field and that
    field's handler returns a value, the loop goes on with the draft in
    which that one field holds the returned value as it is, every other
    field being unchanged; nothing else is done to the draft, and if the
    next reply is "confirm" this very draft is what the review returns,
    so neither the deduplication nor the captain fixup has run on it. *)
Theorem review_edit_overwrites_one_field
    fuel interaction n draft w message rest key handler result w2 :
  wait_for_message (create_team.reply_check interaction) (events w)
    = (Some message, rest) ->
  key = PyStr.lower (PyStr.strip (content message)) ->
  create_team._should_exit (PyStr.strip (content message)) = false ->
  key <> "confirm" ->
  create_team.field_map fuel interaction draft key = Some handler ->
  handler {| events := rest;
             outbox := (outbox w ++
                        [(create_team._format_summary draft ++ nl ++ nl
                          ++ create_team.review_instructions)%string])%list |}
    = (Ok result, w2) ->
  let edited := create_team.assign key result draft in
  create_team.review_loop fuel interaction (S n) draft w
    = create_team.review_loop fuel interaction n edited w2
  /\ create_team.stored key result edited
  /\ create_team.same_except key draft edited
  /\ (forall confirmation rest2,
        wait_for_message (create_team.reply_check interaction) (events w2)
          = (Some confirmation, rest2) ->
        PyStr.lower (PyStr.strip (content confirmation)) = "confirm" ->
        create_team.review_loop fuel interaction (S (S n)) draft w
        = (Ok edited,
           {| events := rest2;
              outbox := (outbox w2 ++
                         [(create_team._format_summary edited ++ nl ++ nl
                           ++ create_team.review_instructions)%string])%list |})).
Proof.
  intros Hwait Hkey Hexit Hconfirm Hmap Hrun edited.
  assert (Hstep : forall k,
    create_team.review_loop fuel interaction (S k) draft w
    = create_team.review_loop fuel interaction k edited w2).
  { intros k. rewrite review_loop_step.
    unfold bind at 1 2. unfold send at 1.
    rewrite (wait_for_reply_got interaction _ message rest) by exact Hwait.
    cbn [outbox events]. rewrite Hexit. rewrite <- Hkey.
    destruct (String.eqb_spec key "confirm"); [contradiction|].
    rewrite Hmap. unfold bind at 1. rewrite Hrun. reflexivity. }
  split; [apply Hstep|]. split; [eapply handler_result_stored; eassumption|].
  split; [apply assign_same_except|].
  intros confirmation rest2 Hwait2 Hc. rewrite Hstep.
  rewrite review_loop_step. unfold bind at 1 2. unfold send at 1.
  rewrite (wait_for_reply_got interaction _ confirmation rest2) by exact Hwait2.
  cbn [outbox events]. rewrite (confirm_is_not_exit _ Hc), Hc. reflexivity.
Qed.

Lemma review_edit_overwrites_one_field_witness :
  fst (create_team.review_loop 5 Demo.operator 2 Demo.complete_draft
         (Demo.world_of [Demo.reply "Year"; Demo.reply "2030"; Demo.reply "confirm"]))
  = Ok (set_year (Some 2030) Demo.complete_draft).
Proof.
  edestruct (review_edit_overwrites_one_field 5 Demo.operator 0 Demo.complete_draft
               (Demo.world_of [Demo.reply "Year"; Demo.reply "2030"; Demo.reply "confirm"]))
    as (_ & _ & _ & H).
  - reflexivity.
  - reflexivity.
  - reflexivity.
  - discriminate.
  - reflexivity.
  - vm_compute. reflexivity.
  - erewrite H; [reflexivity|reflexivity|reflexivity].
Defined.

(** ** Cancellation *)
Module CancelFacts.
Import create_team.

Section Steps.
Variable interaction : Interaction.

Lemma Cancellable_weaken k k' {A} (f : M A) :
  (k' <= k)%nat -> Cancellable interaction k f -> Cancellable interaction k' f.
Proof.
  intros Hle H w. destruct (H w) as (taken & He & Hc & Hf).
  exists taken. repeat split; auto. intros Hlt. apply Hf. lia.
Qed.

Lemma Cancellable_pure k {A} (f : M A) :
  (forall w, snd (f w) = w \/ events (snd (f w)) = events w) ->
  (forall w, fst (f w) <> OutOfFuel) ->
  Cancellable interaction k f.
Proof.
  intros Hw Hf w. exists []. simpl. split.
  - destruct (Hw w) as [->| ->]; reflexivity.
  - split; [now left|intros _; apply Hf].
Qed.

Lemma Cancellable_ret k {A} (a : A) : Cancellable interaction k (ret a).
Proof. apply Cancellable_pure; intros w; simpl; [now left|discriminate]. Qed.

Lemma Cancellable_raise k {A} e : Cancellable interaction k (@raise A e).
Proof. apply Cancellable_pure; intros w; simpl; [now left|discriminate]. Qed.

Lemma Cancellable_send k text : Cancellable interaction k (send text).
Proof. apply Cancellable_pure; intros w; simpl; [now right|discriminate]. Qed.

Lemma Cancellable_py_int k s : Cancellable interaction k (py_int s).
Proof.
  unfold py_int. destruct (PyStr.int s);
    [apply Cancellable_ret|apply Cancellable_raise].
Qed.

Lemma Cancellable_out_of_fuel {A} : Cancellable interaction 0 (@out_of_fuel A).
Proof.
  intros w. exists []. simpl. split; [reflexivity|].
  split; [now left|intros H; inversion H].
Qed.

Lemma Cancellable_bind k {A B} (f : M A) (g : A -> M B) :
  Cancellable interaction k f -> (forall a, Cancellable interaction k (g a)) -> Cancellable interaction k (bind f g).
Proof.
  intros Hf Hg w. destruct (Hf w) as (t1 & He1 & Hc1 & Hf1).
  unfold is_cancelled in *.
  unfold bind. destruct (f w) as [[a|e|] w1] eqn:E; simpl in *.
  - destruct (Hg a w1) as (t2 & He2 & Hc2 & Hf2).
    exists (t1 ++ t2)%list. rewrite <- app_assoc, <- He2. split; [exact He1|].
    assert (Hb : existsb (ends_run interaction) t1 = false).
    { destruct Hc1 as [H|[reason H]]; [exact H|discriminate H]. }
    split.
    + destruct Hc2 as [H|H]; [left|now right].
      rewrite existsb_app, Hb, H. reflexivity.
    + intros Hlt. apply Hf2. rewrite He1, length_app in Hlt. lia.
  - exists t1. split; [exact He1|]. split; [|intros _; discriminate].
    destruct Hc1 as [H|[reason H]]; [now left|right].
    exists reason. inversion H. reflexivity.
  - exists t1. split; [exact He1|]. split.
    + destruct Hc1 as [H|[reason H]]; [now left|discriminate H].
    + intros Hlt. exfalso. now apply (Hf1 Hlt).
Qed.

Lemma Cancellable_catch k {A} (c : M A) (h : string -> M A) :
  Cancellable interaction k c -> (forall msg, Cancellable interaction k (h msg)) ->
  Cancellable interaction k (catch_validation c h).
Proof.
  intros Hc Hh w. destruct (Hc w) as (t1 & He1 & Hc1 & Hf1).
  unfold is_cancelled in *. unfold catch_validation.
  destruct (c w) as [[a|[msg|r|m|m|]|] w1] eqn:E; simpl in *;
    try (exists t1; split; [exact He1|]; split; [exact Hc1|]; exact Hf1).
  destruct (Hh msg w1) as (t2 & He2 & Hc2 & Hf2).
  exists (t1 ++ t2)%list. rewrite <- app_assoc, <- He2. split; [exact He1|].
  assert (Hb : existsb (ends_run interaction) t1 = false).
  { destruct Hc1 as [H|[reason H]]; [exact H|discriminate H]. }
  split.
  - destruct Hc2 as [H|H]; [left|now right].
    rewrite existsb_app, Hb, H. reflexivity.
  - intros Hlt. apply Hf2. rewrite He1, length_app in Hlt. lia.
Qed.

Lemma should_exit_strip s : _should_exit (PyStr.strip s) = _should_exit s.
Proof. unfold _should_exit. now rewrite PyStrFacts.strip_idem. Qed.

Lemma should_exit_lower_strip s :
  _should_exit (PyStr.lower (PyStr.strip s)) = _should_exit s.
Proof.
  unfold _should_exit.
  now rewrite PyStrFacts.strip_lower, PyStrFacts.strip_idem, PyStrFacts.lower_idem.
Qed.

Lemma wait_for_reply_some evs message rest :
  wait_for_message (reply_check interaction) evs = (Some message, rest) ->
  exists skipped,
    evs = (skipped ++ EMessage message :: rest)%list
    /\ reply_check interaction message = true
    /\ existsb (ends_run interaction) skipped = false.
Proof.
  induction evs as [|[m|user choice|] evs IH]; simpl; intros H; try discriminate.
  - destruct (reply_check interaction m) eqn:Hm.
    + inversion H; subst. exists []. auto.
    + destruct (IH H) as (skipped & -> & Hc & Hs).
      exists (EMessage m :: skipped). simpl. unfold exit_check. rewrite Hm. auto.
  - destruct (IH H) as (skipped & -> & Hc & Hs).
    exists (ESelect user choice :: skipped). auto.
Qed.

Lemma wait_for_message_none check evs rest :
  wait_for_message check evs = (None, rest) ->
  exists taken, evs = (taken ++ rest)%list.
Proof.
  induction evs as [|[m|user choice|] evs IH]; simpl; intros H.
  - inversion H. now exists [].
  - destruct (check m); [discriminate|].
    destruct (IH H) as (taken & ->). now exists (EMessage m :: taken).
  - destruct (IH H) as (taken & ->). now exists (ESelect user choice :: taken).
  - inversion H. now exists [ETimeout].
Qed.

(** The pattern of every reply prompt: wait for the reply, test it for
    the cancellation tokens, go on with it otherwise. *)
Lemma Cancellable_reply k {A} (norm : string -> string) (cont : Message -> M A) :
  (forall s, _should_exit (norm s) = _should_exit s) ->
  (forall message, Cancellable interaction k (cont message)) ->
  Cancellable interaction (S k)
    (bind (_wait_for_reply interaction)
       (fun message =>
          if _should_exit (norm (content message))
          then raise (ConversationCancelled "Process cancelled by user.")
          else cont message)).
Proof.
  intros Hnorm Hcont w. unfold bind, _wait_for_reply.
  destruct (wait_for_message (reply_check interaction) (events w))
    as [[message|] rest] eqn:E.
  - apply wait_for_reply_some in E as (skipped & He & Hcheck & Hskip).
    destruct (_should_exit (norm (content message))) eqn:Hexit.
    + exists (skipped ++ [EMessage message])%list. simpl.
      rewrite <- app_assoc. split; [exact He|]. split; [|intros _; discriminate].
      right. eexists. reflexivity.
    + set (w1 := {| events := rest; outbox := outbox w |}).
      destruct (Hcont message w1) as (t2 & He2 & Hc2 & Hf2).
      exists (skipped ++ EMessage message :: t2)%list.
      split; [|split].
      * rewrite He. rewrite <- app_assoc. simpl. do 2 f_equal. exact He2.
      * destruct Hc2 as [H|H]; [left|now right].
        rewrite existsb_app, Hskip. simpl. unfold exit_check.
        rewrite <- Hnorm, Hexit, andb_false_r, H. reflexivity.
      * intros Hlt. apply Hf2. simpl. rewrite He, length_app in Hlt.
        simpl in Hlt. lia.
  - apply wait_for_message_none in E as (taken & He).
    exists taken. simpl. split; [exact He|]. split; [|intros _; discriminate].
    right. eexists. reflexivity.
Qed.

Lemma Cancellable_confirm_loop n : Cancellable interaction n (confirm_loop interaction n).
Proof.
  induction n as [|n IH]; [apply Cancellable_out_of_fuel|].
  simpl confirm_loop.
  apply (Cancellable_reply n (fun s => PyStr.lower (PyStr.strip s))
           (fun message =>
              let content := PyStr.lower (PyStr.strip (content message)) in
              if in_strings content ["yes"; "y"] then ret true
              else if in_strings content ["no"; "n"] then ret false
              else bind (send "Reply with yes or no (or type `(Exit)` to cancel).")
                     (fun _ => confirm_loop interaction n))).
  - apply should_exit_lower_strip.
  - intros message. cbv zeta.
    destruct (in_strings _ ["yes"; "y"]); [apply Cancellable_ret|].
    destruct (in_strings _ ["no"; "n"]); [apply Cancellable_ret|].
    apply Cancellable_bind; [apply Cancellable_send|intros _; exact IH].
Qed.

Section WithFuel.
Variable fuel : nat.

Lemma Cancellable_confirm prompt :
  Cancellable interaction fuel (_confirm fuel interaction prompt).
Proof.
  unfold _confirm. apply Cancellable_bind; [apply Cancellable_send|].
  intros _. apply Cancellable_confirm_loop.
Qed.

Lemma Cancellable_ask_loop {A} n allow_na
    (parser : option (string -> Message -> M A)) :
  (n <= fuel)%nat ->
  (forall parse content message,
     parser = Some parse -> Cancellable interaction fuel (parse content message)) ->
  Cancellable interaction n (ask_loop interaction n allow_na parser).
Proof.
  intros Hle Hparser. induction n as [|n IH]; [apply Cancellable_out_of_fuel|].
  simpl ask_loop.
  apply (Cancellable_reply n PyStr.strip
           (fun message =>
              let content := PyStr.strip (content message) in
              if (allow_na && in_strings (PyStr.lower content) ["n/a"; "na"])%bool
              then ret NA
              else
                match parser with
                | None =>
                    if PyStr.nonempty content then ret (Text content)
                    else bind (send "Please provide a response or type N/A.")
                           (fun _ => ask_loop interaction n allow_na parser)
                | Some parse =>
                    catch_validation
                      (bind (parse content message) (fun a => ret (Parsed a)))
                      (fun exc => bind (send exc)
                                    (fun _ => ask_loop interaction n allow_na parser))
                end)).
  - apply should_exit_strip.
  - intros message. cbv zeta.
    assert (IH' := IH ltac:(lia)).
    destruct (allow_na && _)%bool; [apply Cancellable_ret|].
    destruct parser as [parse|].
    + apply Cancellable_catch.
      * apply Cancellable_bind; [|intros a; apply Cancellable_ret].
        apply (Cancellable_weaken fuel); [lia|].
        now apply Hparser.
      * intros exc. apply Cancellable_bind; [apply Cancellable_send|].
        intros _. exact IH'.
    + destruct (PyStr.nonempty _); [apply Cancellable_ret|].
      apply Cancellable_bind; [apply Cancellable_send|intros _; exact IH'].
Qed.

Lemma Cancellable_ask_question {A} prompt allow_na
    (parser : option (string -> Message -> M A)) :
  (forall parse content message,
     parser = Some parse -> Cancellable interaction fuel (parse content message)) ->
  Cancellable interaction fuel (_ask_question fuel interaction prompt allow_na parser).
Proof.
  intros Hparser. unfold _ask_question.
  apply Cancellable_bind; [apply Cancellable_send|].
  intros _. apply Cancellable_ask_loop; [lia|exact Hparser].
Qed.

Ltac cancellable_step :=
  first
    [ apply Cancellable_ret
    | apply Cancellable_raise
    | apply Cancellable_send
    | apply Cancellable_py_int
    | apply Cancellable_confirm
    | apply Cancellable_bind; [|intros ?]
    | match goal with
      | |- Cancellable _ _ (if ?b then _ else _) => destruct b
      | |- Cancellable _ _ (match ?x with _ => _ end) => destruct x
      | |- Cancellable _ _ (let _ := _ in _) => cbv zeta
      end ].

Ltac cancellable := repeat cancellable_step.

Lemma Cancellable_assert_parsed {A} (answer : Answer A) :
  Cancellable interaction fuel (assert_parsed answer).
Proof. unfold assert_parsed. cancellable. Qed.

Lemma Cancellable_role_parser content message :
  Cancellable interaction fuel (role_parser fuel interaction content message).
Proof. unfold role_parser. cancellable. Qed.

Lemma Cancellable_category_parser content message :
  Cancellable interaction fuel (category_parser fuel interaction content message).
Proof. unfold category_parser. cancellable. Qed.

Lemma Cancellable_channel_parser category content message :
  Cancellable interaction fuel
    (channel_parser fuel interaction category content message).
Proof. unfold channel_parser. cancellable. Qed.

Lemma Cancellable_member_parser label content message :
  Cancellable interaction fuel (member_parser fuel interaction label content message).
Proof. unfold member_parser. cancellable. Qed.

Lemma Cancellable_add_tokens toks acc :
  Cancellable interaction fuel (add_tokens interaction toks acc).
Proof.
  revert acc. induction toks as [|token toks IH]; intros acc; simpl.
  - apply Cancellable_ret.
  - destruct (PyStr.isdigit token); [|apply IH].
    apply Cancellable_bind; [apply Cancellable_py_int|intros discord_id].
    apply Cancellable_bind; [cancellable|intros member; apply IH].
Qed.

Lemma Cancellable_group_parser label content message :
  Cancellable interaction fuel (group_parser fuel interaction label content message).
Proof.
  unfold group_parser. cbv zeta.
  apply Cancellable_bind; [apply Cancellable_add_tokens|intros acc].
  cancellable.
Qed.

Lemma Cancellable_year_parser content message :
  Cancellable interaction fuel (year_parser content message).
Proof. unfold year_parser. cancellable. Qed.

Lemma Cancellable_seniority_parser content message :
  Cancellable interaction fuel (seniority_parser content message).
Proof. unfold seniority_parser. cancellable. Qed.

Ltac parsed_question parser_lemma :=
  apply Cancellable_bind;
  [ apply Cancellable_ask_question;
    let parse := fresh "parse" in
    let H := fresh "H" in
    intros parse ? ? H; inversion H; subst parse; apply parser_lemma
  | intros ?; try apply Cancellable_assert_parsed ].

Lemma Cancellable_prompt_team_nick :
  Cancellable interaction fuel (_prompt_team_nick fuel interaction).
Proof.
  unfold _prompt_team_nick. apply Cancellable_bind.
  - apply Cancellable_ask_question. intros parse c m H. discriminate H.
  - intros [| text | []]; apply Cancellable_ret.
Qed.

Lemma Cancellable_prompt_role :
  Cancellable interaction fuel (_prompt_role fuel interaction).
Proof. unfold _prompt_role. parsed_question Cancellable_role_parser. Qed.

Lemma Cancellable_prompt_category :
  Cancellable interaction fuel (_prompt_category fuel interaction).
Proof. unfold _prompt_category. parsed_question Cancellable_category_parser. Qed.

Lemma Cancellable_prompt_channel category :
  Cancellable interaction fuel (_prompt_channel fuel interaction category).
Proof. unfold _prompt_channel. parsed_question Cancellable_channel_parser. Qed.

Lemma Cancellable_prompt_member label :
  Cancellable interaction fuel (_prompt_member fuel interaction label).
Proof. unfold _prompt_member. parsed_question Cancellable_member_parser. Qed.

Lemma Cancellable_prompt_member_group label require_entry :
  Cancellable interaction fuel
    (_prompt_member_group fuel interaction label require_entry).
Proof.
  unfold _prompt_member_group. cbv zeta.
  parsed_question Cancellable_group_parser. cancellable.
Qed.

Lemma Cancellable_prompt_year :
  Cancellable interaction fuel (_prompt_year fuel interaction).
Proof. unfold _prompt_year. parsed_question Cancellable_year_parser. Qed.

Lemma Cancellable_prompt_seniority :
  Cancellable interaction fuel (_prompt_seniority fuel interaction).
Proof. unfold _prompt_seniority. parsed_question Cancellable_seniority_parser. Qed.

Lemma first_completed_taken evs :
  exists taken,
    evs = (taken ++ snd (first_completed interaction evs))%list
    /\ (existsb (ends_run interaction) taken = false
        \/ exit_task (fst (first_completed interaction evs)) = Done true
        \/ view_value (fst (first_completed interaction evs)) = None).
Proof.
  induction evs as [|[m|user choice|] evs IH]; simpl.
  - exists []. auto.
  - destruct (exit_check interaction m) eqn:Hm.
    + exists [EMessage m]. simpl. auto.
    + destruct IH as (taken & He & Hc). exists (EMessage m :: taken). simpl.
      rewrite Hm. simpl. split; [now f_equal|exact Hc].
  - destruct (user =? user_id interaction).
    + exists [ESelect user choice]. simpl. auto.
    + destruct IH as (taken & He & Hc). exists (ESelect user choice :: taken).
      simpl. split; [now f_equal|exact Hc].
  - exists [ETimeout]. simpl. auto.
Qed.

Lemma Cancellable_prompt_semester :
  Cancellable interaction fuel (_prompt_semester interaction).
Proof.
  unfold _prompt_semester.
  apply Cancellable_bind; [apply Cancellable_send|intros _].
  intros w. unfold bind, wait_semester_tasks.
  destruct (first_completed_taken (events w)) as (taken & He & Hc).
  destruct (first_completed interaction (events w)) as [race rest]. simpl in *.
  exists taken.
  unfold semester_result, cancel_pending. simpl.
  destruct (exit_task race) as [[]| |] eqn:Hexit; simpl;
    destruct (view_value race) as [v|] eqn:Hv; simpl;
    (split; [exact He|]); (split; [|intros _; discriminate]);
    try (right; eexists; reflexivity);
    destruct Hc as [H|[H|H]]; try discriminate H; now left.
Qed.

Lemma Cancellable_field_map draft key handler :
  field_map fuel interaction draft key = Some handler ->
  Cancellable interaction fuel handler.
Proof.
  unfold field_map.
  repeat match goal with
  | |- context [(key =? ?lit)%string] =>
      destruct (key =? lit)%string;
        [intros H; inversion H; subst handler;
         apply Cancellable_bind; [|intros ?; apply Cancellable_ret];
         first [ apply Cancellable_prompt_team_nick | apply Cancellable_prompt_role
               | apply Cancellable_prompt_category | apply Cancellable_prompt_channel
               | apply Cancellable_prompt_member | apply Cancellable_prompt_member_group
               | apply Cancellable_prompt_year | apply Cancellable_prompt_semester
               | apply Cancellable_prompt_seniority ] | ]
  end.
  discriminate.
Qed.

Lemma Cancellable_review_loop n draft :
  (n <= fuel)%nat ->
  Cancellable interaction n (review_loop fuel interaction n draft).
Proof.
  revert draft. induction n as [|n IH]; intros draft Hle;
    [apply Cancellable_out_of_fuel|].
  simpl review_loop.
  apply Cancellable_bind; [apply Cancellable_send|intros _].
  apply (Cancellable_reply n PyStr.strip
           (fun message =>
              let content := PyStr.strip (content message) in
              if (PyStr.lower content =? "confirm")%string then ret draft
              else
                match field_map fuel interaction draft (PyStr.lower content) with
                | None =>
                    bind (send "Unknown field. Please try again.")
                      (fun _ => review_loop fuel interaction n draft)
                | Some handler =>
                    bind handler
                      (fun result =>
                         review_loop fuel interaction n
                           (assign (PyStr.lower content) result draft))
                end)).
  - apply should_exit_strip.
  - intros message. cbv zeta.
    destruct (_ =? "confirm")%string; [apply Cancellable_ret|].
    destruct (field_map fuel interaction draft _) as [handler|] eqn:Hmap.
    + apply Cancellable_bind.
      * apply (Cancellable_weaken fuel); [lia|].
        eapply Cancellable_field_map. exact Hmap.
      * intros result. apply IH. lia.
    + apply Cancellable_bind; [apply Cancellable_send|].
      intros _. apply IH. lia.
Qed.

Lemma Cancellable_ensure_captain draft :
  Cancellable interaction fuel (_ensure_captain_assignment draft).
Proof. unfold _ensure_captain_assignment. cancellable. Qed.

Lemma Cancellable_collect :
  Cancellable interaction fuel (_collect_team_data fuel interaction).
Proof.
  unfold _collect_team_data. cbv zeta.
  apply Cancellable_bind; [apply Cancellable_prompt_team_nick|intros nick].
  apply Cancellable_bind; [apply Cancellable_prompt_role|intros r].
  apply Cancellable_bind; [apply Cancellable_prompt_category|intros cat].
  apply Cancellable_bind; [apply Cancellable_prompt_channel|intros ch].
  apply Cancellable_bind; [apply Cancellable_prompt_member|intros cap].
  apply Cancellable_bind; [apply Cancellable_prompt_member_group|intros group1].
  apply Cancellable_bind; [apply Cancellable_prompt_member_group|intros group2].
  apply Cancellable_bind; [apply Cancellable_ensure_captain|intros draft].
  apply Cancellable_bind; [apply Cancellable_prompt_year|intros y].
  apply Cancellable_bind; [apply Cancellable_prompt_semester|intros sem].
  apply Cancellable_bind; [apply Cancellable_prompt_seniority|intros sen].
  unfold _review_answers. apply Cancellable_review_loop. lia.
Qed.

End WithFuel.
End Steps.
End CancelFacts.

Lemma finalize_not_out_of_fuel interaction set_iteration draft db :
  fst (fst (create_team._finalize_team interaction set_iteration draft db))
  <> OutOfFuel.
Proof.
  unfold create_team._finalize_team.
  destruct (role draft), (channel draft), (category draft), (captain draft),
    (year draft) as [y|], (semester draft) as [sem|], (seniority draft);
    try discriminate.
  destruct ((y =? 0) || negb (PyStr.nonempty sem))%bool; [discriminate|].
  destruct (Db.run_in_transaction _ db) as [[[]|e] db']; discriminate.
Qed.

(** C3.  At each of the three places where the wizard waits for a
    reply (a question, a yes/no confirmation, the review summary): when
    the wait times out, the loop raises [ConversationCancelled] with the
    time-out text; when the reply, trimmed and lower-cased, is "exit" or
    "(exit)", it raises [ConversationCancelled] with the cancellation
    text; in neither case any other exception.  For the command as a
    whole: whenever one of the events the wizard took is a timeout or a
    cancellation message of the operator, the command ends as cancelled,
    no draft reaches the finalizer, the tables are what they were and no
    role has been granted.  The command never runs out of fuel. *)
Theorem cancel_or_timeout_unwinds_before_any_write
    set_iteration interaction fuel n w script db :
  let next := wait_for_message (create_team.reply_check interaction) (events w) in
  (fst next = None ->
   (forall A allow_na (parser : option (string -> Message -> M A)),
      fst (create_team.ask_loop interaction (S n) allow_na parser w) = create_team.timed_out)
   /\ fst (create_team.confirm_loop interaction (S n) w) = create_team.timed_out
   /\ (forall draft,
         fst (create_team.review_loop fuel interaction (S n) draft w) = create_team.timed_out))
  /\ (forall message,
        fst next = Some message ->
        in_strings (PyStr.lower (PyStr.strip (content message))) ["exit"; "(exit)"]
          = true ->
        (forall A allow_na (parser : option (string -> Message -> M A)),
           fst (create_team.ask_loop interaction (S n) allow_na parser w) = create_team.cancelled_by_user)
        /\ fst (create_team.confirm_loop interaction (S n) w) = create_team.cancelled_by_user
        /\ (forall draft,
              fst (create_team.review_loop fuel interaction (S n) draft w)
              = create_team.cancelled_by_user))
  /\ (exists outcome w' db' granted taken,
        create_team.create_team set_iteration interaction true true script db
          = (outcome, w', db', granted)
        /\ script = (taken ++ events w')%list
        /\ outcome <> create_team.CollectFailed None
        /\ (existsb (create_team.ends_run interaction) taken = true ->
            (exists reason, outcome = create_team.CollectCancelled reason)
            /\ db' = db /\ granted = [])).
Proof.
  intros next. unfold create_team.timed_out, create_team.cancelled_by_user.
  split; [|split].
  - intros Hnext. unfold next in Hnext.
    destruct (wait_for_message _ (events w)) as [[m|] rest] eqn:E;
      [discriminate|].
    repeat split; intros; simpl; unfold bind; simpl;
      rewrite ?(wait_for_reply_timeout interaction _ rest) by exact E;
      reflexivity.
  - intros message Hnext Hexit. unfold next in Hnext.
    destruct (wait_for_message _ (events w)) as [[m|] rest] eqn:E;
      [|discriminate].
    simpl in Hnext. inversion Hnext; subst m.
    assert (H1 : create_team._should_exit (PyStr.strip (content message)) = true).
    { rewrite CancelFacts.should_exit_strip. exact Hexit. }
    assert (H2 : create_team._should_exit
                   (PyStr.lower (PyStr.strip (content message))) = true).
    { rewrite CancelFacts.should_exit_lower_strip. exact Hexit. }
    repeat split; intros; simpl; unfold bind; simpl;
      rewrite ?(wait_for_reply_got interaction _ message rest) by exact E;
      rewrite ?H1, ?H2; reflexivity.
  - unfold create_team.create_team. simpl negb. cbv iota.
    set (w0 := create_team.say _ (create_team.initial_world script)).
    destruct (CancelFacts.Cancellable_collect interaction (S (length script)) w0)
      as (taken & He & Hc & Hf).
    unfold create_team.is_cancelled in Hc.
    destruct (create_team._collect_team_data (S (length script)) interaction w0)
      as [[draft|e|] w1] eqn:E; simpl in He, Hc, Hf.
    + assert (Hb : existsb (create_team.ends_run interaction) taken = false).
      { destruct Hc as [H|[reason H]]; [exact H|discriminate H]. }
      pose proof (finalize_not_out_of_fuel interaction set_iteration draft db) as Hfin.
      destruct (create_team._finalize_team interaction set_iteration draft db)
        as [[[warnings|exc|] db'] granted]; simpl in Hfin; [| |congruence].
      * do 4 eexists. exists taken. split; [reflexivity|]. simpl.
        split; [exact He|]. split; [discriminate|]. rewrite Hb. discriminate.
      * destruct exc; do 4 eexists; exists taken; (split; [reflexivity|]); simpl;
          (split; [exact He|]); (split; [discriminate|]); rewrite Hb; discriminate.
    + destruct e; do 4 eexists; exists taken; (split; [reflexivity|]); simpl;
        (split; [exact He|]); (split; [discriminate|]); intros Hb;
        try (destruct Hc as [H|[reason H]];
             [rewrite H in Hb; discriminate Hb|discriminate H]).
      split; [eexists; reflexivity|]. auto.
    + exfalso. apply Hf; [|reflexivity]. simpl. lia.
Qed.

(** * Further properties of the wizard *)

(** ** Deduplication *)
Module DedupeMore.
Import create_team Contracts.

Lemma dedupe_from_ext seen seen' group :
  (forall x, In x seen <-> In x seen') ->
  dedupe_from seen group = dedupe_from seen' group.
Proof.
  revert seen seen'. induction group as [|m group IH]; intros s s' H; [reflexivity|].
  simpl.
  assert (Hb : existsb (Z.eqb (member_id m)) s = existsb (Z.eqb (member_id m)) s').
  { destruct (existsb (Z.eqb (member_id m)) s) eqn:E1;
      destruct (existsb (Z.eqb (member_id m)) s') eqn:E2; try reflexivity.
    - apply DedupeFacts.seen_spec, H, DedupeFacts.seen_spec in E1. congruence.
    - apply DedupeFacts.seen_spec, H, DedupeFacts.seen_spec in E2. congruence. }
  rewrite Hb. destruct (existsb _ s'); [now apply IH|].
  f_equal. apply IH. intros x. simpl. rewrite H. tauto.
Qed.

Lemma dedupe_from_subsequence seen group :
  subsequence (dedupe_from seen group) group.
Proof.
  revert seen. induction group as [|m group IH]; intros seen; simpl; [constructor|].
  destruct (existsb _ seen); constructor; apply IH.
Qed.

Lemma dedupe_from_first seen group m :
  In m (dedupe_from seen group) ->
  find (fun x => member_id x =? member_id m) group = Some m.
Proof.
  revert seen. induction group as [|x group IH]; intros seen H; [destruct H|].
  simpl in *. destruct (existsb (Z.eqb (member_id x)) seen) eqn:E.
  - destruct (Z.eqb_spec (member_id x) (member_id m)) as [Heq|Hne].
    + exfalso. apply (in_map member_id) in H.
      apply DedupeFacts.dedupe_from_ids in H as [_ H]. apply H.
      rewrite <- Heq. now apply DedupeFacts.seen_spec.
    + eapply IH; eassumption.
  - destruct H as [->|H]; [now rewrite Z.eqb_refl|].
    destruct (Z.eqb_spec (member_id x) (member_id m)) as [Heq|Hne].
    + exfalso. apply (in_map member_id) in H.
      apply DedupeFacts.dedupe_from_ids in H as [_ H]. apply H. simpl. auto.
    + eapply IH; eassumption.
Qed.

Lemma add_member_fold group entries seen :
  (forall x, In x seen <-> In x (ids entries)) ->
  let result :=
    fold_left (fun acc m => add_member (Some m) acc) group (entries, seen) in
  fst result = (entries ++ dedupe_from seen group)%list
  /\ (forall x, In x (snd result) <-> In x (ids (fst result))).
Proof.
  revert entries seen. induction group as [|m group IH]; intros entries seen H.
  - simpl. rewrite app_nil_r. auto.
  - cbn [fold_left dedupe_from].
    destruct (existsb (Z.eqb (member_id m)) seen) eqn:E.
    + assert (Hstep : add_member (Some m) (entries, seen) = (entries, seen))
        by (unfold add_member; simpl; now rewrite E).
      rewrite Hstep. apply IH. exact H.
    + assert (Hstep : add_member (Some m) (entries, seen)
                      = ((entries ++ [m])%list, (seen ++ [member_id m])%list))
        by (unfold add_member; simpl; now rewrite E).
      rewrite Hstep.
      assert (H' : forall x, In x (seen ++ [member_id m])%list
                       <-> In x (ids (entries ++ [m])%list)).
      { intros x. unfold ids. rewrite map_app, !in_app_iff. simpl.
        rewrite H. unfold ids. tauto. }
      destruct (IH _ _ H') as [H1 H2]. split; [|exact H2].
      rewrite H1, <- app_assoc. simpl. do 2 f_equal.
      apply dedupe_from_ext. intros x. rewrite in_app_iff. simpl. tauto.
Qed.

End DedupeMore.

(** X1.  [_dedupe_members] returns a list without repeated ids that
    carries the same ids as its argument, keeps for each id the first
    member that has it, keeps the members in their order, changes
    nothing in a list that has no repeated id, and so changes nothing
    when applied a second time. *)
Theorem dedupe_members_keeps_first_of_each_id group :
  let unique := create_team._dedupe_members group in
  NoDup (Contracts.ids unique)
  /\ (forall discord_id,
        In discord_id (Contracts.ids unique) <-> In discord_id (Contracts.ids group))
  /\ (forall m, In m unique ->
        find (fun x => member_id x =? member_id m) group = Some m)
  /\ Contracts.subsequence unique group
  /\ (NoDup (Contracts.ids group) -> unique = group)
  /\ create_team._dedupe_members unique = unique.
Proof.
  unfold create_team._dedupe_members, Contracts.ids. repeat split.
  - apply DedupeFacts.dedupe_from_NoDup.
  - intros H. now apply DedupeFacts.dedupe_from_ids in H.
  - intros H. apply DedupeFacts.dedupe_from_ids. split; [exact H|intros []].
  - apply DedupeMore.dedupe_from_first.
  - apply DedupeMore.dedupe_from_subsequence.
  - intros H. apply DedupeFacts.dedupe_from_fixed; [exact H|]. intros ? _ [].
  - apply DedupeFacts.dedupe_from_fixed; [apply DedupeFacts.dedupe_from_NoDup|].
    intros ? _ [].
Qed.

(** ** Contracts of the conversation steps *)
Module PostFacts.
Import create_team Contracts Answers.

Lemma Post_ret {A} (Q : A -> Prop) E a : Q a -> Post Q E (ret a).
Proof. intros H w. exact H. Qed.

Lemma Post_raise {A} (Q : A -> Prop) (E : Exn -> Prop) e : E e -> Post Q E (raise e).
Proof. intros H w. exact H. Qed.

Lemma Post_send (Q : unit -> Prop) E text : Q tt -> Post Q E (send text).
Proof. intros H w. exact H. Qed.

Lemma Post_out_of_fuel {A} (Q : A -> Prop) E : Post Q E out_of_fuel.
Proof. intros w. exact I. Qed.

Lemma Post_bind {A B} (Q1 : A -> Prop) (Q : B -> Prop) E f g :
  Post Q1 E f -> (forall a, Q1 a -> Post Q E (g a)) -> Post Q E (bind f g).
Proof.
  intros Hf Hg w. specialize (Hf w). unfold bind.
  destruct (f w) as [[a|e|] w1]; simpl in *; [|exact Hf|exact I].
  apply (Hg a Hf w1).
Qed.

Lemma Post_send_then {B} (Q : B -> Prop) E text (k : unit -> M B) :
  Post Q E (k tt) -> Post Q E (bind (send text) k).
Proof.
  intros H. apply (Post_bind (fun _ => True)); [intros w; exact I|].
  intros [] _. exact H.
Qed.

Lemma Post_weaken {A} (Q Q' : A -> Prop) (E E' : Exn -> Prop) f :
  (forall a, Q a -> Q' a) -> (forall e, E e -> E' e) -> Post Q E f -> Post Q' E' f.
Proof.
  intros HQ HE H w. specialize (H w).
  destruct (fst (f w)); [now apply HQ|now apply HE|exact I].
Qed.

Lemma Post_split {A} (Q : A -> Prop) E (f : M A) :
  Post (fun _ => True) E f ->
  (forall w a w', f w = (Ok a, w') -> Q a) ->
  Post Q E f.
Proof.
  intros H HQ w. specialize (H w). destruct (f w) as [[a|e|] w'] eqn:Ef; simpl in *;
    [eapply HQ; eassumption|exact H|exact I].
Qed.

Lemma Post_catch {A} (Q : A -> Prop) c h :
  Post Q parser_exception c ->
  (forall msg, Post Q question_exception (h msg)) ->
  Post Q question_exception (catch_validation c h).
Proof.
  intros Hc Hh w. specialize (Hc w). unfold catch_validation.
  destruct (c w) as [[a|[msg|r|m|m|]|] w1]; simpl in *;
    try exact Hc; try exact I.
  apply Hh.
Qed.

Lemma question_is_parser e : question_exception e -> parser_exception e.
Proof. destruct e; simpl; auto. Qed.

Lemma digits_value_nonneg s acc :
  PyStr.all_chars PyStr.isdecimal_char s = true -> 0 <= acc ->
  0 <= PyStr.digits_value acc s.
Proof.
  revert acc. induction s as [|c s IH]; intros acc Hs Hacc;
    cbn [PyStr.digits_value]; [exact Hacc|].
  simpl in Hs. apply andb_true_iff in Hs as [Hc Hs]. apply IH; [exact Hs|].
  unfold PyStr.isdecimal_char, PyStr.between in Hc.
  apply andb_true_iff in Hc as [Hlo _]. apply N.leb_le in Hlo.
  unfold PyStr.code in *. lia.
Qed.

Lemma int_nonneg s n : PyStr.int s = Some n -> 0 <= n.
Proof.
  unfold PyStr.int. destruct (PyStr.isdecimal s) eqn:E; [|discriminate].
  intros H. inversion H. unfold PyStr.isdecimal in E.
  apply andb_true_iff in E as [_ E]. apply digits_value_nonneg; [exact E|lia].
Qed.

Lemma Post_py_int s :
  Post (fun n => 0 <= n) question_exception (py_int s).
Proof.
  intros w. unfold py_int. destruct (PyStr.int s) as [n|] eqn:E; simpl;
    [now apply int_nonneg in E|exact I].
Qed.

Ltac post_if :=
  match goal with
  | |- Contracts.Post _ _ (if ?b then _ else _) => destruct b eqn:?
  end.

Section Steps.
Variable interaction : Interaction.

Lemma Post_wait_for_reply :
  Post (fun _ => True) question_exception (_wait_for_reply interaction).
Proof.
  intros w. unfold _wait_for_reply.
  destruct (wait_for_message _ (events w)) as [[m|] rest]; exact I.
Qed.

Lemma Post_confirm_loop n :
  Post (fun _ => True) question_exception (confirm_loop interaction n).
Proof.
  induction n as [|n IH]; [apply Post_out_of_fuel|]. simpl confirm_loop.
  eapply Post_bind; [apply Post_wait_for_reply|intros message _]. cbv beta zeta.
  post_if; [apply Post_raise; exact I|].
  post_if; [apply Post_ret; exact I|].
  post_if; [apply Post_ret; exact I|].
  apply Post_send_then; exact IH.
Qed.

Lemma Post_ask_loop {A} (Qp : A -> Prop) n allow_na
    (parser : option (string -> Message -> M A)) :
  (forall parse content message,
     parser = Some parse -> Post Qp parser_exception (parse content message)) ->
  Post (answer_ok allow_na (has_parser parser) Qp) question_exception
    (ask_loop interaction n allow_na parser).
Proof.
  intros Hparser. induction n as [|n IH]; [apply Post_out_of_fuel|].
  simpl ask_loop.
  eapply Post_bind; [apply Post_wait_for_reply|intros message _]. cbv beta zeta.
  post_if; [apply Post_raise; exact I|].
  destruct allow_na; simpl andb.
  - post_if; [apply Post_ret; reflexivity|].
    destruct parser as [parse|].
    + apply Post_catch.
      * eapply Post_bind; [now apply Hparser|].
        intros a Ha. apply Post_ret. simpl. auto.
      * intros exc. apply Post_send_then; exact IH.
    + destruct (PyStr.nonempty (PyStr.strip (content message))) eqn:En.
      * apply Post_ret. simpl. split; [reflexivity|]. split.
        -- intros H. rewrite H in En. discriminate.
        -- apply PyStrFacts.strip_idem.
      * apply Post_send_then; exact IH.
  - destruct parser as [parse|].
    + apply Post_catch.
      * eapply Post_bind; [now apply Hparser|].
        intros a Ha. apply Post_ret. simpl. auto.
      * intros exc. apply Post_send_then; exact IH.
    + destruct (PyStr.nonempty (PyStr.strip (content message))) eqn:En.
      * apply Post_ret. simpl. split; [reflexivity|]. split.
        -- intros H. rewrite H in En. discriminate.
        -- apply PyStrFacts.strip_idem.
      * apply Post_send_then; exact IH.
Qed.

Section WithFuel.
Variable fuel : nat.

Lemma Post_confirm prompt :
  Post (fun _ => True) parser_exception (_confirm fuel interaction prompt).
Proof.
  unfold _confirm.
  apply Post_send_then.
  eapply Post_weaken; [| |apply Post_confirm_loop]; auto using question_is_parser.
Qed.

Lemma Post_ask_question {A} (Qp : A -> Prop) prompt allow_na
    (parser : option (string -> Message -> M A)) :
  (forall parse content message,
     parser = Some parse -> Post Qp parser_exception (parse content message)) ->
  Post (answer_ok allow_na (has_parser parser) Qp) question_exception
    (_ask_question fuel interaction prompt allow_na parser).
Proof.
  intros H. unfold _ask_question.
  apply Post_send_then.
  now apply Post_ask_loop.
Qed.

(** After a question with a parser and without skips the assertion on
    the answer's type holds. *)
Lemma Post_parsed_question {A} (Qp : A -> Prop) prompt
    (parse : string -> Message -> M A) :
  (forall content message, Post Qp parser_exception (parse content message)) ->
  Post Qp question_exception
    (bind (_ask_question fuel interaction prompt false (Some parse)) assert_parsed).
Proof.
  intros H. eapply Post_bind.
  - apply (Post_ask_question Qp). intros p c m Hp. inversion Hp; subst. apply H.
  - intros [| s | a]; simpl.
    + discriminate.
    + intros [Hf _]. discriminate.
    + intros [_ Ha]. apply Post_ret. exact Ha.
Qed.

End WithFuel.
End Steps.
End PostFacts.

(** ** Contracts of the parsers *)
Module ParserFacts.
Import create_team Contracts Answers PostFacts.

Lemma Post_py_int_parser s :
  Post (fun _ => True) parser_exception (py_int s).
Proof.
  eapply Post_weaken; [| |apply Post_py_int]; auto using question_is_parser.
Qed.

Section Parsers.
Variable fuel : nat.
Variable interaction : Interaction.

Ltac post_true_step :=
  first
    [ apply Post_ret; exact I
    | apply Post_raise; exact I
    | apply Post_confirm
    | apply Post_py_int_parser
    | apply Post_send_then
    | apply (Post_bind (fun _ => True)); [|intros ? _]
    | post_if
    | match goal with
      | |- Post _ _ (match ?x with _ => _ end) => destruct x eqn:?
      end
    | progress cbv beta zeta ].

Ltac post_true := repeat post_true_step.

Lemma Post_role_parser content message :
  Post (fun _ => True) parser_exception
    (role_parser fuel interaction content message).
Proof. unfold role_parser. post_true. Qed.

Lemma Post_category_parser content message :
  Post (fun _ => True) parser_exception
    (category_parser fuel interaction content message).
Proof. unfold category_parser. post_true. Qed.

Lemma Post_channel_parser category content message :
  Post (fun _ => True) parser_exception
    (channel_parser fuel interaction category content message).
Proof. unfold channel_parser. post_true. Qed.

Lemma Post_member_parser label content message :
  Post (fun _ => True) parser_exception
    (member_parser fuel interaction label content message).
Proof. unfold member_parser. post_true. Qed.

Lemma Post_add_tokens toks acc :
  Post (fun _ => True) parser_exception (add_tokens interaction toks acc).
Proof.
  revert acc. induction toks as [|token toks IH]; intros acc; simpl.
  - apply Post_ret. exact I.
  - destruct (PyStr.isdigit token); [|apply IH].
    apply (Post_bind (fun _ => True)); [apply Post_py_int_parser|intros discord_id _].
    apply (Post_bind (fun _ => True)); [post_true|intros member _; apply IH].
Qed.

Lemma Post_group_parser_raises label content message :
  Post (fun _ => True) parser_exception
    (group_parser fuel interaction label content message).
Proof.
  unfold group_parser. cbv zeta.
  apply (Post_bind (fun _ => True)); [apply Post_add_tokens|intros acc _].
  post_true.
Qed.

Lemma Post_year_parser_raises content message :
  Post (fun _ => True) parser_exception (year_parser content message).
Proof. unfold year_parser. post_true. Qed.

Lemma Post_seniority_parser_raises content message :
  Post (fun _ => True) parser_exception (seniority_parser content message).
Proof. unfold seniority_parser. post_true. Qed.

(** The token loop of the group parser, when it does not raise, has
    added the members the tokens stand for, in order, and sent nothing. *)
Lemma add_tokens_ok toks acc w acc' w' :
  add_tokens interaction toks acc w = (Ok acc', w') ->
  acc' = fold_left (fun a m => add_member (Some m) a)
           (flat_map (resolve interaction) toks) acc
  /\ w' = w.
Proof.
  revert acc. induction toks as [|token toks IH]; intros acc H.
  - inversion H. auto.
  - cbn [add_tokens flat_map] in *. rewrite fold_left_app. unfold resolve at 2.
    destruct (PyStr.isdigit token); [|now apply IH].
    unfold bind at 1, py_int in H.
    destruct (PyStr.int token) as [discord_id|]; [|discriminate H].
    cbn [ret] in H. unfold bind at 1 in H.
    destruct (get_member interaction discord_id) as [cached|].
    + cbn [ret] in H. now apply IH.
    + destruct (fetch_member (guild interaction) discord_id) as [fetched|[t|t|t]];
        cbn [ret raise] in H; try discriminate H; now apply IH.
Qed.

Lemma group_parser_ok label content message w entries w' :
  group_parser fuel interaction label content message w = (Ok entries, w') ->
  entries
  = _dedupe_members
      (mentions message
       ++ flat_map (resolve interaction) (PyStr.tokens (PyStr.strip content)))%list
  /\ entries <> [].
Proof.
  unfold group_parser. cbv zeta. intros H.
  apply bind_ok_inv in H as (acc & w1 & Htok & H).
  apply add_tokens_ok in Htok as [-> ->].
  rewrite <- fold_left_app in H.
  destruct (DedupeMore.add_member_fold
              (mentions message
               ++ flat_map (resolve interaction)
                    (PyStr.tokens (PyStr.strip content)))%list [] [])
    as [Hfst _]; [simpl; tauto|].
  cbv zeta in Hfst. cbn [app] in Hfst. rewrite Hfst in H. unfold _dedupe_members.
  destruct (dedupe_from [] _) as [|first others] eqn:Ed; [discriminate H|].
  apply bind_ok_inv in H as (ok & w2 & _ & H).
  destruct ok; [|discriminate H]. inversion H. split; [reflexivity|discriminate].
Qed.

End Parsers.
End ParserFacts.

(** X2.  When the group parser accepts a reply, the list it returns is
    [_dedupe_members] of the mentioned members followed by the members
    that the numeric tokens of the trimmed text stand for (cache first,
    then directory; unknown ids and other tokens give nothing).  So it
    is not empty, has no repeated id (a member mentioned and also given
    by id appears once), and the deduplication pass of
    [_collect_team_data] leaves it as it is. *)
Theorem group_parser_returns_deduplicated_mentions_then_ids
    fuel interaction label content message w entries w' :
  create_team.group_parser fuel interaction label content message w
    = (Ok entries, w') ->
  entries
  = create_team._dedupe_members
      (mentions message
       ++ flat_map (Contracts.resolve interaction)
            (PyStr.tokens (PyStr.strip content)))%list
  /\ entries <> []
  /\ NoDup (Contracts.ids entries)
  /\ create_team._dedupe_members entries = entries.
Proof.
  intros H. apply ParserFacts.group_parser_ok in H as [-> Hne].
  split; [reflexivity|]. split; [exact Hne|].
  pose proof (DedupeFacts.dedupe_from_NoDup []
    (mentions message
     ++ flat_map (Contracts.resolve interaction)
          (PyStr.tokens (PyStr.strip content)))%list) as Hnd.
  split; [exact Hnd|].
  unfold create_team._dedupe_members.
  apply DedupeFacts.dedupe_from_fixed; [exact Hnd|]. intros ? _ [].
Qed.

(** ** Contracts of the prompts and of the collection *)
Module PromptFacts.
Import create_team Contracts Answers PostFacts ParserFacts.

Lemma collected_intro d r cat ch cap y sem sen :
  role d = Some r -> category d = Some cat -> channel d = Some ch ->
  captain d = Some cap -> year d = Some y -> semester d = Some sem ->
  seniority d = Some sen ->
  2000 <= y <= 2100 -> (exists choice, sem = option_label choice) -> 0 <= sen ->
  label_ok (team_nick d) -> starters d <> [] ->
  NoDup (ids (starters d)) -> NoDup (ids (substitutes d)) ->
  collected d.
Proof.
  intros Hr Hcat Hch Hcap Hy Hsem Hsen Hrange Hlabel Hnonneg Hl Hs Hn1 Hn2.
  split; [|auto]. exists r, cat, ch, cap, y, sem, sen.
  split; [|auto]. unfold ready. repeat split; auto.
  - lia.
  - destruct Hlabel as [[] ->]; discriminate.
Qed.

Lemma collected_elim d :
  collected d ->
  exists r cat ch cap y sem sen,
    role d = Some r /\ category d = Some cat /\ channel d = Some ch
    /\ captain d = Some cap /\ year d = Some y /\ semester d = Some sem
    /\ seniority d = Some sen
    /\ 2000 <= y <= 2100 /\ (exists choice, sem = option_label choice) /\ 0 <= sen
    /\ label_ok (team_nick d) /\ starters d <> []
    /\ NoDup (ids (starters d)) /\ NoDup (ids (substitutes d)).
Proof.
  intros ((r & cat & ch & cap & y & sem & sen & Hready & Hy & Hsem & Hsen)
          & Hl & Hs & Hn1 & Hn2).
  destruct Hready as (H1 & H2 & H3 & H4 & H5 & _ & H7 & _ & H9).
  exists r, cat, ch, cap, y, sem, sen. repeat split; auto; lia.
Qed.

Ltac recollect H :=
  apply collected_elim in H
    as (r0 & cat0 & ch0 & cap0 & y0 & sem0 & sen0 & Hr0 & Hcat0 & Hch0 & Hcap0
        & Hy0 & Hsem0 & Hsen0 & Hrange0 & Hlabel0 & Hnonneg0 & Hl0 & Hs0
        & Hn10 & Hn20);
  eapply collected_intro; simpl; eauto.

Lemma year_parser_range content message w y w' :
  year_parser content message w = (Ok y, w') -> 2000 <= y <= 2100.
Proof.
  rewrite year_parser_cases.
  destruct (negb (PyStr.isdigit content)); [discriminate|].
  destruct (PyStr.int content) as [n|]; [|discriminate].
  destruct (Z.ltb_spec n 2000) as [Hlo|Hlo]; [discriminate|].
  destruct (Z.gtb_spec n 2100) as [Hhi|Hhi]; [discriminate|].
  simpl. intros Hok. inversion Hok. subst. lia.
Qed.

Lemma seniority_parser_nonneg content message w n w' :
  seniority_parser content message w = (Ok n, w') -> 0 <= n.
Proof.
  unfold seniority_parser. destruct (negb (PyStr.isdigit content)); [discriminate|].
  unfold py_int. destruct (PyStr.int content) as [k|] eqn:E; [|discriminate].
  intros H. inversion H. subst. now apply int_nonneg in E.
Qed.

Lemma ensure_captain_keeps draft w :
  exists fixed w',
    _ensure_captain_assignment draft w = (Ok fixed, w')
    /\ team_nick fixed = team_nick draft /\ role fixed = role draft
    /\ category fixed = category draft /\ channel fixed = channel draft
    /\ captain fixed = captain draft /\ substitutes fixed = substitutes draft
    /\ year fixed = year draft /\ semester fixed = semester draft
    /\ seniority fixed = seniority draft
    /\ (starters draft <> [] -> starters fixed <> [])
    /\ (NoDup (ids (starters draft)) -> NoDup (ids (starters fixed))).
Proof.
  unfold _ensure_captain_assignment.
  destruct (captain draft) as [cap|] eqn:Hcap;
    [|exists draft, w; repeat split; auto].
  destruct (has_id (member_id cap) (substitutes draft));
    [exists draft, w; repeat split; auto|].
  destruct (has_id (member_id cap) (starters draft)) eqn:Hst;
    [exists draft, w; repeat split; auto|].
  eexists. eexists. split; [reflexivity|]. simpl. repeat split; auto.
  - intros _ Happ. apply app_eq_nil in Happ as [_ Happ]. discriminate.
  - intros Hnd. unfold ids. rewrite map_app. simpl.
    apply NoDup_app; [exact Hnd|repeat constructor; intros []|].
    intros x Hx [<-|[]].
    apply DedupeFacts.has_id_spec in Hx. congruence.
Qed.

Section Prompts.
Variable fuel : nat.
Variable interaction : Interaction.

Lemma Post_prompt_team_nick :
  Post label_ok question_exception (_prompt_team_nick fuel interaction).
Proof.
  unfold _prompt_team_nick. eapply Post_bind.
  - apply (Post_ask_question interaction fuel (fun _ : Empty_set => True)).
    intros parse c m H. discriminate H.
  - intros [| s | []]; simpl.
    + intros _. apply Post_ret. exact I.
    + intros (_ & Hne & Hs). apply Post_ret. unfold normalize. rewrite Hs.
      rewrite (PyStrFacts.nonempty_true _ Hne). simpl. auto.
Qed.

Lemma Post_prompt_role :
  Post (fun _ => True) question_exception (_prompt_role fuel interaction).
Proof. apply Post_parsed_question. apply Post_role_parser. Qed.

Lemma Post_prompt_category :
  Post (fun _ => True) question_exception (_prompt_category fuel interaction).
Proof. apply Post_parsed_question. apply Post_category_parser. Qed.

Lemma Post_prompt_channel category :
  Post (fun _ => True) question_exception
    (_prompt_channel fuel interaction category).
Proof. apply Post_parsed_question. apply Post_channel_parser. Qed.

Lemma Post_prompt_member label :
  Post (fun _ => True) question_exception (_prompt_member fuel interaction label).
Proof. apply Post_parsed_question. apply Post_member_parser. Qed.

Lemma Post_prompt_year :
  Post (fun y => 2000 <= y <= 2100) question_exception
    (_prompt_year fuel interaction).
Proof.
  apply Post_parsed_question. intros c m.
  apply Post_split; [apply Post_year_parser_raises|].
  intros w y w'. apply year_parser_range.
Qed.

Lemma Post_prompt_seniority :
  Post (fun n => 0 <= n) question_exception (_prompt_seniority fuel interaction).
Proof.
  apply Post_parsed_question. intros c m.
  apply Post_split; [apply Post_seniority_parser_raises|].
  intros w n w'. apply seniority_parser_nonneg.
Qed.

Lemma Post_prompt_member_group label require_entry :
  Post (group_ok require_entry) question_exception
    (_prompt_member_group fuel interaction label require_entry).
Proof.
  unfold _prompt_member_group. cbv zeta. eapply Post_bind.
  - apply (Post_ask_question interaction fuel (group_ok true)).
    intros parse c m H. inversion H; subst.
    apply Post_split; [apply Post_group_parser_raises|].
    intros w entries w' Hok.
    apply group_parser_ok in Hok as [Hentries Hne].
    assert (Hnd : NoDup (ids entries))
      by (rewrite Hentries; apply DedupeFacts.dedupe_from_NoDup).
    repeat split; auto.
    apply DedupeFacts.dedupe_from_fixed; [exact Hnd|intros ? _ []].
  - intros [| s | entries]; simpl.
    + intros Hna. apply Post_ret. repeat split; [constructor|].
      intros Hreq. rewrite Hreq in Hna. discriminate.
    + intros [Hf _]. discriminate.
    + intros [_ (Hnd & Hfix & Hne)]. apply Post_ret. repeat split; auto.
Qed.

Lemma Post_prompt_semester :
  Post (fun s => exists choice, s = option_label choice) question_exception
    (_prompt_semester interaction).
Proof.
  unfold _prompt_semester. apply Post_send_then.
  intros w. unfold bind, wait_semester_tasks.
  pose proof (first_completed_shape interaction (events w)) as Hshape.
  destruct (first_completed interaction (events w)) as [race rest].
  simpl in Hshape. unfold semester_result, cancel_pending. simpl.
  destruct Hshape as [(He & _ & Hv)|[(He & _ & Hv)|(He & _ & [choice Hv])]];
    rewrite He, Hv; simpl; eauto.
Qed.

End Prompts.
End PromptFacts.

(** ** Contracts of the review and of the collection *)
Module CollectFacts.
Import create_team Contracts Answers PostFacts ParserFacts PromptFacts.

Section Collect.
Variable fuel : nat.
Variable interaction : Interaction.

Lemma Post_field_handler draft key handler :
  collected draft ->
  field_map fuel interaction draft key = Some handler ->
  Post (fun result => collected (assign key result draft)) question_exception
    handler.
Proof.
  intros Hc. unfold field_map.
  repeat match goal with
  | |- context [(key =? ?lit)%string] =>
      destruct (String.eqb_spec key lit);
        [subst key; intros Hmap; inversion Hmap; subst handler;
         eapply Post_bind;
         [ first [ apply Post_prompt_team_nick | apply Post_prompt_role
                 | apply Post_prompt_category | apply Post_prompt_channel
                 | apply Post_prompt_member
                 | apply (Post_prompt_member_group fuel interaction "starter" true)
                 | apply (Post_prompt_member_group fuel interaction "substitute" false)
                 | apply Post_prompt_year | apply Post_prompt_semester
                 | apply Post_prompt_seniority ]
         | intros v Hv; apply Post_ret; unfold assign; simpl;
           try (destruct Hv as (Hnd & Hfix & Hne); specialize (Hne eq_refl));
           try (destruct Hv as (Hnd & Hfix & Hne));
           recollect Hc ] | ]
  end.
  discriminate.
Qed.

Lemma Post_review_loop n draft :
  collected draft ->
  Post collected question_exception (review_loop fuel interaction n draft).
Proof.
  revert draft. induction n as [|n IH]; intros draft Hc; [apply Post_out_of_fuel|].
  simpl review_loop. apply Post_send_then.
  eapply Post_bind; [apply Post_wait_for_reply|intros message _]. cbv beta zeta.
  post_if; [apply Post_raise; exact I|].
  post_if; [apply Post_ret; exact Hc|].
  destruct (field_map fuel interaction draft _) as [handler|] eqn:Hmap.
  - eapply Post_bind; [eapply Post_field_handler; eassumption|].
    intros result Hres. apply IH. exact Hres.
  - apply Post_send_then. apply IH. exact Hc.
Qed.

Lemma Post_ensure_captain draft :
  Post (fun fixed =>
          team_nick fixed = team_nick draft /\ role fixed = role draft
          /\ category fixed = category draft /\ channel fixed = channel draft
          /\ captain fixed = captain draft /\ substitutes fixed = substitutes draft
          /\ year fixed = year draft /\ semester fixed = semester draft
          /\ seniority fixed = seniority draft
          /\ (starters draft <> [] -> starters fixed <> [])
          /\ (NoDup (ids (starters draft)) -> NoDup (ids (starters fixed))))
    question_exception (_ensure_captain_assignment draft).
Proof.
  intros w. destruct (ensure_captain_keeps draft w) as (fixed & w' & H & Hrest).
  rewrite H. exact Hrest.
Qed.

Lemma Post_collect :
  Post collected question_exception (_collect_team_data fuel interaction).
Proof.
  unfold _collect_team_data. cbv zeta.
  eapply Post_bind; [apply Post_prompt_team_nick|intros nick Hnick].
  eapply Post_bind; [apply Post_prompt_role|intros r _].
  eapply Post_bind; [apply Post_prompt_category|intros cat _].
  eapply Post_bind; [apply Post_prompt_channel|intros ch _].
  eapply Post_bind; [apply Post_prompt_member|intros cap _].
  eapply Post_bind;
    [apply (Post_prompt_member_group fuel interaction "starter" true)
    |intros g1 (Hnd1 & Hfix1 & Hne1)].
  eapply Post_bind;
    [apply (Post_prompt_member_group fuel interaction "substitute" false)
    |intros g2 (Hnd2 & Hfix2 & _)].
  eapply Post_bind; [apply Post_ensure_captain|].
  intros fixed (F1 & F2 & F3 & F4 & F5 & F6 & F7 & F8 & F9 & F10 & F11).
  simpl in F1, F2, F3, F4, F5, F6, F7, F8, F9, F10, F11.
  rewrite Hfix1 in F10, F11. rewrite Hfix2 in F6.
  eapply Post_bind; [apply Post_prompt_year|intros y Hy].
  eapply Post_bind; [apply Post_prompt_semester|intros sem Hsem].
  eapply Post_bind; [apply Post_prompt_seniority|intros sen Hsen].
  unfold _review_answers. apply Post_review_loop.
  eapply collected_intro; simpl; rewrite ?F1, ?F2, ?F3, ?F4, ?F5, ?F6; eauto.
Qed.

End Collect.
End CollectFacts.

(** How [_collect_team_data] ends: with a draft that satisfies the
    contract of the questions, or with an exception that is no
    [ValidationError], or out of fuel within the bound of the
    cancellation analysis. *)
Lemma collect_cases fuel interaction w :
  match fst (create_team._collect_team_data fuel interaction w) with
  | Ok draft => Answers.collected draft
  | Raise e => forall msg, e <> ValidationError msg
  | OutOfFuel => (fuel <= length (events w))%nat
  end.
Proof.
  pose proof (CollectFacts.Post_collect fuel interaction w) as Hpost.
  destruct (CancelFacts.Cancellable_collect interaction fuel w) as (_ & _ & _ & Hf).
  destruct (fst (create_team._collect_team_data fuel interaction w)) as [d|e|].
  - exact Hpost.
  - intros msg Heq. subst e. exact Hpost.
  - destruct (Nat.le_gt_cases fuel (length (events w))) as [Hle|Hgt]; [exact Hle|].
    exfalso. now apply Hf.
Qed.

(** X3.  Whenever [_collect_team_data] returns a draft, the draft is
    one that the finalizer's assertion accepts: role, category, channel,
    captain, year, semester and seniority are set, the year lies in
    2000..2100, the semester is one of the three options, the seniority
    is not negative, the label is absent or a non-empty trimmed text,
    there is at least one starter, and no id is repeated within the
    starters or within the substitutes.  A [ValidationError] never
    leaves [_collect_team_data]: the questions catch it and ask again.
    The loops only run out of fuel when given no more fuel than there
    are pending events. *)
Theorem collect_returns_only_finalizable_drafts fuel interaction w :
  match fst (create_team._collect_team_data fuel interaction w) with
  | Ok draft => Answers.collected draft
  | Raise e => forall msg, e <> ValidationError msg
  | OutOfFuel => (fuel <= length (events w))%nat
  end.
Proof.
  pose proof (CollectFacts.Post_collect fuel interaction w) as Hpost.
  destruct (CancelFacts.Cancellable_collect interaction fuel w) as (_ & _ & _ & Hf).
  destruct (fst (create_team._collect_team_data fuel interaction w)) as [d|e|].
  - exact Hpost.
  - intros msg Heq. subst e. exact Hpost.
  - destruct (Nat.le_gt_cases fuel (length (events w))) as [Hle|Hgt]; [exact Hle|].
    exfalso. now apply Hf.
Qed.

Lemma db_transaction_conflict draft r cat ch cap y sem sen db :
  Db.select_conflict (role_id r) (category_id cat) (channel_id ch) db <> [] ->
  create_team.db_transaction draft r cat ch cap y sem sen db
  = (inr (TeamCreationError conflict_message), db).
Proof.
  intros H. unfold create_team.db_transaction.
  destruct (Db.select_conflict _ _ _ db); [congruence|reflexivity].
Qed.

(** What [_finalize_team] does with a draft that passes its assertion:
    it is blocked by a conflict and writes nothing, or it commits. *)
Lemma finalize_ready_cases set_iteration interaction draft db r cat ch cap y sem sen :
  create_team.ready draft r cat ch cap y sem sen ->
  (Db.select_conflict (role_id r) (category_id cat) (channel_id ch) db <> []
   /\ create_team._finalize_team interaction set_iteration draft db
      = (Raise (TeamCreationError conflict_message), db, []))
  \/ (Db.select_conflict (role_id r) (category_id cat) (channel_id ch) db = []
      /\ exists db',
           create_team.db_transaction draft r cat ch cap y sem sen db = (inl tt, db')
           /\ create_team._finalize_team interaction set_iteration draft db
              = (Ok (flat_map (create_team.grant_warning interaction r)
                       (create_team.involved_members set_iteration cap draft)),
                 db', create_team.involved_members set_iteration cap draft)).
Proof.
  intros Hready. rewrite (finalize_ready _ _ _ _ _ _ _ _ _ _ _ Hready).
  unfold Db.run_in_transaction.
  destruct (Db.select_conflict (role_id r) (category_id cat) (channel_id ch) db)
    eqn:Hc.
  - right. split; [reflexivity|].
    destruct (FinalizerFacts.db_transaction_runs draft r cat ch cap y sem sen db Hc)
      as [db' Htx].
    exists db'. rewrite Htx. auto.
  - left. split; [discriminate|].
    rewrite db_transaction_conflict by (rewrite Hc; discriminate). reflexivity.
Qed.

(** X4.  What the command writes, by the way it ends.  Outside a
    server or without the admin verdict nothing is read and nothing is
    written.  A run that is cancelled, that fails while the data is
    collected, or that is blocked by a conflict leaves the tables as
    they were and grants no role; the blocking message is the conflict
    message.  A run that ends with the team created had a draft that
    the finalizer's assertion accepts, has added exactly one team row,
    and carries no more warnings than there were role grants. *)
Theorem command_outcomes_and_their_writes
    set_iteration interaction in_guild is_admin script db :
  exists outcome w db' granted,
    create_team.create_team set_iteration interaction in_guild is_admin script db
      = (outcome, w, db', granted)
    /\ match outcome with
       | create_team.NotInServer =>
           in_guild = false /\ events w = script /\ db' = db /\ granted = []
       | create_team.NotPermitted =>
           in_guild = true /\ is_admin = false /\ events w = script
           /\ db' = db /\ granted = []
       | create_team.CollectCancelled _ => db' = db /\ granted = []
       | create_team.CollectFailed _ => db' = db /\ granted = []
       | create_team.CreationBlocked reason =>
           reason = conflict_message /\ db' = db /\ granted = []
       | create_team.CreationFailed _ => True
       | create_team.Created draft warnings =>
           Answers.collected draft
           /\ length (Db.teams db') = S (length (Db.teams db))
           /\ length warnings <= length granted
       end%nat.
Proof.
  unfold create_team.create_team.
  destruct in_guild; simpl negb; cbv iota;
    [|do 4 eexists; split; [reflexivity|]; simpl; auto].
  destruct is_admin; simpl negb; cbv iota;
    [|do 4 eexists; split; [reflexivity|]; simpl; auto].
  set (w0 := create_team.say _ (create_team.initial_world script)).
  pose proof (collect_cases (S (length script)) interaction w0) as Hcollect.
  destruct (create_team._collect_team_data (S (length script)) interaction w0)
    as [[draft|e|] w1]; simpl in Hcollect.
  - destruct Hcollect as ((r & cat & ch & cap & y & sem & sen & Hready & Hrest) & Hmore).
    destruct (finalize_ready_cases set_iteration interaction draft db
                r cat ch cap y sem sen Hready)
      as [[_ Hfin]|[_ (db' & Htx & Hfin)]]; rewrite Hfin.
    + do 4 eexists. split; [reflexivity|]. simpl. auto.
    + do 4 eexists. split; [reflexivity|]. cbv beta iota.
      split; [split; [eauto 10|exact Hmore]|].
      apply FinalizerFacts.db_transaction_ok in Htx as (_ & Ht & _).
      rewrite Ht, length_app. simpl. split; [lia|].
      rewrite (flat_map_length_le_one _
                 (fun m => match add_roles (guild interaction) m r with
                           | inl _ => false | inr _ => true end)).
      * apply filter_length_le.
      * intros m. unfold create_team.grant_warning.
        destruct (add_roles (guild interaction) m r) as [|[]]; reflexivity.
  - destruct e; do 4 eexists; (split; [reflexivity|]); simpl; auto.
  - do 4 eexists. split; [reflexivity|]. simpl. auto.
Qed.

(** ** What a committed finalize leaves in the store *)
Module CommitFacts.
Import create_team Contracts Invariants.

Lemma upsert_player_players discord_id db x :
  In x (Db.players (Db.upsert_player discord_id db))
  <-> In x (Db.players db) \/ x = discord_id.
Proof.
  unfold Db.upsert_player.
  destruct (existsb (Z.eqb discord_id) (Db.players db)) eqn:E; simpl.
  - apply DedupeFacts.seen_spec in E. split; [auto|intros [H| ->]; auto].
  - rewrite in_app_iff. simpl. intuition.
Qed.

Lemma upsert_player_NoDup discord_id db :
  NoDup (Db.players db) -> NoDup (Db.players (Db.upsert_player discord_id db)).
Proof.
  intros H. unfold Db.upsert_player.
  destruct (existsb (Z.eqb discord_id) (Db.players db)) eqn:E; simpl; [exact H|].
  apply NoDup_app; [exact H|repeat constructor; intros []|].
  intros x Hx [<-|[]]. apply DedupeFacts.seen_spec in Hx. congruence.
Qed.

Lemma fold_upsert_player_players group db x :
  In x (Db.players
          (fold_left (fun c member => Db.upsert_player (member_id member) c) group db))
  <-> In x (Db.players db) \/ In x (ids group).
Proof.
  revert db. induction group as [|m group IH]; intros db; simpl; [tauto|].
  rewrite IH, upsert_player_players. intuition.
Qed.

Lemma fold_upsert_player_NoDup group db :
  NoDup (Db.players db) ->
  NoDup (Db.players
           (fold_left (fun c member => Db.upsert_player (member_id member) c) group db)).
Proof.
  revert db. induction group as [|m group IH]; intros db H; simpl; [exact H|].
  apply IH. now apply upsert_player_NoDup.
Qed.

Lemma fold_upsert_member_players team status group db :
  Db.players
    (fold_left (fun c member => Db.upsert_member team (member_id member) status c)
               group db)
  = Db.players db
  /\ Db.next_team_id
       (fold_left (fun c member => Db.upsert_member team (member_id member) status c)
                  group db)
     = Db.next_team_id db.
Proof.
  revert db. induction group as [|m group IH]; intros db; simpl; [auto|].
  destruct (IH (Db.upsert_member team (member_id m) status db)) as [H1 H2].
  rewrite H1, H2. auto.
Qed.

Lemma upsert_row_In team discord_id status rows row :
  In row (Db.upsert_row team discord_id status rows) ->
  In row rows \/ row = Db.the_row team discord_id status.
Proof.
  unfold Db.upsert_row. destruct (existsb _ rows).
  - intros H. apply in_map_iff in H as (x & Hx & Hin).
    destruct (Db.same_key team discord_id x); [right; now subst|left; now subst].
  - intros H. apply in_app_iff in H as [H|[<-|[]]]; auto.
Qed.

Lemma upsert_row_other_team team discord_id status rows row :
  Db.tm_team_id row <> team ->
  (In row (Db.upsert_row team discord_id status rows) <-> In row rows).
Proof.
  intros Hne. split.
  - intros H. apply upsert_row_In in H as [H| ->]; [exact H|].
    simpl in Hne. congruence.
  - intros H. unfold Db.upsert_row. destruct (existsb _ rows).
    + apply in_map_iff. exists row. split; [|exact H].
      destruct (Db.same_key team discord_id row) eqn:E; [|reflexivity].
      apply DbFacts.same_key_spec in E. unfold Db.key in E. inversion E. congruence.
    + apply in_or_app. now left.
Qed.

Lemma upsert_group_In team status group rows row :
  In row (Db.upsert_group team status group rows) ->
  In row rows
  \/ exists m, In m group /\ row = Db.the_row team (member_id m) status.
Proof.
  revert rows. induction group as [|m group IH]; intros rows H; simpl in *; [auto|].
  apply IH in H as [H|(x & Hx & ->)].
  - apply upsert_row_In in H as [H| ->]; [auto|]. right. exists m. auto.
  - right. exists x. auto.
Qed.

Lemma upsert_group_other_team team status group rows row :
  Db.tm_team_id row <> team ->
  (In row (Db.upsert_group team status group rows) <-> In row rows).
Proof.
  intros Hne. revert rows. induction group as [|m group IH]; intros rows; simpl;
    [tauto|].
  rewrite IH. now apply upsert_row_other_team.
Qed.

Lemma upsert_row_keeps_keys team discord_id status rows k :
  In k (map Db.key rows) -> In k (map Db.key (Db.upsert_row team discord_id status rows)).
Proof.
  rewrite DbFacts.upsert_row_keys. destruct (existsb _ rows); [auto|].
  intros H. apply in_or_app. now left.
Qed.

Lemma upsert_row_adds_key team discord_id status rows :
  In (team, discord_id) (map Db.key (Db.upsert_row team discord_id status rows)).
Proof.
  rewrite DbFacts.upsert_row_keys.
  destruct (existsb (Db.same_key team discord_id) rows) eqn:E.
  - now apply DbFacts.existsb_same_key.
  - apply in_or_app. right. now left.
Qed.

Lemma upsert_group_keeps_keys team status group rows k :
  In k (map Db.key rows) -> In k (map Db.key (Db.upsert_group team status group rows)).
Proof.
  revert rows. induction group as [|m group IH]; intros rows H; simpl; [exact H|].
  apply IH. now apply upsert_row_keeps_keys.
Qed.

Lemma upsert_group_adds_keys team status group rows m :
  In m group ->
  In (team, member_id m) (map Db.key (Db.upsert_group team status group rows)).
Proof.
  revert rows. induction group as [|x group IH]; intros rows H; [destruct H|].
  simpl. destruct H as [->|H]; [|now apply IH].
  apply upsert_group_keeps_keys, upsert_row_adds_key.
Qed.

(** The players and the sequence after a transaction that did not
    raise. *)
Lemma db_transaction_players draft r cat ch cap y sem sen db db' :
  db_transaction draft r cat ch cap y sem sen db = (inl tt, db') ->
  Db.next_team_id db' = Db.next_team_id db + 1
  /\ (forall x, In x (Db.players db')
                <-> In x (Db.players db)
                    \/ In x (ids (cap :: starters draft ++ substitutes draft)%list))
  /\ (NoDup (Db.players db) -> NoDup (Db.players db')).
Proof.
  unfold db_transaction.
  destruct (Db.select_conflict _ _ _ db); [|discriminate].
  simpl. intros H. inversion H; subst; clear H.
  match goal with
  | |- context [fold_left _ (substitutes draft) ?c] =>
      destruct (fold_upsert_member_players (Db.next_team_id db) "sub"
                  (substitutes draft) c) as (P1 & N1)
  end.
  rewrite P1, N1.
  match goal with
  | |- context [fold_left _ (starters draft) ?c] =>
      destruct (fold_upsert_member_players (Db.next_team_id db) "starter"
                  (starters draft) c) as (P2 & N2)
  end.
  rewrite P2, N2.
  match goal with
  | |- context [Db.upsert_player ?i (fold_left ?f ?l ?c)] =>
      set (base := c); set (after := fold_left f l c)
  end.
  assert (Hn : Db.next_team_id (Db.upsert_player (member_id cap) after)
               = Db.next_team_id db + 1).
  { unfold Db.upsert_player. destruct (existsb _ _); simpl;
      destruct (FinalizerFacts.fold_upsert_player_frame
                  (starters draft ++ substitutes draft)%list base) as (_ & _ & Hn);
      exact Hn. }
  split; [exact Hn|]. split.
  - intros x. rewrite upsert_player_players. unfold after.
    rewrite fold_upsert_player_players. simpl. unfold ids. simpl. intuition.
  - intros Hnd. apply upsert_player_NoDup. unfold after.
    apply fold_upsert_player_NoDup. exact Hnd.
Qed.

End CommitFacts.

(** X5.  A finalize that succeeds appends exactly the new team row
    (fresh id from the sequence, not archived) and advances the
    sequence by one; registers the captain, the starters and the
    substitutes as players and nobody else, without creating a
    duplicate player; gives every starter and substitute a membership
    row of the new team; adds no membership row other than
    ["starter"]/["sub"] rows of the new team for members of the two
    groups; and leaves the membership rows of every other team as they
    were. *)
Theorem successful_finalize_registers_team_players_and_members
    set_iteration interaction draft db r cat ch cap y sem sen
    warnings db' granted :
  create_team.ready draft r cat ch cap y sem sen ->
  create_team._finalize_team interaction set_iteration draft db
    = (Ok warnings, db', granted) ->
  let team := Db.next_team_id db in
  Db.teams db'
    = (Db.teams db
       ++ [Invariants.new_team_row db draft r cat ch cap y sem sen])%list
  /\ Db.next_team_id db' = team + 1
  /\ (forall x, In x (Db.players db')
                <-> In x (Db.players db)
                    \/ In x (Contracts.ids
                               (cap :: starters draft ++ substitutes draft)%list))
  /\ (NoDup (Db.players db) -> NoDup (Db.players db'))
  /\ (forall m, In m (starters draft ++ substitutes draft)%list ->
        In (team, member_id m) (map Db.key (Db.team_members db')))
  /\ (forall row, In row (Db.team_members db') ->
        In row (Db.team_members db)
        \/ (exists m, In m (starters draft)
                      /\ row = Db.the_row team (member_id m) "starter")
        \/ (exists m, In m (substitutes draft)
                      /\ row = Db.the_row team (member_id m) "sub"))
  /\ (forall row, Db.tm_team_id row <> team ->
        (In row (Db.team_members db') <-> In row (Db.team_members db))).
Proof.
  intros Hready Hfin team.
  destruct (finalize_ready_cases set_iteration interaction draft db
              r cat ch cap y sem sen Hready)
    as [[_ Hblocked]|[_ (db1 & Htx & Hok)]];
    rewrite Hfin in *; [discriminate Hblocked|].
  inversion Hok; subst db1; clear Hok.
  destruct (CommitFacts.db_transaction_players _ _ _ _ _ _ _ _ _ _ Htx)
    as (Hn & Hp & Hnd).
  apply FinalizerFacts.db_transaction_ok in Htx as (_ & Ht & Hm).
  fold team in Hm. split; [exact Ht|]. split; [exact Hn|].
  split; [exact Hp|]. split; [exact Hnd|]. rewrite Hm. split; [|split].
  - intros m Hin. apply in_app_iff in Hin as [Hin|Hin].
    + apply CommitFacts.upsert_group_keeps_keys.
      now apply CommitFacts.upsert_group_adds_keys.
    + now apply CommitFacts.upsert_group_adds_keys.
  - intros row Hrow.
    apply CommitFacts.upsert_group_In in Hrow as [Hrow|Hrow]; [|auto].
    apply CommitFacts.upsert_group_In in Hrow as [Hrow|Hrow]; auto.
  - intros row Hne. rewrite !CommitFacts.upsert_group_other_team by exact Hne.
    tauto.
Qed.

(** ** Invariants of the store kept by the finalizer *)
Module InvariantFacts.
Import Invariants.

Lemma select_conflict_none r cat ch db :
  Db.select_conflict r cat ch db = [] ->
  ~ In (r, cat, ch) (map triple (filter active (Db.teams db))).
Proof.
  unfold Db.select_conflict. intros Hnil Hin.
  apply map_eq_nil in Hnil.
  apply in_map_iff in Hin as (t & Ht & Hin).
  apply filter_In in Hin as [Hin Hact].
  assert (Hf : In t (filter
    (fun t => ((Db.role_id t =? r) && (Db.category_id t =? cat)
               && (Db.channel_id t =? ch) && Db.is_not_true (Db.archived t))%bool)
    (Db.teams db))).
  { apply filter_In. split; [exact Hin|].
    unfold triple in Ht. inversion Ht; subst. rewrite !Z.eqb_refl. exact Hact. }
  rewrite Hnil in Hf. destruct Hf.
Qed.

End InvariantFacts.

(** X6.  A finalize that succeeds keeps the invariants of the team
    table: if no two active teams shared role, category and channel
    before, none do afterwards; and if the team ids were unique and
    below the sequence, they still are. *)
Theorem successful_finalize_keeps_team_table_invariants
    set_iteration interaction draft db r cat ch cap y sem sen
    warnings db' granted :
  create_team.ready draft r cat ch cap y sem sen ->
  create_team._finalize_team interaction set_iteration draft db
    = (Ok warnings, db', granted) ->
  (Invariants.active_triples_unique db -> Invariants.active_triples_unique db')
  /\ (Invariants.team_ids_fresh db -> Invariants.team_ids_fresh db').
Proof.
  intros Hready Hfin.
  destruct (finalize_ready_cases set_iteration interaction draft db
              r cat ch cap y sem sen Hready)
    as [[_ Hblocked]|[Hnone (db1 & Htx & Hok)]];
    rewrite Hfin in *; [discriminate Hblocked|].
  inversion Hok; subst db1; clear Hok.
  destruct (CommitFacts.db_transaction_players _ _ _ _ _ _ _ _ _ _ Htx)
    as (Hn & _ & _).
  apply FinalizerFacts.db_transaction_ok in Htx as (_ & Ht & _).
  split.
  - unfold Invariants.active_triples_unique. intros Hu. rewrite Ht.
    rewrite filter_app, map_app. simpl.
    apply NoDup_app; [exact Hu|repeat constructor; intros []|].
    intros k Hk [<-|[]].
    now apply InvariantFacts.select_conflict_none in Hnone.
  - unfold Invariants.team_ids_fresh. intros [Hnd Hlt]. rewrite Ht, Hn. split.
    + rewrite map_app. simpl.
      apply NoDup_app; [exact Hnd|repeat constructor; intros []|].
      intros k Hk [<-|[]]. apply in_map_iff in Hk as (t & Hid & Hin).
      apply Hlt in Hin. lia.
    + intros t Hin. apply in_app_iff in Hin as [Hin|[<-|[]]].
      * apply Hlt in Hin. lia.
      * simpl. lia.
Qed.

(** X7.  After a finalize that succeeded, a second finalize of any
    complete draft with the same role, category and channel is blocked
    with the conflict message, leaves the tables exactly as the first
    one left them and grants nothing. *)
Theorem second_finalize_of_same_triple_is_blocked
    set_iteration interaction draft db r cat ch cap y sem sen
    warnings db' granted
    draft2 r2 cat2 ch2 cap2 y2 sem2 sen2 :
  create_team.ready draft r cat ch cap y sem sen ->
  create_team._finalize_team interaction set_iteration draft db
    = (Ok warnings, db', granted) ->
  create_team.ready draft2 r2 cat2 ch2 cap2 y2 sem2 sen2 ->
  role_id r2 = role_id r -> category_id cat2 = category_id cat ->
  channel_id ch2 = channel_id ch ->
  create_team._finalize_team interaction set_iteration draft2 db'
  = (Raise (TeamCreationError conflict_message), db', []).
Proof.
  intros Hready Hfin Hready2 Hr Hcat Hch.
  destruct (finalize_ready_cases set_iteration interaction draft db
              r cat ch cap y sem sen Hready)
    as [[_ Hblocked]|[_ (db1 & Htx & Hok)]];
    rewrite Hfin in *; [discriminate Hblocked|].
  inversion Hok; subst db1; clear Hok.
  apply FinalizerFacts.db_transaction_ok in Htx as (_ & Ht & _).
  destruct (finalize_ready_cases set_iteration interaction draft2 db'
              r2 cat2 ch2 cap2 y2 sem2 sen2 Hready2)
    as [[_ Hblocked]|[Hnone _]]; [exact Hblocked|].
  exfalso.
  apply (select_conflict_finds (role_id r2) (category_id cat2) (channel_id ch2) db'
           (Invariants.new_team_row db draft r cat ch cap y sem sen));
    try (simpl; congruence).
  - rewrite Ht. apply in_or_app. right. now left.
  - discriminate.
Qed.

(** ** The archive command *)
Module ArchiveFacts.
Import ArchiveCommand.

Lemma archive_team_tables g is_admin p nick move db :
  fst (fst (archive_team g is_admin p nick move db))
  = match g, is_admin, select_active nick db with
    | Some _, true, [team] => update_archived (Db.team_id team) db
    | _, _, _ => db
    end.
Proof.
  unfold archive_team. destruct g as [g|]; [|reflexivity].
  destruct is_admin; simpl negb; cbv iota; [|reflexivity].
  destruct (select_active nick db) as [|team [|other rest]]; try reflexivity.
  cbv zeta. destruct (release_role p _ _) as [text1 calls1].
  destruct (if move then _ else _) as [text2 calls2]. reflexivity.
Qed.

Lemma select_active_after_update nick team db :
  select_active nick (update_archived team db)
  = filter (fun t => negb (Db.team_id t =? team)) (select_active nick db).
Proof.
  unfold select_active, update_archived. simpl.
  induction (Db.teams db) as [|t teams IH]; [reflexivity|]. simpl.
  destruct (Db.team_id t =? team) eqn:E.
  - simpl. rewrite andb_false_r.
    destruct (match Db.team_nick t with Some n => (n =? nick)%string | None => false end
              && Db.is_false (Db.archived t))%bool; simpl; rewrite ?E; exact IH.
  - destruct (match Db.team_nick t with Some n => (n =? nick)%string | None => false end
              && Db.is_false (Db.archived t))%bool; simpl; rewrite ?E; simpl;
      [f_equal|]; exact IH.
Qed.

Lemma select_active_In nick db t :
  In t (select_active nick db)
  <-> In t (Db.teams db) /\ Db.team_nick t = Some nick /\ Db.archived t = Some false.
Proof.
  unfold select_active. rewrite filter_In, andb_true_iff. split.
  - intros (Hin & Hn & Ha). split; [exact Hin|].
    destruct (Db.team_nick t) as [n|]; [|discriminate].
    apply String.eqb_eq in Hn. subst.
    destruct (Db.archived t) as [[]|]; try discriminate. auto.
  - intros (Hin & -> & ->). rewrite String.eqb_refl. auto.
Qed.

Lemma NoDup_map_same {A B} (f : A -> B) l x y :
  NoDup (map f l) -> In x l -> In y l -> f x = f y -> x = y.
Proof.
  induction l as [|a l IH]; intros Hnd Hx Hy Hf; [destruct Hx|].
  simpl in Hnd. inversion Hnd as [|? ? Hnot Hnd']; subst.
  destruct Hx as [->|Hx], Hy as [->|Hy]; auto.
  - exfalso. apply Hnot. rewrite Hf. now apply in_map.
  - exfalso. apply Hnot. rewrite <- Hf. now apply in_map.
Qed.

Lemma Forall2_same {A} (R : A -> A -> Prop) l :
  (forall x, R x x) -> Forall2 R l l.
Proof. intros H. induction l; constructor; auto. Qed.

End ArchiveFacts.

(** X8.  The archive command never touches players, memberships or the
    sequence, never changes a team row in anything but its [archived]
    flag, and never clears that flag.  It leaves the tables as they are
    unless it is run in a server by an admin and exactly one active team
    has the nickname; in that case this team is archived afterwards and
    no active team with the nickname remains. *)
Theorem archive_team_only_archives_the_one_active_match
    g is_admin p nick move db :
  let db' := fst (fst (ArchiveCommand.archive_team g is_admin p nick move db)) in
  Db.players db' = Db.players db
  /\ Db.team_members db' = Db.team_members db
  /\ Db.next_team_id db' = Db.next_team_id db
  /\ Forall2 (fun t t' => t' = t \/ t' = ArchiveCommand.set_archived t)
       (Db.teams db) (Db.teams db')
  /\ (forall t, In t (Db.teams db) -> Db.archived t = Some true ->
        In t (Db.teams db'))
  /\ ((g = None \/ is_admin = false
       \/ length (ArchiveCommand.select_active nick db) <> 1%nat) -> db' = db)
  /\ (forall team,
        g <> None -> is_admin = true ->
        ArchiveCommand.select_active nick db = [team] ->
        In (ArchiveCommand.set_archived team) (Db.teams db')
        /\ ArchiveCommand.select_active nick db' = []).
Proof.
  intros db'. unfold db'. rewrite ArchiveFacts.archive_team_tables.
  assert (Hup : forall team,
    let d := ArchiveCommand.update_archived team db in
    Db.players d = Db.players db /\ Db.team_members d = Db.team_members db
    /\ Db.next_team_id d = Db.next_team_id db
    /\ Forall2 (fun t t' => t' = t \/ t' = ArchiveCommand.set_archived t)
         (Db.teams db) (Db.teams d)
    /\ (forall t, In t (Db.teams db) -> Db.archived t = Some true ->
          In t (Db.teams d))).
  { intros team. simpl.
    split; [reflexivity|]. split; [reflexivity|]. split; [reflexivity|]. split.
    - induction (Db.teams db) as [|t teams IH]; simpl; constructor; [|exact IH].
      destruct (Db.team_id t =? team); auto.
    - intros t Hin Ha. apply in_map_iff. exists t. split; [|exact Hin].
      destruct (Db.team_id t =? team); [|reflexivity].
      destruct t. simpl in *. subst. reflexivity. }
  assert (Hid : Forall2 (fun t t' => t' = t \/ t' = ArchiveCommand.set_archived t)
                  (Db.teams db) (Db.teams db)).
  { apply ArchiveFacts.Forall2_same. auto. }
  destruct g as [g|]; [|repeat split; auto; intros; congruence].
  destruct is_admin; [|repeat split; auto; intros; congruence].
  destruct (ArchiveCommand.select_active nick db) as [|team [|other rest]] eqn:Hsel;
    try (repeat split; auto; intros; congruence).
  destruct (Hup (Db.team_id team)) as (H1 & H2 & H3 & H4 & H5).
  split; [exact H1|]. split; [exact H2|]. split; [exact H3|].
  split; [exact H4|]. split; [exact H5|]. split.
  - intros [H|[H|H]]; try discriminate. simpl in H. congruence.
  - intros team' _ _ Heq. inversion Heq; subst team'. split.
    + simpl. apply in_map_iff. exists team. rewrite Z.eqb_refl. split; [reflexivity|].
      assert (Hin : In team (ArchiveCommand.select_active nick db))
        by (rewrite Hsel; now left).
      now apply ArchiveFacts.select_active_In in Hin.
    + rewrite ArchiveFacts.select_active_after_update, Hsel. simpl.
      rewrite Z.eqb_refl. reflexivity.
Qed.

(** X9.  After the archive command has archived a team, the nickname is
    gone from the active teams: running the command again with it
    reports that no active team has the nickname, changes nothing and
    makes no call; and the autocomplete offers the nickname for no typed
    text. *)
Theorem archived_nickname_is_no_longer_found
    g is_admin p nick move db team :
  is_admin = true ->
  ArchiveCommand.select_active nick db = [team] ->
  let db' := fst (fst (ArchiveCommand.archive_team (Some g) is_admin p nick move db)) in
  (forall p2 move2,
     ArchiveCommand.archive_team (Some g) is_admin p2 nick move2 db'
     = (db', "Active team with nickname `" ++ nick ++ "` not found.", []))
  /\ (forall current c,
        In c (ArchiveTeam.archive_team_autocomplete current db') ->
        ArchiveTeam.name c <> nick).
Proof.
  intros -> Hsel db'.
  assert (Hnone : ArchiveCommand.select_active nick db' = []).
  { unfold db'. rewrite ArchiveFacts.archive_team_tables, Hsel.
    rewrite ArchiveFacts.select_active_after_update, Hsel. simpl.
    rewrite Z.eqb_refl. reflexivity. }
  split.
  - intros p2 move2. unfold ArchiveCommand.archive_team. simpl negb. cbv iota.
    rewrite Hnone. reflexivity.
  - intros current c Hc Hname.
    unfold ArchiveTeam.archive_team_autocomplete in Hc.
    apply in_map_iff in Hc as (label & <- & Hl). simpl in Hname. subst label.
    apply LikeFacts.select_labels_sound in Hl as (t & Ht & Hn & Ha & _).
    assert (Hin : In t (ArchiveCommand.select_active nick db'))
      by (apply ArchiveFacts.select_active_In; auto).
    rewrite Hnone in Hin. destruct Hin.
Qed.

(** X10.  "Archive it before creating a new one": when no two active
    teams share role, category and channel, and the team that blocks a
    complete draft is the one active team with its nickname, then after
    the archive command has run on that nickname the finalizer accepts
    the draft and commits the new team. *)
Theorem archiving_the_conflicting_team_unblocks_finalize
    set_iteration interaction draft r cat ch cap y sem sen
    g p nick move db team :
  Invariants.active_triples_unique db ->
  create_team.ready draft r cat ch cap y sem sen ->
  ArchiveCommand.select_active nick db = [team] ->
  Invariants.triple team = (role_id r, category_id cat, channel_id ch) ->
  let db' := fst (fst (ArchiveCommand.archive_team (Some g) true p nick move db)) in
  exists warnings db'' granted,
    create_team._finalize_team interaction set_iteration draft db'
      = (Ok warnings, db'', granted)
    /\ In (Invariants.new_team_row db' draft r cat ch cap y sem sen) (Db.teams db'').
Proof.
  intros Hu Hready Hsel Htriple db'.
  assert (Hdb' : db' = ArchiveCommand.update_archived (Db.team_id team) db).
  { unfold db'. now rewrite ArchiveFacts.archive_team_tables, Hsel. }
  assert (Hteam : In team (Db.teams db) /\ Db.archived team = Some false).
  { assert (Hin : In team (ArchiveCommand.select_active nick db))
      by (rewrite Hsel; now left).
    apply ArchiveFacts.select_active_In in Hin. tauto. }
  destruct Hteam as [Hin Harch].
  assert (Hnone : Db.select_conflict (role_id r) (category_id cat) (channel_id ch) db'
                  = []).
  { rewrite Hdb'. unfold Db.select_conflict, ArchiveCommand.update_archived. simpl.
    match goal with
    | |- map _ (filter ?f ?l) = [] => destruct (filter f l) as [|x rest] eqn:Hf
    end; [reflexivity|exfalso].
    assert (Hx : In x (filter
      (fun t => ((Db.role_id t =? role_id r) && (Db.category_id t =? category_id cat)
                 && (Db.channel_id t =? channel_id ch)
                 && Db.is_not_true (Db.archived t))%bool)
      (map (fun t => if Db.team_id t =? Db.team_id team
                     then ArchiveCommand.set_archived t else t) (Db.teams db))))
      by (rewrite Hf; now left).
    apply filter_In in Hx as [Hx Hp].
    apply in_map_iff in Hx as (t & Hxt & Ht).
    destruct (Db.team_id t =? Db.team_id team) eqn:Eid.
    - subst x. simpl in Hp. rewrite andb_false_r in Hp. discriminate.
    - subst x. apply andb_true_iff in Hp as [Hp Ha].
      apply andb_true_iff in Hp as [Hp H3]. apply andb_true_iff in Hp as [H1 H2].
      apply Z.eqb_eq in H1, H2, H3.
      assert (Heq : t = team).
      { apply (ArchiveFacts.NoDup_map_same Invariants.triple
                 (filter Invariants.active (Db.teams db))); auto.
        - apply filter_In. auto.
        - apply filter_In. split; [exact Hin|].
          unfold Invariants.active. now rewrite Harch.
        - rewrite Htriple. unfold Invariants.triple. congruence. }
      subst t. rewrite Z.eqb_refl in Eid. discriminate. }
  destruct (finalize_ready_cases set_iteration interaction draft db'
              r cat ch cap y sem sen Hready)
    as [[Hsome _]|[_ (db'' & Htx & Hok)]]; [congruence|].
  do 3 eexists. split; [exact Hok|].
  apply FinalizerFacts.db_transaction_ok in Htx as (_ & Ht & _).
  rewrite Ht. apply in_or_app. right. now left.
Qed.


(** ** Completeness of the label autocomplete *)
Module LikeMore.
Import ArchiveTeam.

Lemma like_percent_all s : like "%" s = true.
Proof.
  induction s as [|c s IH]; [reflexivity|].
  rewrite LikeFacts.like_percent. rewrite IH. apply orb_true_r.
Qed.

Lemma like_percent_skip rest before after :
  like rest after = true -> like (String "%" rest) (before ++ after) = true.
Proof.
  intros H. induction before as [|c before IH]; simpl append.
  - rewrite LikeFacts.like_percent, H. reflexivity.
  - rewrite LikeFacts.like_percent, IH. apply orb_true_r.
Qed.

Lemma like_plain_app q rest after :
  plain q = true -> like rest after = true -> like (q ++ rest) (q ++ after) = true.
Proof.
  intros Hq H. induction q as [|c q IH]; [exact H|].
  simpl in Hq. apply andb_true_iff in Hq as [Hc Hq].
  change (String c q ++ rest) with (String c (q ++ rest)).
  change (String c q ++ after) with (String c (q ++ after)).
  rewrite (LikeFacts.like_plain_char _ _ _ Hc), Ascii.eqb_refl. now apply IH.
Qed.

Lemma contains_ilike current label :
  plain current = true ->
  contains (PyStr.lower current) (PyStr.lower label) ->
  ilike ("%" ++ current ++ "%") label = true.
Proof.
  intros Hp (before & after & Hs). unfold ilike. rewrite Hs.
  change ("%" ++ current ++ "%") with (String "%" (current ++ "%")).
  simpl PyStr.lower. change (PyStr.lower_char "%") with "%"%char.
  rewrite LikeFacts.lower_app. apply like_percent_skip.
  apply like_plain_app; [now rewrite LikeFacts.plain_lower|].
  apply like_percent_all.
Qed.

Lemma firstn_short {A} n (l : list A) :
  (length (firstn n l) < n)%nat -> firstn n l = l.
Proof.
  revert l. induction n as [|n IH]; intros l H; [inversion H|].
  destruct l as [|x l]; [reflexivity|]. simpl in *. f_equal. apply IH. lia.
Qed.

End LikeMore.

(** X12.  For a typed text without [%], [_] or backslash, a label
    matches the autocomplete's pattern exactly when it contains the
    text, letter case aside; and when fewer than 25 choices come back,
    every active team whose label contains the text is among them (the
    empty text offers every active labelled team).  Choices come in
    table order. *)
Theorem autocomplete_offers_every_active_label_containing_the_text current db :
  ArchiveTeam.plain current = true ->
  (forall label,
     ArchiveTeam.ilike ("%" ++ current ++ "%") label = true
     <-> ArchiveTeam.contains (PyStr.lower current) (PyStr.lower label))
  /\ ((length (ArchiveTeam.archive_team_autocomplete current db) < 25)%nat ->
      forall t label,
        In t (Db.teams db) -> Db.archived t = Some false ->
        Db.team_nick t = Some label ->
        ArchiveTeam.contains (PyStr.lower current) (PyStr.lower label) ->
        In {| ArchiveTeam.name := label; ArchiveTeam.value := label |}
           (ArchiveTeam.archive_team_autocomplete current db)).
Proof.
  intros Hp. split.
  - intros label. split; [now apply LikeFacts.ilike_contains|].
    now apply LikeMore.contains_ilike.
  - unfold ArchiveTeam.archive_team_autocomplete. rewrite length_map.
    unfold ArchiveTeam.select_labels. intros Hshort t label Hin Ha Hn Hc.
    apply LikeMore.firstn_short in Hshort. rewrite Hshort.
    apply in_map_iff. exists label. split; [reflexivity|].
    apply in_flat_map. exists t. split; [exact Hin|].
    rewrite Hn, (LikeMore.contains_ilike _ _ Hp Hc), Ha. simpl. now left.
Qed.

Lemma autocomplete_offers_every_active_label_containing_the_text_witness :
  In {| ArchiveTeam.name := "Falcons"; ArchiveTeam.value := "Falcons" |}
     (ArchiveTeam.archive_team_autocomplete "LC" Demo.db_with_falcons).
Proof.
  destruct (autocomplete_offers_every_active_label_containing_the_text
              "LC" Demo.db_with_falcons eq_refl) as [_ H].
  apply (H ltac:(simpl; lia) Demo.falcons_row); try reflexivity.
  - simpl. now left.
  - exists "fa", "ons". reflexivity.
Defined.

(** ** Concrete instances of the further properties *)

Lemma group_parser_returns_deduplicated_mentions_then_ids_witness :
  [Demo.ann; Demo.bob]
  = create_team._dedupe_members
      (mentions DemoMore.ann_and_ids
       ++ flat_map (Contracts.resolve Demo.operator)
            (PyStr.tokens (PyStr.strip "<@11> 11, 12")))%list.
Proof.
  destruct (group_parser_returns_deduplicated_mentions_then_ids
              3 Demo.operator "starter" "<@11> 11, 12" DemoMore.ann_and_ids
              (Demo.world_of [Demo.reply "yes"]) [Demo.ann; Demo.bob]
              {| events := [];
                 outbox := ["Use [Ann, Bob] as starters? (yes/no)"] |}
              eq_refl) as [H _].
  exact H.
Defined.

Lemma demo_ready :
  create_team.ready Demo.complete_draft Demo.falcons Demo.main_category
    Demo.falcons_chat Demo.ann 2025 "Fall" 3.
Proof. repeat split; try reflexivity; discriminate. Qed.

Lemma successful_finalize_registers_team_players_and_members_witness :
  Db.players DemoMore.db_after_create = [11; 12; 13]
  /\ Db.next_team_id DemoMore.db_after_create = 2.
Proof.
  destruct (successful_finalize_registers_team_players_and_members
              Demo.in_order Demo.operator Demo.complete_draft Demo.empty_db
              Demo.falcons Demo.main_category Demo.falcons_chat Demo.ann
              2025 "Fall" 3
              ["Missing permission to assign role to Cy."]
              DemoMore.db_after_create [Demo.ann; Demo.bob; Demo.cy]
              demo_ready eq_refl) as (_ & Hn & _).
  split; [reflexivity|exact Hn].
Defined.

Lemma successful_finalize_keeps_team_table_invariants_witness :
  Invariants.active_triples_unique DemoMore.db_after_create.
Proof.
  destruct (successful_finalize_keeps_team_table_invariants
              Demo.in_order Demo.operator Demo.complete_draft Demo.empty_db
              Demo.falcons Demo.main_category Demo.falcons_chat Demo.ann
              2025 "Fall" 3
              ["Missing permission to assign role to Cy."]
              DemoMore.db_after_create [Demo.ann; Demo.bob; Demo.cy]
              demo_ready eq_refl) as [H _].
  apply H. constructor.
Defined.

Lemma second_finalize_of_same_triple_is_blocked_witness :
  create_team._finalize_team Demo.operator Demo.in_order Demo.overlap_draft
    DemoMore.db_after_create
  = (Raise (TeamCreationError conflict_message), DemoMore.db_after_create, []).
Proof.
  apply (second_finalize_of_same_triple_is_blocked
           Demo.in_order Demo.operator Demo.complete_draft Demo.empty_db
           Demo.falcons Demo.main_category Demo.falcons_chat Demo.ann
           2025 "Fall" 3
           ["Missing permission to assign role to Cy."]
           DemoMore.db_after_create [Demo.ann; Demo.bob; Demo.cy]
           Demo.overlap_draft Demo.falcons Demo.main_category Demo.falcons_chat
           Demo.ann 2025 "Fall" 3).
  - exact demo_ready.
  - reflexivity.
  - repeat split; try reflexivity; discriminate.
  - reflexivity.
  - reflexivity.
  - reflexivity.
Defined.

Lemma archived_nickname_is_no_longer_found_witness :
  let db' := fst (fst (ArchiveCommand.archive_team (Some Demo.demo_guild) true
                         DemoMore.platform "Falcons" true Demo.db_with_falcons)) in
  ArchiveCommand.archive_team (Some Demo.demo_guild) true DemoMore.platform
    "Falcons" false db'
  = (db', "Active team with nickname `Falcons` not found.", []).
Proof.
  destruct (archived_nickname_is_no_longer_found
              Demo.demo_guild true DemoMore.platform "Falcons" true
              Demo.db_with_falcons Demo.falcons_row eq_refl eq_refl) as [H _].
  exact (H DemoMore.platform false).
Defined.

Lemma archiving_the_conflicting_team_unblocks_finalize_witness :
  exists warnings db'' granted,
    create_team._finalize_team Demo.operator Demo.in_order Demo.complete_draft
      (fst (fst (ArchiveCommand.archive_team (Some Demo.demo_guild) true
                   DemoMore.platform "Falcons" true Demo.db_with_falcons)))
    = (Ok warnings, db'', granted).
Proof.
  destruct (archiving_the_conflicting_team_unblocks_finalize
              Demo.in_order Demo.operator Demo.complete_draft
              Demo.falcons Demo.main_category Demo.falcons_chat Demo.ann
              2025 "Fall" 3
              Demo.demo_guild DemoMore.platform "Falcons" true
              Demo.db_with_falcons Demo.falcons_row)
    as (warnings & db'' & granted & H & _).
  - repeat constructor. intros [].
  - exact demo_ready.
  - reflexivity.
  - reflexivity.
  - exists warnings, db'', granted. exact H.
Defined.

(** ** Bystanders *)
Module BystanderFacts.
Import create_team Bystanders.

Ltac split_if :=
  match goal with
  | |- Unaffected _ (if ?b then _ else _) _ => destruct b
  end.

Section Steps.
Variable interaction : Interaction.

Lemma Unaffected_same {A} (f : M A) :
  (forall w, f (clean interaction w) = (fst (f w), clean interaction (snd (f w)))) ->
  Unaffected interaction f f.
Proof. intros H w _. apply H. Qed.

Lemma Unaffected_ret {A} (a : A) : Unaffected interaction (ret a) (ret a).
Proof. apply Unaffected_same. reflexivity. Qed.

Lemma Unaffected_raise {A} e : Unaffected interaction (@raise A e) (raise e).
Proof. apply Unaffected_same. reflexivity. Qed.

Lemma Unaffected_send text : Unaffected interaction (send text) (send text).
Proof. apply Unaffected_same. reflexivity. Qed.

Lemma Unaffected_py_int s : Unaffected interaction (py_int s) (py_int s).
Proof.
  unfold py_int. destruct (PyStr.int s);
    [apply Unaffected_ret|apply Unaffected_raise].
Qed.

Lemma Unaffected_out_of_fuel {A} (g : M A) : Unaffected interaction out_of_fuel g.
Proof. intros w H. exfalso. apply H. reflexivity. Qed.

Lemma Unaffected_bind {A B} (f f' : M A) (g g' : A -> M B) :
  Unaffected interaction f f' ->
  (forall a, Unaffected interaction (g a) (g' a)) ->
  Unaffected interaction (bind f g) (bind f' g').
Proof.
  intros Hf Hg w Hfuel. unfold bind in *. specialize (Hf w).
  destruct (f (clean interaction w)) as [[a|e|] w1] eqn:E;
    destruct (f' w) as [r' w1'] eqn:E'; simpl in Hf.
  - assert (Heq : (Ok a, w1) = (r', clean interaction w1'))
      by (apply Hf; discriminate).
    inversion Heq; subst. now apply Hg.
  - assert (Heq : (@Raise A e, w1) = (r', clean interaction w1'))
      by (apply Hf; discriminate).
    inversion Heq; subst. reflexivity.
  - exfalso. apply Hfuel. reflexivity.
Qed.

Lemma Unaffected_catch {A} (c c' : M A) (h h' : string -> M A) :
  Unaffected interaction c c' ->
  (forall msg, Unaffected interaction (h msg) (h' msg)) ->
  Unaffected interaction (catch_validation c h) (catch_validation c' h').
Proof.
  intros Hc Hh w Hfuel. unfold catch_validation in *. specialize (Hc w).
  destruct (c (clean interaction w)) as [[a|e|] w1] eqn:E;
    destruct (c' w) as [r' w1'] eqn:E'; simpl in Hc.
  - assert (Heq : (Ok a, w1) = (r', clean interaction w1'))
      by (apply Hc; discriminate).
    inversion Heq; subst. reflexivity.
  - assert (Heq : (@Raise A e, w1) = (r', clean interaction w1'))
      by (apply Hc; discriminate).
    inversion Heq; subst. destruct e; try reflexivity. now apply Hh.
  - exfalso. apply Hfuel. reflexivity.
Qed.

(** A wait whose check accepts only the operator's messages in the
    channel sees the same with and without the foreign events. *)
Lemma wait_for_message_clean check evs :
  (forall m, check m = true -> reply_check interaction m = true) ->
  wait_for_message check (without_foreign interaction evs)
  = (fst (wait_for_message check evs),
     without_foreign interaction (snd (wait_for_message check evs))).
Proof.
  intros Hcheck. induction evs as [|[m|user choice|] evs IH]; simpl.
  - reflexivity.
  - destruct (reply_check interaction m) eqn:Hm; simpl.
    + destruct (check m); [reflexivity|exact IH].
    + destruct (check m) eqn:Hc; [|exact IH].
      apply Hcheck in Hc. congruence.
  - destruct (user =? user_id interaction); simpl; exact IH.
  - reflexivity.
Qed.

Lemma first_completed_clean evs :
  first_completed interaction (without_foreign interaction evs)
  = (fst (first_completed interaction evs),
     without_foreign interaction (snd (first_completed interaction evs))).
Proof.
  induction evs as [|[m|user choice|] evs IH]; simpl.
  - reflexivity.
  - unfold exit_check. destruct (reply_check interaction m) eqn:Hm; simpl.
    + unfold exit_check. rewrite Hm. simpl.
      destruct (_should_exit (content m)); [reflexivity|exact IH].
    + exact IH.
  - destruct (user =? user_id interaction) eqn:Hu; simpl.
    + rewrite Hu. reflexivity.
    + exact IH.
  - reflexivity.
Qed.

Lemma Unaffected_wait_for_reply :
  Unaffected interaction (_wait_for_reply interaction) (_wait_for_reply interaction).
Proof.
  apply Unaffected_same. intros w. unfold _wait_for_reply. simpl.
  rewrite wait_for_message_clean by auto.
  destruct (wait_for_message (reply_check interaction) (events w)) as [[m|] rest];
    reflexivity.
Qed.

Lemma Unaffected_wait_semester_tasks :
  Unaffected interaction (wait_semester_tasks interaction)
    (wait_semester_tasks interaction).
Proof.
  apply Unaffected_same. intros w. unfold wait_semester_tasks. simpl.
  rewrite first_completed_clean.
  destruct (first_completed interaction (events w)) as [race rest]. reflexivity.
Qed.

Lemma Unaffected_confirm_loop n n' :
  (n <= n')%nat ->
  Unaffected interaction (confirm_loop interaction n) (confirm_loop interaction n').
Proof.
  revert n'. induction n as [|n IH]; intros n' Hle;
    [apply Unaffected_out_of_fuel|].
  destruct n' as [|n']; [lia|]. simpl confirm_loop.
  apply Unaffected_bind; [apply Unaffected_wait_for_reply|intros message].
  cbv zeta.
  split_if; [apply Unaffected_raise|].
  split_if; [apply Unaffected_ret|].
  split_if; [apply Unaffected_ret|].
  apply Unaffected_bind; [apply Unaffected_send|intros _].
  apply IH. lia.
Qed.

Lemma Unaffected_ask_loop {A} n n' allow_na
    (parser parser' : option (string -> Message -> M A)) :
  (n <= n')%nat ->
  Unaffected_parsers interaction parser parser' ->
  Unaffected interaction (ask_loop interaction n allow_na parser)
    (ask_loop interaction n' allow_na parser').
Proof.
  intros Hle Hparser. revert n' Hle. induction n as [|n IH]; intros n' Hle;
    [apply Unaffected_out_of_fuel|].
  destruct n' as [|n']; [lia|]. simpl ask_loop.
  apply Unaffected_bind; [apply Unaffected_wait_for_reply|intros message].
  cbv zeta.
  split_if; [apply Unaffected_raise|].
  split_if; [apply Unaffected_ret|].
  assert (IH' := IH n' ltac:(lia)).
  destruct parser as [parse|], parser' as [parse'|]; simpl in Hparser;
    try contradiction.
  - apply Unaffected_catch.
    + apply Unaffected_bind; [apply Hparser|intros a; apply Unaffected_ret].
    + intros exc. apply Unaffected_bind; [apply Unaffected_send|intros _].
      exact IH'.
  - split_if; [apply Unaffected_ret|].
    apply Unaffected_bind; [apply Unaffected_send|intros _]. exact IH'.
Qed.

Section WithFuel.
Variables fuel fuel' : nat.
Hypothesis Hfuel : (fuel <= fuel')%nat.

Lemma Unaffected_confirm prompt :
  Unaffected interaction (_confirm fuel interaction prompt)
    (_confirm fuel' interaction prompt).
Proof.
  unfold _confirm. apply Unaffected_bind; [apply Unaffected_send|intros _].
  now apply Unaffected_confirm_loop.
Qed.

Lemma Unaffected_ask_question {A} prompt allow_na
    (parser parser' : option (string -> Message -> M A)) :
  Unaffected_parsers interaction parser parser' ->
  Unaffected interaction (_ask_question fuel interaction prompt allow_na parser)
    (_ask_question fuel' interaction prompt allow_na parser').
Proof.
  intros Hparser. unfold _ask_question.
  apply Unaffected_bind; [apply Unaffected_send|intros _].
  now apply Unaffected_ask_loop.
Qed.

Ltac unaffected_step :=
  first
    [ apply Unaffected_ret
    | apply Unaffected_raise
    | apply Unaffected_send
    | apply Unaffected_py_int
    | apply Unaffected_confirm
    | apply Unaffected_bind; [|intros ?]
    | match goal with
      | |- Unaffected _ (if ?b then _ else _) _ => destruct b
      | |- Unaffected _ (match ?x with _ => _ end) _ => destruct x
      | |- Unaffected _ (let _ := _ in _) _ => cbv zeta
      end ].

Ltac unaffected := repeat unaffected_step.

Lemma Unaffected_assert_parsed {A} (answer : Answer A) :
  Unaffected interaction (assert_parsed answer) (assert_parsed answer).
Proof. unfold assert_parsed. unaffected. Qed.

Lemma Unaffected_role_parser content message :
  Unaffected interaction (role_parser fuel interaction content message)
    (role_parser fuel' interaction content message).
Proof. unfold role_parser. unaffected. Qed.

Lemma Unaffected_category_parser content message :
  Unaffected interaction (category_parser fuel interaction content message)
    (category_parser fuel' interaction content message).
Proof. unfold category_parser. unaffected. Qed.

Lemma Unaffected_channel_parser category content message :
  Unaffected interaction (channel_parser fuel interaction category content message)
    (channel_parser fuel' interaction category content message).
Proof. unfold channel_parser. unaffected. Qed.

Lemma Unaffected_member_parser label content message :
  Unaffected interaction (member_parser fuel interaction label content message)
    (member_parser fuel' interaction label content message).
Proof. unfold member_parser. unaffected. Qed.

Lemma Unaffected_add_tokens toks acc :
  Unaffected interaction (add_tokens interaction toks acc)
    (add_tokens interaction toks acc).
Proof.
  revert acc. induction toks as [|token toks IH]; intros acc; simpl.
  - apply Unaffected_ret.
  - destruct (PyStr.isdigit token); [|apply IH].
    apply Unaffected_bind; [apply Unaffected_py_int|intros discord_id].
    apply Unaffected_bind; [unaffected|intros member; apply IH].
Qed.

Lemma Unaffected_group_parser label content message :
  Unaffected interaction (group_parser fuel interaction label content message)
    (group_parser fuel' interaction label content message).
Proof.
  unfold group_parser. cbv zeta.
  apply Unaffected_bind; [apply Unaffected_add_tokens|intros acc].
  unaffected.
Qed.

Lemma Unaffected_year_parser content message :
  Unaffected interaction (year_parser content message) (year_parser content message).
Proof. unfold year_parser. unaffected. Qed.

Lemma Unaffected_seniority_parser content message :
  Unaffected interaction (seniority_parser content message)
    (seniority_parser content message).
Proof. unfold seniority_parser. unaffected. Qed.

Ltac parsed_question parser_lemma :=
  apply Unaffected_bind;
  [ apply Unaffected_ask_question; simpl; intros ? ?; apply parser_lemma
  | intros ?; try apply Unaffected_assert_parsed ].

Lemma Unaffected_prompt_team_nick :
  Unaffected interaction (_prompt_team_nick fuel interaction)
    (_prompt_team_nick fuel' interaction).
Proof.
  unfold _prompt_team_nick. apply Unaffected_bind.
  - apply Unaffected_ask_question. exact I.
  - intros [| text | []]; apply Unaffected_ret.
Qed.

Lemma Unaffected_prompt_role :
  Unaffected interaction (_prompt_role fuel interaction)
    (_prompt_role fuel' interaction).
Proof. unfold _prompt_role. parsed_question Unaffected_role_parser. Qed.

Lemma Unaffected_prompt_category :
  Unaffected interaction (_prompt_category fuel interaction)
    (_prompt_category fuel' interaction).
Proof. unfold _prompt_category. parsed_question Unaffected_category_parser. Qed.

Lemma Unaffected_prompt_channel category :
  Unaffected interaction (_prompt_channel fuel interaction category)
    (_prompt_channel fuel' interaction category).
Proof. unfold _prompt_channel. parsed_question Unaffected_channel_parser. Qed.

Lemma Unaffected_prompt_member label :
  Unaffected interaction (_prompt_member fuel interaction label)
    (_prompt_member fuel' interaction label).
Proof. unfold _prompt_member. parsed_question Unaffected_member_parser. Qed.

Lemma Unaffected_prompt_member_group label require_entry :
  Unaffected interaction (_prompt_member_group fuel interaction label require_entry)
    (_prompt_member_group fuel' interaction label require_entry).
Proof.
  unfold _prompt_member_group. cbv zeta.
  parsed_question Unaffected_group_parser. unaffected.
Qed.

Lemma Unaffected_prompt_year :
  Unaffected interaction (_prompt_year fuel interaction)
    (_prompt_year fuel' interaction).
Proof. unfold _prompt_year. parsed_question Unaffected_year_parser. Qed.

Lemma Unaffected_prompt_seniority :
  Unaffected interaction (_prompt_seniority fuel interaction)
    (_prompt_seniority fuel' interaction).
Proof. unfold _prompt_seniority. parsed_question Unaffected_seniority_parser. Qed.

Lemma Unaffected_prompt_semester :
  Unaffected interaction (_prompt_semester interaction) (_prompt_semester interaction).
Proof.
  unfold _prompt_semester.
  apply Unaffected_bind; [apply Unaffected_send|intros _].
  apply Unaffected_bind; [apply Unaffected_wait_semester_tasks|intros race].
  unfold semester_result. unaffected.
Qed.

Lemma Unaffected_field_map draft key :
  match field_map fuel interaction draft key,
        field_map fuel' interaction draft key with
  | Some handler, Some handler' => Unaffected interaction handler handler'
  | None, None => True
  | _, _ => False
  end.
Proof.
  unfold field_map.
  repeat match goal with
  | |- context [(key =? ?lit)%string] =>
      destruct (key =? lit)%string;
        [apply Unaffected_bind; [|intros ?; apply Unaffected_ret];
         first [ apply Unaffected_prompt_team_nick | apply Unaffected_prompt_role
               | apply Unaffected_prompt_category | apply Unaffected_prompt_channel
               | apply Unaffected_prompt_member | apply Unaffected_prompt_member_group
               | apply Unaffected_prompt_year | apply Unaffected_prompt_semester
               | apply Unaffected_prompt_seniority ] | ]
  end.
  exact I.
Qed.

Lemma Unaffected_review_loop n n' draft :
  (n <= n')%nat ->
  Unaffected interaction (review_loop fuel interaction n draft)
    (review_loop fuel' interaction n' draft).
Proof.
  revert n' draft. induction n as [|n IH]; intros n' draft Hle;
    [apply Unaffected_out_of_fuel|].
  destruct n' as [|n']; [lia|]. simpl review_loop.
  apply Unaffected_bind; [apply Unaffected_send|intros _].
  apply Unaffected_bind; [apply Unaffected_wait_for_reply|intros message].
  cbv zeta.
  split_if; [apply Unaffected_raise|].
  split_if; [apply Unaffected_ret|].
  pose proof (Unaffected_field_map draft
                (PyStr.lower (PyStr.strip (content message)))) as Hmap.
  destruct (field_map fuel interaction draft _) as [handler|],
           (field_map fuel' interaction draft _) as [handler'|];
    try contradiction.
  - apply Unaffected_bind; [exact Hmap|intros result]. apply IH. lia.
  - apply Unaffected_bind; [apply Unaffected_send|intros _]. apply IH. lia.
Qed.

Lemma Unaffected_ensure_captain draft :
  Unaffected interaction (_ensure_captain_assignment draft)
    (_ensure_captain_assignment draft).
Proof. unfold _ensure_captain_assignment. unaffected. Qed.

Lemma Unaffected_collect :
  Unaffected interaction (_collect_team_data fuel interaction)
    (_collect_team_data fuel' interaction).
Proof.
  unfold _collect_team_data. cbv zeta.
  apply Unaffected_bind; [apply Unaffected_prompt_team_nick|intros nick].
  apply Unaffected_bind; [apply Unaffected_prompt_role|intros r].
  apply Unaffected_bind; [apply Unaffected_prompt_category|intros cat].
  apply Unaffected_bind; [apply Unaffected_prompt_channel|intros ch].
  apply Unaffected_bind; [apply Unaffected_prompt_member|intros cap].
  apply Unaffected_bind; [apply Unaffected_prompt_member_group|intros group1].
  apply Unaffected_bind; [apply Unaffected_prompt_member_group|intros group2].
  apply Unaffected_bind; [apply Unaffected_ensure_captain|intros draft].
  apply Unaffected_bind; [apply Unaffected_prompt_year|intros y].
  apply Unaffected_bind; [apply Unaffected_prompt_semester|intros sem].
  apply Unaffected_bind; [apply Unaffected_prompt_seniority|intros sen].
  unfold _review_answers. now apply Unaffected_review_loop.
Qed.

End WithFuel.
End Steps.
End BystanderFacts.

(** X13.  Bystanders cannot steer the wizard.  Messages of other
    authors, messages in other channels and menu picks of other users
    change nothing: the command run on the events without them ends with
    the same outcome, the same messages sent to the operator, the same
    tables and the same role grants, and leaves the same pending events
    apart from the foreign ones. *)
Theorem bystanders_do_not_affect_the_command
    set_iteration interaction in_guild is_admin script db :
  create_team.create_team set_iteration interaction in_guild is_admin
    (Bystanders.without_foreign interaction script) db
  = match create_team.create_team set_iteration interaction in_guild is_admin
            script db with
    | (outcome, w, db', granted) =>
        (outcome, Bystanders.clean interaction w, db', granted)
    end.
Proof.
  unfold create_team.create_team.
  destruct in_guild; simpl negb; cbv iota; [|reflexivity].
  destruct is_admin; simpl negb; cbv iota; [|reflexivity].
  cbv zeta.
  set (text := "Starting team creation. Reply in this channel. Type `(Exit)` at any time to cancel.").
  set (w0 := create_team.say text (create_team.initial_world script)).
  assert (Hw : create_team.say text
                 (create_team.initial_world
                    (Bystanders.without_foreign interaction script))
               = Bystanders.clean interaction w0) by reflexivity.
  rewrite Hw.
  assert (Hle : (length (Bystanders.without_foreign interaction script)
                 <= length script)%nat) by apply filter_length_le.
  rewrite (BystanderFacts.Unaffected_collect interaction
             (S (length (Bystanders.without_foreign interaction script)))
             (S (length script)) ltac:(lia) w0).
  - destruct (create_team._collect_team_data (S (length script)) interaction w0)
      as [[draft|e|] w1]; simpl fst; simpl snd.
    + cbv beta iota.
      destruct (create_team._finalize_team interaction set_iteration draft db)
        as [[[warnings|e|] db'] granted].
      * reflexivity.
      * destruct e; reflexivity.
      * reflexivity.
    + destruct e; reflexivity.
    + reflexivity.
  - destruct (CancelFacts.Cancellable_collect interaction
                (S (length (Bystanders.without_foreign interaction script)))
                (Bystanders.clean interaction w0)) as (_ & _ & _ & Hf).
    apply Hf. simpl. lia.
Qed.

(** ** Confirmations *)
Module ConfirmationFacts.
Import create_team Confirmation.

Lemma Quiet_ret {A} (a : A) : Quiet (ret a).
Proof. intros w. reflexivity. Qed.

Lemma Quiet_raise {A} e : Quiet (@raise A e).
Proof. intros w. reflexivity. Qed.

Lemma Quiet_send text : Quiet (send text).
Proof. intros w. reflexivity. Qed.

Lemma Quiet_py_int s : Quiet (py_int s).
Proof. unfold py_int. destruct (PyStr.int s); [apply Quiet_ret|apply Quiet_raise]. Qed.

Lemma Quiet_bind {A B} (f : M A) (g : A -> M B) :
  Quiet f -> (forall a, Quiet (g a)) -> Quiet (bind f g).
Proof.
  intros Hf Hg w. unfold bind. specialize (Hf w).
  destruct (f w) as [[a|e|] w1]; simpl in *; try exact Hf.
  rewrite Hg. exact Hf.
Qed.

Ltac quiet_step :=
  first
    [ apply Quiet_ret | apply Quiet_raise | apply Quiet_send | apply Quiet_py_int
    | apply Quiet_bind; [|intros ?]
    | match goal with
      | |- Quiet (if ?b then _ else _) => destruct b
      | |- Quiet (match ?x with _ => _ end) => destruct x
      | |- Quiet (let _ := _ in _) => cbv zeta
      end ].

Ltac quiet := repeat quiet_step.

Section Steps.
Variable interaction : Interaction.

Lemma Quiet_add_tokens toks acc : Quiet (add_tokens interaction toks acc).
Proof.
  revert acc. induction toks as [|token toks IH]; intros acc; simpl.
  - apply Quiet_ret.
  - destruct (PyStr.isdigit token); [|apply IH].
    apply Quiet_bind; [apply Quiet_py_int|intros discord_id].
    apply Quiet_bind; [quiet|intros member; apply IH].
Qed.

Lemma Confirmed_never {A} (counts : A -> Prop) (f : M A) :
  Quiet f -> (forall w a, fst (f w) = Ok a -> ~ counts a) ->
  Confirmed interaction counts f.
Proof.
  intros Hq Hn w. exists []. split; [now rewrite Hq|].
  intros a Ha Hc. exfalso. exact (Hn w a Ha Hc).
Qed.

Lemma Confirmed_raise {A} (counts : A -> Prop) e :
  Confirmed interaction counts (raise e).
Proof. apply Confirmed_never; [apply Quiet_raise|]. intros w a H. discriminate H. Qed.

Lemma Confirmed_out_of_fuel {A} (counts : A -> Prop) :
  Confirmed interaction counts out_of_fuel.
Proof. apply Confirmed_never; [intros w; reflexivity|]. intros w a H. discriminate H. Qed.

(** A step that takes no event, then a confirmed one. *)
Lemma Confirmed_quiet_then {A B} (counts : B -> Prop) (f : M A) (g : A -> M B) :
  Quiet f -> (forall a, Confirmed interaction counts (g a)) ->
  Confirmed interaction counts (bind f g).
Proof.
  intros Hf Hg w. unfold bind. specialize (Hf w).
  destruct (f w) as [[a|e|] w1]; simpl in *.
  - destruct (Hg a w1) as (taken & He & Hyes). exists taken.
    split; [congruence|exact Hyes].
  - exists []. split; [now rewrite Hf|]. intros a H. discriminate H.
  - exists []. split; [now rewrite Hf|]. intros a H. discriminate H.
Qed.

(** A confirmed step, then one that takes no event. *)
Lemma Confirmed_then_quiet {A B} (counts1 : A -> Prop) (counts : B -> Prop)
    (f : M A) (g : A -> M B) :
  Confirmed interaction counts1 f ->
  (forall a, Quiet (g a)) ->
  (forall a w b, fst (g a w) = Ok b -> counts b -> counts1 a) ->
  Confirmed interaction counts (bind f g).
Proof.
  intros Hf Hq Hlink w. unfold bind. destruct (Hf w) as (taken & He & Hyes).
  destruct (f w) as [[a|e|] w1]; simpl in *.
  - exists taken. split; [now rewrite Hq|].
    intros b Hb Hc. apply (Hyes a eq_refl). exact (Hlink a w1 b Hb Hc).
  - exists taken. split; [exact He|]. intros a H. discriminate H.
  - exists taken. split; [exact He|]. intros a H. discriminate H.
Qed.

Lemma Confirmed_catch {A} (counts : A -> Prop) (c : M A) (h : string -> M A) :
  Confirmed interaction counts c ->
  (forall msg, Confirmed interaction counts (h msg)) ->
  Confirmed interaction counts (catch_validation c h).
Proof.
  intros Hc Hh w. unfold catch_validation. destruct (Hc w) as (t1 & He1 & Hyes1).
  destruct (c w) as [[a|[msg|r|m|m|]|] w1]; simpl in *;
    try (exists t1; split; [exact He1|exact Hyes1]).
  destruct (Hh msg w1) as (t2 & He2 & Hyes2).
  exists (t1 ++ t2)%list. rewrite <- app_assoc, <- He2. split; [exact He1|].
  intros a Ha Hcount. destruct (Hyes2 a Ha Hcount) as (before & e & -> & Hy).
  exists (t1 ++ before)%list, e. rewrite app_assoc. auto.
Qed.

(** Waiting for a reply, then a step that either is confirmed itself or
    takes no event and returns only on a yes. *)
Lemma Confirmed_reply {A} (counts : A -> Prop) (cont : Message -> M A) :
  (forall message,
     reply_check interaction message = true ->
     Confirmed interaction counts (cont message)
     \/ (Quiet (cont message)
         /\ forall w a, fst (cont message w) = Ok a -> counts a ->
              says_yes interaction (EMessage message) = true)) ->
  Confirmed interaction counts (bind (_wait_for_reply interaction) cont).
Proof.
  intros Hcont w. unfold bind, _wait_for_reply.
  destruct (wait_for_message (reply_check interaction) (events w))
    as [[message|] rest] eqn:E.
  - apply CancelFacts.wait_for_reply_some in E as (skipped & He & Hcheck & _).
    set (w1 := {| events := rest; outbox := outbox w |}).
    destruct (Hcont message Hcheck) as [Hc|[Hq Hyes]].
    + destruct (Hc w1) as (t2 & He2 & Hyes2).
      exists (skipped ++ EMessage message :: t2)%list. split.
      * rewrite He, <- app_assoc. simpl. do 2 f_equal. exact He2.
      * intros a Ha Hcount. destruct (Hyes2 a Ha Hcount) as (before & e & -> & Hy).
        exists (skipped ++ EMessage message :: before)%list, e.
        rewrite <- app_assoc. auto.
    + exists (skipped ++ [EMessage message])%list. split.
      * rewrite He, <- app_assoc, Hq. reflexivity.
      * intros a Ha Hcount. exists skipped, (EMessage message).
        split; [reflexivity|]. exact (Hyes w1 a Ha Hcount).
  - apply CancelFacts.wait_for_message_none in E as (taken & He).
    exists taken. split; [exact He|]. intros a H. discriminate H.
Qed.

Lemma Confirmed_confirm_loop n :
  Confirmed interaction (fun ok => ok = true) (confirm_loop interaction n).
Proof.
  induction n as [|n IH]; [apply Confirmed_out_of_fuel|].
  cbn [confirm_loop]. apply Confirmed_reply. intros message Hcheck. cbv zeta.
  destruct (_should_exit _);
    [right; split; [apply Quiet_raise|intros w a H; discriminate H]|].
  destruct (in_strings (PyStr.lower (PyStr.strip (content message))) ["yes"; "y"])
    eqn:Hyes.
  { right. split; [apply Quiet_ret|]. intros w a _ _.
    unfold says_yes. now rewrite Hcheck, Hyes. }
  destruct (in_strings _ ["no"; "n"]).
  { right. split; [apply Quiet_ret|]. intros w a Ha Htrue.
    simpl in Ha. congruence. }
  left. apply Confirmed_quiet_then; [apply Quiet_send|intros _; exact IH].
Qed.

Section WithFuel.
Variable fuel : nat.

(** A confirmation, then a step that takes no event and returns nothing
    after a no. *)
Lemma Confirmed_confirm_then {A} (counts : A -> Prop) prompt (k : bool -> M A) :
  (forall ok, Quiet (k ok)) ->
  (forall w a, fst (k false w) <> Ok a) ->
  Confirmed interaction counts (bind (_confirm fuel interaction prompt) k).
Proof.
  intros Hq Hno.
  apply (Confirmed_then_quiet (fun ok => ok = true)); [|exact Hq|].
  - unfold _confirm. apply Confirmed_quiet_then; [apply Quiet_send|intros _].
    apply Confirmed_confirm_loop.
  - intros [|] w b Hb _; [reflexivity|]. exfalso. exact (Hno w b Hb).
Qed.

Ltac confirmed_step :=
  first
    [ apply Confirmed_raise
    | apply Confirmed_confirm_then;
      [ intros ?; quiet
      | let H := fresh in
        intros ? ? H; simpl in H;
        repeat match type of H with
               | context [match ?x with _ => _ end] => destruct x
               end;
        discriminate H ]
    | apply Confirmed_quiet_then; [solve [quiet]|intros ?]
    | match goal with
      | |- Confirmed _ _ (if ?b then _ else _) => destruct b
      | |- Confirmed _ _ (match ?x with _ => _ end) => destruct x
      | |- Confirmed _ _ (let _ := _ in _) => cbv zeta
      end ].

Ltac confirmed := repeat confirmed_step.

Lemma Confirmed_role_parser content message :
  Confirmed interaction (fun _ => True)
    (role_parser fuel interaction content message).
Proof. unfold role_parser. confirmed. Qed.

Lemma Confirmed_category_parser content message :
  Confirmed interaction (fun _ => True)
    (category_parser fuel interaction content message).
Proof. unfold category_parser. confirmed. Qed.

Lemma Confirmed_channel_parser category content message :
  Confirmed interaction (fun _ => True)
    (channel_parser fuel interaction category content message).
Proof. unfold channel_parser. confirmed. Qed.

Lemma Confirmed_member_parser label content message :
  Confirmed interaction (fun _ => True)
    (member_parser fuel interaction label content message).
Proof. unfold member_parser. confirmed. Qed.

Lemma Confirmed_group_parser label content message :
  Confirmed interaction (fun _ => True)
    (group_parser fuel interaction label content message).
Proof.
  unfold group_parser. cbv zeta.
  apply Confirmed_quiet_then; [apply Quiet_add_tokens|intros acc].
  confirmed.
Qed.

Lemma Confirmed_ask_loop {A} (counts : A -> Prop) n allow_na
    (parser : option (string -> Message -> M A)) :
  (forall parse content message,
     parser = Some parse ->
     Confirmed interaction counts (parse content message)) ->
  Confirmed interaction (parsed counts) (ask_loop interaction n allow_na parser).
Proof.
  intros Hparser. induction n as [|n IH]; [apply Confirmed_out_of_fuel|].
  cbn [ask_loop]. apply Confirmed_reply. intros message Hcheck. cbv zeta.
  destruct (_should_exit _);
    [right; split; [apply Quiet_raise|intros w a H; discriminate H]|].
  destruct (allow_na && _)%bool.
  { right. split; [apply Quiet_ret|]. intros w a Ha Hc.
    simpl in Ha. inversion Ha; subst. destruct Hc. }
  destruct parser as [parse|].
  - left. apply Confirmed_catch.
    + apply (Confirmed_then_quiet counts); [now apply Hparser| |].
      * intros a. apply Quiet_ret.
      * intros a w b Hb Hc. simpl in Hb. inversion Hb; subst. exact Hc.
    + intros exc. apply Confirmed_quiet_then; [apply Quiet_send|intros _; exact IH].
  - destruct (PyStr.nonempty _).
    + right. split; [apply Quiet_ret|]. intros w a Ha Hc.
      simpl in Ha. inversion Ha; subst. destruct Hc.
    + left. apply Confirmed_quiet_then; [apply Quiet_send|intros _; exact IH].
Qed.

Lemma Confirmed_ask_question {A} (counts : A -> Prop) prompt allow_na
    (parser : option (string -> Message -> M A)) :
  (forall parse content message,
     parser = Some parse ->
     Confirmed interaction counts (parse content message)) ->
  Confirmed interaction (parsed counts)
    (_ask_question fuel interaction prompt allow_na parser).
Proof.
  intros Hparser. unfold _ask_question.
  apply Confirmed_quiet_then; [apply Quiet_send|intros _].
  now apply Confirmed_ask_loop.
Qed.

(** A parsed question followed by its [isinstance] assertion. *)
Lemma Confirmed_parsed_question {A} prompt (parse : string -> Message -> M A) :
  (forall content message,
     Confirmed interaction (fun _ => True) (parse content message)) ->
  Confirmed interaction (fun _ => True)
    (bind (_ask_question fuel interaction prompt false (Some parse)) assert_parsed).
Proof.
  intros Hparse.
  apply (Confirmed_then_quiet (parsed (fun _ => True))).
  - apply Confirmed_ask_question. intros p c m H. inversion H; subst. apply Hparse.
  - intros [|s|a]; [apply Quiet_raise|apply Quiet_raise|apply Quiet_ret].
  - intros [|s|a] w b Hb _; simpl in Hb; try discriminate Hb. exact I.
Qed.

Lemma Confirmed_prompt_member_group label require_entry :
  Confirmed interaction (fun group => group <> [])
    (_prompt_member_group fuel interaction label require_entry).
Proof.
  unfold _prompt_member_group. cbv zeta.
  apply (Confirmed_then_quiet (parsed (fun _ => True))).
  - apply Confirmed_ask_question. intros p c m H. inversion H; subst.
    apply Confirmed_group_parser.
  - intros [|s|a]; [apply Quiet_ret|apply Quiet_raise|apply Quiet_ret].
  - intros [|s|a] w b Hb Hne; simpl in Hb; try discriminate Hb.
    + inversion Hb; subst. now destruct Hne.
    + exact I.
Qed.

End WithFuel.
End Steps.
End ConfirmationFacts.

(** X14.  Nothing is accepted without a yes.  Whenever the role, the
    category, the channel or the member question returns a value, and
    whenever a member-group question returns a non-empty group, the last
    event the question took is a message of the operator in the channel
    that reads "yes" or "y" (trimmed, any letter case); the events the
    question took are the first pending ones. *)
Theorem resolvers_accept_only_after_a_yes fuel interaction :
  let always := fun A (_ : A) => True in
  Confirmation.Confirmed interaction (always Role)
    (create_team._prompt_role fuel interaction)
  /\ Confirmation.Confirmed interaction (always CategoryChannel)
       (create_team._prompt_category fuel interaction)
  /\ (forall category,
        Confirmation.Confirmed interaction (always Channel)
          (create_team._prompt_channel fuel interaction category))
  /\ (forall label,
        Confirmation.Confirmed interaction (always Member)
          (create_team._prompt_member fuel interaction label))
  /\ (forall label require_entry,
        Confirmation.Confirmed interaction (fun group => group <> [])
          (create_team._prompt_member_group fuel interaction label require_entry)).
Proof.
  cbv zeta. repeat split; intros.
  - apply ConfirmationFacts.Confirmed_parsed_question.
    apply ConfirmationFacts.Confirmed_role_parser.
  - apply ConfirmationFacts.Confirmed_parsed_question.
    apply ConfirmationFacts.Confirmed_category_parser.
  - apply ConfirmationFacts.Confirmed_parsed_question.
    apply ConfirmationFacts.Confirmed_channel_parser.
  - apply ConfirmationFacts.Confirmed_parsed_question.
    apply ConfirmationFacts.Confirmed_member_parser.
  - apply ConfirmationFacts.Confirmed_prompt_member_group.
Qed.

(** X15.  A team row whose [archived] flag is NULL blocks the creation
    of a team with its role, category and channel (the finalizer tests
    [archived IS NOT TRUE]), but the archive command cannot find it (it
    tests [archived = FALSE]): with team ids unique, whatever nickname
    the command is run with, the row is still in the table afterwards
    and the finalizer is still blocked with the conflict message. *)
Theorem null_archived_team_blocks_and_cannot_be_archived
    set_iteration interaction draft r cat ch cap y sem sen db t
    g is_admin p nick move :
  NoDup (map Db.team_id (Db.teams db)) ->
  create_team.ready draft r cat ch cap y sem sen ->
  In t (Db.teams db) -> Db.archived t = None ->
  Invariants.triple t = (role_id r, category_id cat, channel_id ch) ->
  let db' := fst (fst (ArchiveCommand.archive_team g is_admin p nick move db)) in
  ~ In t (ArchiveCommand.select_active nick db)
  /\ In t (Db.teams db')
  /\ create_team._finalize_team interaction set_iteration draft db'
     = (Raise (TeamCreationError conflict_message), db', []).
Proof.
  intros Hnd Hready Hin Hnull Htriple db'.
  assert (Hnot : ~ In t (ArchiveCommand.select_active nick db)).
  { intros H. apply ArchiveFacts.select_active_In in H as (_ & _ & Ha). congruence. }
  assert (Hstill : In t (Db.teams db')).
  { unfold db'. rewrite ArchiveFacts.archive_team_tables.
    destruct g as [g0|]; [|exact Hin]. destruct is_admin; [|exact Hin].
    destruct (ArchiveCommand.select_active nick db) as [|team [|other rest]] eqn:Hsel;
      try exact Hin.
    simpl. apply in_map_iff. exists t. split; [|exact Hin].
    destruct (Db.team_id t =? Db.team_id team) eqn:Eid; [|reflexivity].
    exfalso. apply Z.eqb_eq in Eid.
    assert (Hteam : In team (ArchiveCommand.select_active nick db))
      by (rewrite Hsel; now left).
    apply ArchiveFacts.select_active_In in Hteam as (Hteam & _ & Ha).
    assert (Heq : t = team)
      by (apply (ArchiveFacts.NoDup_map_same Db.team_id (Db.teams db)); auto).
    subst t. congruence. }
  split; [exact Hnot|]. split; [exact Hstill|].
  destruct (finalize_ready_cases set_iteration interaction draft db'
              r cat ch cap y sem sen Hready)
    as [[_ Hblocked]|[Hnone _]]; [exact Hblocked|].
  exfalso.
  apply (select_conflict_finds (role_id r) (category_id cat) (channel_id ch) db' t);
    try exact Hstill; try exact Hnone;
    unfold Invariants.triple in Htriple; congruence.
Qed.

Lemma null_archived_team_blocks_and_cannot_be_archived_witness :
  let db' := fst (fst (ArchiveCommand.archive_team (Some Demo.demo_guild) true
                         DemoMore.platform "Falcons" true
                         DemoLegacy.db_with_legacy)) in
  In DemoLegacy.legacy_row (Db.teams db')
  /\ create_team._finalize_team Demo.operator Demo.in_order Demo.complete_draft db'
     = (Raise (TeamCreationError conflict_message), db', []).
Proof.
  destruct (null_archived_team_blocks_and_cannot_be_archived
              Demo.in_order Demo.operator Demo.complete_draft
              Demo.falcons Demo.main_category Demo.falcons_chat Demo.ann
              2025 "Fall" 3 DemoLegacy.db_with_legacy DemoLegacy.legacy_row
              (Some Demo.demo_guild) true DemoMore.platform "Falcons" true)
    as (_ & Hin & Hfin).
  - repeat constructor. intros [].
  - exact demo_ready.
  - now left.
  - reflexivity.
  - reflexivity.
  - split; [exact Hin|exact Hfin].
Defined.

(** ** The calls of the archive command *)
Module ScopeFacts.
Import ArchiveCommand ArchiveScope.

Lemma process_members_concerns g team move p ch r members :
  channel_id ch = Db.channel_id team -> role_id r = Db.role_id team ->
  Forall (fun a => concerns g team move (fst a))
    (snd (process_members p ch r members)).
Proof.
  intros Hch Hr. induction members as [|m members IH]; simpl; [constructor|].
  destruct (process_members p ch r members) as [n calls]. simpl in IH.
  destruct (set_permissions p ch m) as [[]|e1]; simpl.
  - destruct (remove_roles p m r) as [[]|e2]; simpl;
      repeat (constructor; [assumption|]); exact IH.
  - constructor; [exact Hch|exact IH].
Qed.

Lemma release_role_concerns g team move p :
  Forall (fun a => concerns g team move (fst a))
    (snd (release_role p
            (find (fun ch => channel_id ch =? Db.channel_id team) (channels g))
            (find (fun rl => role_id rl =? Db.role_id team) (roles g)))).
Proof.
  destruct (find _ (channels g)) as [ch|] eqn:Hch; [|constructor].
  destruct (find _ (roles g)) as [rl|] eqn:Hrl; [|constructor].
  apply find_some in Hch as [_ Hch]. apply find_some in Hrl as [_ Hrl].
  apply Z.eqb_eq in Hch, Hrl. unfold release_role.
  pose proof (process_members_concerns g team move p ch rl (role_members p rl)
                Hch Hrl) as Hloop.
  destruct (process_members p ch rl (role_members p rl)) as [n calls].
  simpl in Hloop.
  destruct (delete_role p rl) as [[]|e]; simpl;
    (apply Forall_app; split; [exact Hloop|repeat constructor; exact Hrl]).
Qed.

Lemma move_channel_concerns g team p :
  Forall (fun a => concerns g team true (fst a))
    (snd (move_channel g p
            (find (fun ch => channel_id ch =? Db.channel_id team) (channels g)))).
Proof.
  destruct (find _ (channels g)) as [ch|] eqn:Hch; [|constructor].
  apply find_some in Hch as [_ Hch]. apply Z.eqb_eq in Hch.
  unfold move_channel. cbv zeta.
  destruct (find (fun c => (PyStr.lower (category_name c) =? "archives")%string)
                 (categories g)) as [found|] eqn:Hfind.
  - apply find_some in Hfind as [Hin Hname]. apply String.eqb_eq in Hname.
    destruct (edit_category p ch found) as [[]|e]; simpl;
      (constructor; [simpl; auto|constructor]).
  - assert (Hnone : forall c, In c (categories g) ->
                      PyStr.lower (category_name c) <> "archives").
    { intros c Hin Hname.
      pose proof (find_none _ _ Hfind c Hin) as Hf. simpl in Hf.
      rewrite Hname in Hf. discriminate Hf. }
    destruct (create_category g "Archives") as [created|e] eqn:Hcreate.
    + destruct (edit_category p ch created) as [[]|e]; simpl;
        (constructor; [simpl; auto|]); (constructor; [simpl; auto|constructor]).
    + simpl. constructor; [simpl; auto|constructor].
Qed.

End ScopeFacts.

(** X16.  The archive command makes no call at all unless it is run in
    a server by an admin and exactly one active team has the nickname.
    Then every call is about that team: channel access is granted on
    its channel, the role removed and deleted is its role, and the
    Archives category is touched only when the move was asked for; the
    channel moved is the team's, into an existing category named
    "archives" (any letter case), and a category is created only when
    none has that name. *)
Theorem archive_calls_concern_only_the_archived_team
    g is_admin p nick move db :
  let calls := snd (ArchiveCommand.archive_team g is_admin p nick move db) in
  match g, is_admin, ArchiveCommand.select_active nick db with
  | Some g0, true, [team] =>
      Forall (fun a => ArchiveScope.concerns g0 team move (fst a)) calls
  | _, _, _ => calls = []
  end.
Proof.
  cbv zeta. unfold ArchiveCommand.archive_team.
  destruct g as [g0|]; [|reflexivity].
  destruct is_admin; simpl negb; cbv iota; [|reflexivity].
  destruct (ArchiveCommand.select_active nick db) as [|team [|other rest]];
    try reflexivity.
  cbv zeta.
  pose proof (ScopeFacts.release_role_concerns g0 team move p) as H1.
  destruct (ArchiveCommand.release_role p _ _) as [text1 calls1]. simpl in H1.
  destruct move.
  - pose proof (ScopeFacts.move_channel_concerns g0 team p) as H2.
    destruct (ArchiveCommand.move_channel g0 p _) as [text2 calls2]. simpl in H2.
    simpl. apply Forall_app. split; assumption.
  - simpl. rewrite app_nil_r. exact H1.
Qed.

(** ** The kind of the team channel *)
Module ChannelFacts.
Import create_team Contracts PostFacts ParserFacts PromptFacts CollectFacts ChannelKind.

Section Channel.
Variable fuel : nat.
Variable interaction : Interaction.

Lemma channel_parser_ok category content message w ch w' :
  channel_parser fuel interaction category content message w = (Ok ch, w') ->
  text_or_created interaction ch.
Proof.
  unfold channel_parser. intros H.
  destruct (channel_mentions message) as [|mentioned others].
  - apply bind_ok_inv in H as (target & w1 & Ht & H). cbv zeta in H.
    assert (Htext : forall c, target = Some c -> channel_is_text c = true).
    { destruct (PyStr.isdigit (PyStr.strip content)).
      - apply bind_ok_inv in Ht as (wanted & w2 & _ & Ht).
        destruct (find _ (channels (guild interaction))) as [maybe|].
        + destruct (channel_is_text maybe) eqn:Em; inversion Ht; subst;
            intros c Hc; inversion Hc; subst; exact Em.
        + inversion Ht; subst. intros c Hc. discriminate Hc.
      - inversion Ht; subst. intros c Hc. discriminate Hc. }
    destruct target as [byid|].
    + apply bind_ok_inv in H as (ok & w2 & _ & H).
      destruct ok; inversion H; subst. left. now apply Htext.
    + destruct (find _ (filter channel_is_text (channels (guild interaction))))
        as [found|] eqn:Hfind.
      * apply bind_ok_inv in H as (ok & w2 & _ & H).
        destruct ok; inversion H; subst. left.
        apply find_some in Hfind as [_ Hf]. simpl in Hf.
        now apply andb_true_iff in Hf as [Hf _].
      * apply bind_ok_inv in H as (ok & w2 & _ & H).
        destruct ok; simpl in H; [|discriminate H].
        destruct (create_text_channel (guild interaction) (PyStr.strip content)
                    category) as [created|[t|t|t]] eqn:Hcreate;
          inversion H; subst. right. eauto.
  - destruct (channel_is_text mentioned) eqn:Em; [|discriminate H].
    apply bind_ok_inv in H as (ok & w2 & _ & H).
    destruct ok; inversion H; subst. now left.
Qed.

Lemma Post_prompt_channel_kind category :
  Post (text_or_created interaction) question_exception
    (_prompt_channel fuel interaction category).
Proof.
  apply Post_parsed_question. intros content message.
  apply Post_split; [apply Post_channel_parser|].
  intros w ch w'. apply channel_parser_ok.
Qed.

(** [assign] changes the channel only when it stores a channel. *)
Lemma assign_channel key result draft :
  channel (assign key result draft) = channel draft
  \/ exists v, result = VChannel v /\ channel (assign key result draft) = Some v.
Proof.
  unfold assign.
  repeat match goal with
  | |- context [(key =? ?lit)%string] =>
      destruct (key =? lit)%string; [destruct result; simpl; eauto|]
  end.
  now left.
Qed.

Ltac any_answer lemma :=
  eapply Post_weaken; [intros ? _; exact I|intros ? He; exact He|apply lemma].

Lemma Post_field_handler_channel draft key handler :
  field_map fuel interaction draft key = Some handler ->
  Post (fun result => forall v, result = VChannel v -> text_or_created interaction v)
    question_exception handler.
Proof.
  unfold field_map.
  repeat match goal with
  | |- context [(key =? ?lit)%string] =>
      destruct (key =? lit)%string;
        [intros Hmap; inversion Hmap; subst handler;
         first
           [ apply (Post_bind (text_or_created interaction));
             [ apply Post_prompt_channel_kind
             | intros v Hv; apply Post_ret; intros v' Heq;
               inversion Heq; subst; exact Hv ]
           | apply (Post_bind (fun _ => True));
             [ first [ any_answer Post_prompt_team_nick
                     | any_answer Post_prompt_role
                     | any_answer Post_prompt_category
                     | any_answer Post_prompt_member
                     | any_answer Post_prompt_member_group
                     | any_answer Post_prompt_year
                     | any_answer Post_prompt_semester
                     | any_answer Post_prompt_seniority ]
             | intros v _; apply Post_ret; intros v' Heq; discriminate Heq ] ] | ]
  end.
  discriminate.
Qed.

Lemma Post_review_loop_channel n draft :
  channel_ok interaction draft ->
  Post (channel_ok interaction) question_exception
    (review_loop fuel interaction n draft).
Proof.
  revert draft. induction n as [|n IH]; intros draft Hc; [apply Post_out_of_fuel|].
  simpl review_loop. apply Post_send_then.
  eapply Post_bind; [apply Post_wait_for_reply|intros message _]. cbv beta zeta.
  post_if; [apply Post_raise; exact I|].
  post_if; [apply Post_ret; exact Hc|].
  destruct (field_map fuel interaction draft _) as [handler|] eqn:Hmap.
  - eapply Post_bind; [eapply Post_field_handler_channel; eassumption|].
    intros result Hres. apply IH. intros ch Hch.
    destruct (assign_channel (PyStr.lower (PyStr.strip (content message)))
                result draft) as [Hsame|(v & Hv & Hset)].
    + apply Hc. congruence.
    + assert (Heq : ch = v) by congruence. subst ch. exact (Hres v Hv).
  - apply Post_send_then. apply IH. exact Hc.
Qed.

Lemma Post_collect_channel :
  Post (channel_ok interaction) question_exception
    (_collect_team_data fuel interaction).
Proof.
  unfold _collect_team_data. cbv zeta.
  apply (Post_bind (fun _ => True)); [any_answer Post_prompt_team_nick|intros nick _].
  apply (Post_bind (fun _ => True)); [any_answer Post_prompt_role|intros r _].
  apply (Post_bind (fun _ => True)); [any_answer Post_prompt_category|intros cat _].
  apply (Post_bind (text_or_created interaction));
    [apply Post_prompt_channel_kind|intros ch Hch].
  apply (Post_bind (fun _ => True)); [any_answer Post_prompt_member|intros cap _].
  apply (Post_bind (fun _ => True));
    [any_answer Post_prompt_member_group|intros g1 _].
  apply (Post_bind (fun _ => True));
    [any_answer Post_prompt_member_group|intros g2 _].
  eapply Post_bind; [apply Post_ensure_captain|].
  intros fixed (_ & _ & _ & F4 & _). simpl in F4.
  apply (Post_bind (fun _ => True)); [any_answer Post_prompt_year|intros y _].
  apply (Post_bind (fun _ => True)); [any_answer Post_prompt_semester|intros sem _].
  apply (Post_bind (fun _ => True)); [any_answer Post_prompt_seniority|intros sen _].
  unfold _review_answers. apply Post_review_loop_channel.
  intros c Hc. simpl in Hc. rewrite F4 in Hc. inversion Hc; subst. exact Hch.
Qed.

End Channel.
End ChannelFacts.

(** X17.  "Only text channels are supported."  The channel question
    hands back a text channel (mentioned, found by id or found by name),
    or the channel Discord returned when the wizard asked it to create a
    text channel; a mentioned or cached channel of another type is never
    returned.  The same holds for the channel of every draft that
    [_collect_team_data] returns, edits during the review included. *)
Theorem team_channel_is_a_text_channel_or_newly_created fuel interaction :
  (forall category,
     Contracts.Post (ChannelKind.text_or_created interaction)
       Contracts.question_exception
       (create_team._prompt_channel fuel interaction category))
  /\ Contracts.Post (ChannelKind.channel_ok interaction)
       Contracts.question_exception
       (create_team._collect_team_data fuel interaction).
Proof.
  split.
  - intros category. apply ChannelFacts.Post_prompt_channel_kind.
  - apply ChannelFacts.Post_collect_channel.
Qed.

(** X18.  Create, then archive.  With team ids unique and below the
    sequence, a team created under a label that no active team had is
    afterwards the one active team with that label; the archive command
    run with the label archives exactly this row and leaves every other
    team row as it was; and then no active team holds the role, category
    and channel of the draft any more. *)
Theorem created_team_is_archived_by_its_label
    set_iteration interaction draft db r cat ch cap y sem sen
    warnings db' granted nick g p move :
  Invariants.team_ids_fresh db ->
  create_team.ready draft r cat ch cap y sem sen ->
  team_nick draft = Some nick ->
  ArchiveCommand.select_active nick db = [] ->
  create_team._finalize_team interaction set_iteration draft db
    = (Ok warnings, db', granted) ->
  let row := Invariants.new_team_row db draft r cat ch cap y sem sen in
  let db'' :=
    fst (fst (ArchiveCommand.archive_team (Some g) true p nick move db')) in
  ArchiveCommand.select_active nick db' = [row]
  /\ Db.teams db'' = (Db.teams db ++ [ArchiveCommand.set_archived row])%list
  /\ Db.select_conflict (role_id r) (category_id cat) (channel_id ch) db'' = [].
Proof.
  intros [_ Hlt] Hready Hnick Hsel Hfin row db''.
  destruct (finalize_ready_cases set_iteration interaction draft db
              r cat ch cap y sem sen Hready)
    as [[_ Hblocked]|[_ (db1 & Htx & Hok)]];
    rewrite Hfin in *; [discriminate Hblocked|].
  inversion Hok; subst db1; clear Hok.
  apply FinalizerFacts.db_transaction_ok in Htx as (Hnone & Ht & _).
  fold (Invariants.new_team_row db draft r cat ch cap y sem sen) in Ht.
  fold row in Ht.
  assert (Hactive : ArchiveCommand.select_active nick db' = [row]).
  { unfold ArchiveCommand.select_active in *. rewrite Ht, filter_app, Hsel.
    simpl. rewrite Hnick, String.eqb_refl. reflexivity. }
  assert (Hteams : Db.teams db''
                   = (Db.teams db ++ [ArchiveCommand.set_archived row])%list).
  { unfold db''. rewrite ArchiveFacts.archive_team_tables, Hactive. simpl.
    rewrite Ht, map_app. simpl. rewrite Z.eqb_refl. f_equal.
    rewrite <- (map_id (Db.teams db)) at 2. apply map_ext_in.
    intros t Hin. apply Hlt in Hin.
    destruct (Db.team_id t =? Db.next_team_id db) eqn:E; [|reflexivity].
    apply Z.eqb_eq in E. lia. }
  split; [exact Hactive|]. split; [exact Hteams|].
  unfold Db.select_conflict in *. rewrite Hteams, filter_app, map_app, Hnone.
  simpl. rewrite andb_false_r. reflexivity.
Qed.

Lemma created_team_is_archived_by_its_label_witness :
  Db.teams
    (fst (fst (ArchiveCommand.archive_team (Some Demo.demo_guild) true
                 DemoMore.platform "Falcons" true DemoMore.db_after_create)))
  = [ArchiveCommand.set_archived Demo.falcons_row].
Proof.
  destruct (created_team_is_archived_by_its_label
              Demo.in_order Demo.operator Demo.complete_draft Demo.empty_db
              Demo.falcons Demo.main_category Demo.falcons_chat Demo.ann
              2025 "Fall" 3
              ["Missing permission to assign role to Cy."]
              DemoMore.db_after_create [Demo.ann; Demo.bob; Demo.cy]
              "Falcons" Demo.demo_guild DemoMore.platform true)
    as (_ & H & _).
  - split; [constructor|intros t []].
  - exact demo_ready.
  - reflexivity.
  - reflexivity.
  - reflexivity.
  - exact H.
Defined.

(** X19.  What the autocomplete offers, the command finds.  Every
    choice has the label as name and as value, at least one active team
    has that label, and the command run with it by an admin in a server
    never answers that no active team has the nickname. *)
Theorem offered_choice_is_found_by_the_command current db c g p move :
  In c (ArchiveTeam.archive_team_autocomplete current db) ->
  ArchiveTeam.name c = ArchiveTeam.value c
  /\ ArchiveCommand.select_active (ArchiveTeam.value c) db <> []
  /\ snd (fst (ArchiveCommand.archive_team (Some g) true p
                 (ArchiveTeam.value c) move db))
     <> ("Active team with nickname `" ++ ArchiveTeam.value c ++ "` not found.")%string.
Proof.
  intros Hc. unfold ArchiveTeam.archive_team_autocomplete in Hc.
  apply in_map_iff in Hc as (label & <- & Hl). simpl.
  apply LikeFacts.select_labels_sound in Hl as (t & Ht & Hn & Ha & _).
  assert (Hin : In t (ArchiveCommand.select_active label db))
    by (apply ArchiveFacts.select_active_In; auto).
  split; [reflexivity|]. split.
  - intros Hnil. rewrite Hnil in Hin. destruct Hin.
  - unfold ArchiveCommand.archive_team. simpl negb. cbv iota.
    destruct (ArchiveCommand.select_active label db) as [|team [|other rest]];
      [destruct Hin| |].
    + cbv zeta. destruct (ArchiveCommand.release_role p _ _) as [text1 calls1].
      destruct (if move then _ else _) as [text2 calls2]. simpl.
      intros H. discriminate H.
    + simpl. intros H. discriminate H.
Qed.

Lemma offered_choice_is_found_by_the_command_witness :
  ArchiveCommand.select_active "Falcons" Demo.db_with_falcons <> [].
Proof.
  destruct (offered_choice_is_found_by_the_command
              "fal" Demo.db_with_falcons
              {| ArchiveTeam.name := "Falcons"; ArchiveTeam.value := "Falcons" |}
              Demo.demo_guild DemoMore.platform true) as (_ & H & _).
  - simpl. now left.
  - exact H.
Defined.

(** ** Texts that pass [isdigit] *)
Module DigitFacts.
Import create_team.

Lemma digit_char_facts c :
  PyStr.isdigit_char c = true ->
  PyStr.isspace c = false /\ PyStr.is_sep c = false
  /\ Ascii.eqb (PyStr.lower_char c) "e" = false
  /\ Ascii.eqb (PyStr.lower_char c) "(" = false
  /\ Ascii.eqb (PyStr.lower_char c) "n" = false.
Proof.
  destruct c as [[] [] [] [] [] [] [] []]; vm_compute; intros H;
    first [discriminate H | repeat split].
Qed.

Lemma rstrip_digits s :
  PyStr.all_chars PyStr.isdigit_char s = true -> PyStr.rstrip s = s.
Proof.
  induction s as [|c s IH]; [reflexivity|]. simpl. intros H.
  apply andb_true_iff in H as [Hc Hs]. rewrite (IH Hs).
  apply digit_char_facts in Hc as (Hsp & _). rewrite Hsp.
  destruct s; reflexivity.
Qed.

Lemma strip_digits s : PyStr.isdigit s = true -> PyStr.strip s = s.
Proof.
  unfold PyStr.isdigit, PyStr.strip. intros H.
  apply andb_true_iff in H as [_ H]. rewrite (rstrip_digits s H).
  destruct s as [|c s]; [reflexivity|]. simpl in *.
  apply andb_true_iff in H as [Hc _].
  apply digit_char_facts in Hc as (Hsp & _). now rewrite Hsp.
Qed.

Lemma append_step cur c s :
  ((cur ++ String c EmptyString) ++ s = cur ++ String c s)%string.
Proof. induction cur as [|d cur IH]; simpl; [reflexivity|now rewrite IH]. Qed.

Lemma tokens_aux_digits s cur :
  PyStr.all_chars PyStr.isdigit_char s = true ->
  PyStr.tokens_aux cur s
  = if PyStr.nonempty (cur ++ s) then [(cur ++ s)%string] else [].
Proof.
  revert cur. induction s as [|c s IH]; intros cur H; simpl.
  - assert (Hnil : (cur ++ EmptyString)%string = cur)
      by (induction cur as [|d cur IHc]; simpl; [reflexivity|now rewrite IHc]).
    rewrite Hnil. reflexivity.
  - simpl in H. apply andb_true_iff in H as [Hc Hs].
    apply digit_char_facts in Hc as (_ & Hsep & _). rewrite Hsep.
    rewrite (IH _ Hs), append_step. reflexivity.
Qed.

Lemma tokens_digits s : PyStr.isdigit s = true -> PyStr.tokens s = [s].
Proof.
  unfold PyStr.isdigit, PyStr.tokens. intros H.
  apply andb_true_iff in H as [Hn H]. rewrite (tokens_aux_digits s EmptyString H).
  simpl. now rewrite Hn.
Qed.

(** A text of digits is neither a cancellation nor a skip token. *)
Lemma digits_are_no_keyword s :
  PyStr.isdigit s = true ->
  _should_exit s = false
  /\ in_strings (PyStr.lower s) ["n/a"; "na"] = false.
Proof.
  intros H. unfold _should_exit. rewrite (strip_digits s H).
  unfold PyStr.isdigit in H. apply andb_true_iff in H as [Hn H].
  destruct s as [|c s]; [discriminate Hn|]. simpl in H.
  apply andb_true_iff in H as [Hc _].
  apply digit_char_facts in Hc as (_ & _ & He & Hp & Hna).
  unfold in_strings, EXIT_KEYWORDS. simpl. rewrite He, Hp, Hna. auto.
Qed.

End DigitFacts.

(** X20.  The flaw of the year question is shared by every numeric
    question.  A text that passes [isdigit] but that [int] rejects (it
    holds a superscript digit), sent without mentions, makes the
    category, channel, member, member-group, year and seniority parsers
    raise the [ValueError] of [int] with nothing sent; and
    [_ask_question], which catches only [ValidationError], lets it
    through: the question takes the reply, is not asked again and ends
    with that [ValueError]. *)
Theorem digit_text_that_int_rejects_ends_every_numeric_question
    fuel interaction n s message rest sent category label :
  PyStr.isdigit s = true -> PyStr.int s = None ->
  mentions message = [] -> channel_mentions message = [] ->
  let err :=
    ValueError ("invalid literal for int() with base 10: '" ++ s ++ "'") in
  (forall w,
     create_team.category_parser fuel interaction s message w = (Raise err, w)
     /\ create_team.channel_parser fuel interaction category s message w
        = (Raise err, w)
     /\ create_team.member_parser fuel interaction label s message w
        = (Raise err, w)
     /\ create_team.group_parser fuel interaction label s message w
        = (Raise err, w)
     /\ create_team.year_parser s message w = (Raise err, w)
     /\ create_team.seniority_parser s message w = (Raise err, w))
  /\ (forall A (parse : string -> Message -> M A) prompt allow_na,
        create_team.reply_check interaction message = true ->
        PyStr.strip (content message) = s ->
        (forall w, parse s message w = (Raise err, w)) ->
        create_team._ask_question (S n) interaction prompt allow_na (Some parse)
          {| events := EMessage message :: rest; outbox := sent |}
        = (Raise err,
           {| events := rest; outbox := (sent ++ [prompt])%list |})).
Proof.
  intros Hd Hint Hm Hcm err.
  pose proof (DigitFacts.strip_digits s Hd) as Hstrip.
  split.
  - intros w. repeat split.
    + unfold create_team.category_parser. cbv zeta. rewrite Hstrip, Hd.
      unfold bind, py_int. rewrite Hint. reflexivity.
    + unfold create_team.channel_parser. rewrite Hcm, Hstrip, Hd.
      unfold bind, py_int. rewrite Hint. reflexivity.
    + unfold create_team.member_parser. rewrite Hm, Hstrip, Hd.
      unfold bind, py_int. rewrite Hint. reflexivity.
    + unfold create_team.group_parser. cbv zeta.
      rewrite Hm, Hstrip, (DigitFacts.tokens_digits s Hd).
      cbn [fold_left create_team.add_tokens]. rewrite Hd.
      unfold bind, py_int. rewrite Hint. reflexivity.
    + unfold create_team.year_parser. rewrite Hd. simpl negb. cbv iota.
      unfold bind, py_int. rewrite Hint. reflexivity.
    + unfold create_team.seniority_parser. rewrite Hd. simpl negb. cbv iota.
      unfold py_int. rewrite Hint. reflexivity.
  - intros A parse prompt allow_na Hcheck Hcontent Hparse.
    destruct (DigitFacts.digits_are_no_keyword s Hd) as [Hexit Hna].
    unfold create_team._ask_question. cbn [create_team.ask_loop].
    unfold bind at 1. cbn [send]. unfold bind at 1.
    unfold create_team._wait_for_reply. cbn [events outbox wait_for_message].
    rewrite Hcheck, Hcontent, Hexit, Hna, andb_false_r.
    unfold catch_validation, bind. rewrite Hparse. reflexivity.
Qed.

Lemma digit_text_that_int_rejects_ends_every_numeric_question_witness :
  create_team.seniority_parser Demo.superscript_two
    DemoMore.superscript_reply (Demo.world_of [])
  = (Raise (ValueError
       ("invalid literal for int() with base 10: '" ++ Demo.superscript_two ++ "'")),
     Demo.world_of []).
Proof.
  destruct (digit_text_that_int_rejects_ends_every_numeric_question
              1 Demo.operator 0 Demo.superscript_two
              DemoMore.superscript_reply [] [] None "captain" eq_refl eq_refl eq_refl eq_refl)
    as [H _].
  destruct (H (Demo.world_of [])) as (_ & _ & _ & _ & _ & Hs).
  exact Hs.
Defined.

(** ** What a review may change *)
Module ReviewFacts.
Import create_team ReviewScope.

Lemma unchanged_refl key d : unchanged key d d.
Proof. unfold unchanged. repeat split; reflexivity. Qed.

Lemma unchanged_trans key d1 d2 d3 :
  unchanged key d1 d2 -> unchanged key d2 d3 -> unchanged key d1 d3.
Proof.
  unfold unchanged.
  intros (A1 & A2 & A3 & A4 & A5 & A6 & A7 & A8 & A9 & A10)
         (B1 & B2 & B3 & B4 & B5 & B6 & B7 & B8 & B9 & B10).
  repeat split; intros H;
    [ rewrite (B1 H); exact (A1 H) | rewrite (B2 H); exact (A2 H)
    | rewrite (B3 H); exact (A3 H) | rewrite (B4 H); exact (A4 H)
    | rewrite (B5 H); exact (A5 H) | rewrite (B6 H); exact (A6 H)
    | rewrite (B7 H); exact (A7 H) | rewrite (B8 H); exact (A8 H)
    | rewrite (B9 H); exact (A9 H) | rewrite (B10 H); exact (A10 H) ].
Qed.

(** Storing under another key leaves the field alone. *)
Lemma assign_unchanged key other result d :
  other <> key -> unchanged key d (assign other result d).
Proof.
  intros Hne.
  destruct (assign_same_except other result d)
    as (A1 & A2 & A3 & A4 & A5 & A6 & A7 & A8 & A9 & A10).
  unfold unchanged. repeat split; intros H; subst key;
    [ apply A1 | apply A2 | apply A3 | apply A4 | apply A5
    | apply A6 | apply A7 | apply A8 | apply A9 | apply A10 ]; exact Hne.
Qed.

Lemma named_later interaction before evs key :
  named interaction evs key -> named interaction (before ++ evs)%list key.
Proof.
  intros (m & Hin & H). exists m. split; [|exact H].
  apply in_or_app. now right.
Qed.

Lemma review_loop_unchanged fuel interaction n draft w d' w' key :
  (n <= fuel)%nat ->
  review_loop fuel interaction n draft w = (Ok d', w') ->
  ~ named interaction (events w) key ->
  unchanged key draft d'.
Proof.
  revert draft w. induction n as [|n IH]; intros draft w Hle H Hnot;
    [discriminate H|].
  rewrite review_loop_step in H.
  apply bind_ok_inv in H as ([] & w0 & Hsend & H).
  assert (Hw0 : events w0 = events w) by (inversion Hsend; reflexivity).
  apply bind_ok_inv in H as (message & w1 & Hwait & H).
  unfold _wait_for_reply in Hwait.
  destruct (wait_for_message (reply_check interaction) (events w0))
    as [[m|] rest] eqn:E; [|discriminate Hwait].
  inversion Hwait; subst message w1; clear Hwait.
  apply CancelFacts.wait_for_reply_some in E as (skipped & He & Hcheck & _).
  rewrite Hw0 in He. cbv zeta in H.
  destruct (_should_exit (PyStr.strip (content m))); [discriminate H|].
  destruct (PyStr.lower (PyStr.strip (content m)) =? "confirm")%string.
  { inversion H; subst. apply unchanged_refl. }
  assert (Hkey : PyStr.lower (PyStr.strip (content m)) <> key).
  { intros Hk. apply Hnot. exists m. split; [|auto].
    rewrite He. apply in_or_app. right. now left. }
  destruct (field_map fuel interaction draft (PyStr.lower (PyStr.strip (content m))))
    as [handler|] eqn:Hmap.
  - apply bind_ok_inv in H as (result & w2 & Hh & H).
    destruct (CancelFacts.Cancellable_field_map interaction fuel draft _ handler Hmap
                {| events := rest; outbox := outbox w0 |}) as (taken & Ht & _).
    rewrite Hh in Ht. simpl in Ht.
    apply (unchanged_trans key draft
             (assign (PyStr.lower (PyStr.strip (content m))) result draft)).
    + now apply assign_unchanged.
    + apply (IH _ w2); [lia|exact H|].
      intros Hn. apply Hnot. rewrite He, Ht.
      apply named_later.
      apply (named_later interaction (EMessage m :: taken)). exact Hn.
  - apply bind_ok_inv in H as ([] & w2 & Hsend2 & H).
    apply (IH _ w2); [lia|exact H|].
    intros Hn. apply Hnot. rewrite He.
    apply named_later. apply (named_later interaction [EMessage m]).
    inversion Hsend2; subst. exact Hn.
Qed.

End ReviewFacts.

(** X21.  The review changes a field only when the operator names it.
    When [_review_answers] returns and none of the pending messages of
    the operator reads a field's name (trimmed, any letter case), that
    field of the returned draft is what it was before the review,
    whatever else was edited. *)
Theorem review_leaves_unnamed_fields_alone
    fuel interaction draft w d' w' key :
  create_team._review_answers fuel interaction draft w = (Ok d', w') ->
  ~ ReviewScope.named interaction (events w) key ->
  ReviewScope.unchanged key draft d'.
Proof.
  unfold create_team._review_answers. intros H Hnot.
  now apply (ReviewFacts.review_loop_unchanged fuel interaction fuel draft w d' w').
Qed.

Lemma review_leaves_unnamed_fields_alone_witness :
  ReviewScope.unchanged "role" Demo.complete_draft
    (set_year (Some 2026) Demo.complete_draft).
Proof.
  eapply (review_leaves_unnamed_fields_alone 4 Demo.operator Demo.complete_draft
            (Demo.world_of ReviewScope.year_edit)).
  - vm_compute. reflexivity.
  - intros (m & Hin & _ & Hk). simpl in Hin.
    destruct Hin as [Hm|[Hm|[Hm|[]]]]; inversion Hm; subst m;
      vm_compute in Hk; discriminate Hk.
Defined.
